(** * Vector compression engine: product quantizer and scalar quantizer

    A shallow embedding of [scripts/compression/compression_utils.py]
    (classes [ProductQuantizer] and [ScalarQuantizer]) together with the
    properties of its specification that can be settled on that code.

    Conventions of the embedding.
    - The finite values of a NumPy float are rationals ([Q]).  The two
      classes are embedded twice.  The first embedding computes with the
      rationals exactly; it serves the properties that no rounding
      touches: shapes, exceptions, what is stored and loaded, and bytes
      that no rounded value decides.  The second ([FloatScalarQuantizer],
      [FloatProductQuantizer]) follows every operation by the rounding of
      the arrays' float format, a parameter constrained by the laws of
      rounding to nearest ([Float.ieee]) and run in [Binary32]; it serves
      the properties of the computed values.  Overflow to an infinity and
      NaN are outside both.
    - A 2-D [ndarray] is a record of its second dimension and its rows; a
      1-D array is a list.
    - A Python [int] is a [Z]; [//] and [%] are [Z.div] and [Z.modulo]
      (both floor, as in Python) with the zero divisor made explicit.
    - A method that can raise returns a [result]; the exception classes are
      the ones the interpreter and NumPy raise.
    - Python objects are mutable: a method that assigns to [self] returns
      the new object state, also when it raises half way.
    - The files that [save] writes and [load] reads are a finite map from
      paths to pickled dicts; a [save] is a write that succeeds (a failing
      [open] or [pickle.dump] is outside the model). *)

From Stdlib Require Import ZArith QArith Qround Qminmax Qabs Lia Psatz Bool String Qpower.
From Stdlib Require Import Reals Qreals.
From stdpp Require Import base list strings gmap.

Local Open Scope Z_scope.

(** ** Python and NumPy primitives *)

Module Py.

(** Exceptions, by class.  A [ValueError] carries its message. *)
Inductive exn : Type :=
| AssertionError
| ZeroDivisionError
| ValueError (msg : string)
| TypeError
| IndexError
| KeyError
| FileNotFoundError
| FloatingPointError.

Inductive result (A : Type) : Type :=
| Ok (a : A)
| Raise (e : exn).
Arguments Ok {A} a.
Arguments Raise {A} e.

#[export] Instance result_ret : MRet result := fun _ a => Ok a.
#[export] Instance result_bind : MBind result := fun _ _ f m =>
  match m with
  | Ok a => f a
  | Raise e => Raise e
  end.

Definition is_ok {A} (r : result A) : bool :=
  match r with Ok _ => true | Raise _ => false end.

(** [mapM] for [result] (left to right, first exception wins). *)
Fixpoint traverse {A B} (f : A -> result B) (l : list A) : result (list B) :=
  match l with
  | [] => Ok []
  | x :: l' => y ← f x; ys ← traverse f l'; Ok (y :: ys)
  end.

(** The messages of the [ValueError]s met in this module. *)
Definition msg_broadcast : string := "operands could not be broadcast together".
Definition msg_empty_reduction : string :=
  "zero-size array to reduction operation which has no identity".
Definition msg_empty_argmin : string := "attempt to get argmin of an empty sequence".
Definition msg_negative_dim : string := "negative dimensions are not allowed".

(** A 2-D array of shape [(length rows, ncols)]. *)
Record ndarray (A : Type) : Type := mk_ndarray {
  ncols : nat;
  rows : list (list A)
}.
Arguments mk_ndarray {A} ncols rows.
Arguments ncols {A} n.
Arguments rows {A} n.

(** Every row has the width the shape records. *)
Definition well_shaped {A} (a : ndarray A) : Prop :=
  Forall (fun r => length r = ncols a) (rows a).

Definition len {A} (a : ndarray A) : nat := length (rows a).

(** [np.zeros((n, d))]; a negative dimension is a [ValueError]. *)
Definition zeros {A} (zero : A) (n : nat) (d : Z) : result (ndarray A) :=
  if d <? 0 then Raise (ValueError msg_negative_dim)
  else Ok (mk_ndarray (Z.to_nat d) (replicate n (replicate (Z.to_nat d) zero))).

(** *** Broadcasting of the last axis *)

Definition broadcast_dim (a b : nat) : result nat :=
  if (a =? b)%nat then Ok a
  else if (a =? 1)%nat then Ok b
  else if (b =? 1)%nat then Ok a
  else Raise (ValueError msg_broadcast).

(** A row of width 1 is repeated; any other row is used as it is. *)
Definition stretch {A} (n : nat) (l : list A) : list A :=
  match l with
  | [x] => replicate n x
  | _ => l
  end.

(** [a op b] for two 1-D arrays. *)
Definition vec_op {A B C} (f : A -> B -> C) (a : list A) (b : list B)
  : result (list C) :=
  d ← broadcast_dim (length a) (length b);
  Ok (zip_with f (stretch d a) (stretch d b)).

(** [m op v] for a 2-D array [m] and a 1-D array [v]. *)
Definition mat_vec_op {A B C} (f : A -> B -> C) (m : ndarray A) (v : list B)
  : result (ndarray C) :=
  d ← broadcast_dim (ncols m) (length v);
  Ok (mk_ndarray d (map (fun r => zip_with f (stretch d r) (stretch d v)) (rows m))).

(** [m op c] for a 2-D array and a scalar. *)
Definition mat_scalar_op {A C} (f : A -> C) (m : ndarray A) : ndarray C :=
  mk_ndarray (ncols m) (map (map f) (rows m)).

(** *** Slicing *)

(** A slice bound [i] on an axis of length [n], as Python normalises it. *)
Definition slice_bound (i : Z) (n : nat) : nat :=
  if i <? 0 then Z.to_nat (Z.max 0 (i + Z.of_nat n))
  else Nat.min (Z.to_nat i) n.

(** [l[start:stop]] *)
Definition slice {A} (start stop : Z) (l : list A) : list A :=
  let lo := slice_bound start (length l) in
  let hi := slice_bound stop (length l) in
  take (hi - lo) (drop lo l).

(** [a[:, start:stop]] *)
Definition slice_cols {A} (start stop : Z) (a : ndarray A) : ndarray A :=
  let lo := slice_bound start (ncols a) in
  let hi := slice_bound stop (ncols a) in
  mk_ndarray (hi - lo) (map (slice start stop) (rows a)).

(** *** Floats and bytes *)

(** The literal [1e-8]. *)
Definition eps : Q := 1 # 100000000.

(** True division of floats.  On a zero divisor NumPy yields [inf] or [nan]
    (with a warning); neither is a rational, so the model stops there. *)
Definition true_divide (a b : Q) : result Q :=
  if Qeq_bool b 0 then Raise FloatingPointError else Ok (a / b)%Q.

(** Integer part, rounding toward zero (the C conversion of a float). *)
Definition Qtrunc (x : Q) : Z :=
  if Qle_bool 0 x then Qfloor x else Qceiling x.

(** [x.astype(np.uint8)] for a float [x], a C conversion: the fraction is
    dropped.  Outside [0, 255] C leaves the result open; the exact
    embedding takes the low 8 bits of the integer, as NumPy's builds for
    x86-64 give, and is used only where the byte is in [0, 255] whatever
    the platform makes of it.  [FloatScalarQuantizer.astype_uint8] leaves
    the platform's conversion a parameter. *)
Definition astype_uint8 (x : Q) : Z := Qtrunc x mod 256.

(** [x.astype(np.uint8)] for an integer (what assigning an [int64] array
    into a [uint8] array does). *)
Definition int_to_uint8 (n : Z) : Z := n mod 256.

(** [a.min(axis=0)] and [a.max(axis=0)] *)
Definition reduce_axis0 (f : Q -> Q -> Q) (a : ndarray Q) : result (list Q) :=
  match rows a with
  | [] => Raise (ValueError msg_empty_reduction)
  | r :: rs => Ok (foldl (zip_with f) r rs)
  end.

(** [np.argmin] of a 1-D array: the first index of the least element. *)
Fixpoint argmin_from (best : Q) (besti : nat) (i : nat) (l : list Q) : nat :=
  match l with
  | [] => besti
  | x :: l' =>
      if Qlt_le_dec x best then argmin_from x i (S i) l'
      else argmin_from best besti (S i) l'
  end.

Definition argmin (l : list Q) : result nat :=
  match l with
  | [] => Raise (ValueError msg_empty_argmin)
  | x :: l' => Ok (argmin_from x 0%nat 1%nat l')
  end.

End Py.
Import Py.

(** ** Pickled model files *)

Module Pickle.

(** The dict that [ProductQuantizer.save] dumps. *)
Record pq_dict : Type := mk_pq_dict {
  d_n_subspaces : Z;
  d_n_centroids : Z;
  d_vector_dim : Z;
  d_codebooks : list (ndarray Q);
  d_is_trained : bool
}.

(** The dict that [ScalarQuantizer.save] dumps. *)
Record sq_dict : Type := mk_sq_dict {
  d_min_val : option (list Q);
  d_max_val : option (list Q);
  d_is_fitted : bool
}.

Inductive obj : Type :=
| PQ (d : pq_dict)
| SQ (d : sq_dict).

(** The files, by path. *)
Abbreviation files := (gmap string obj).

End Pickle.
Import Pickle.

(** ** The scalar quantizer (float to INT8) *)

Module ScalarQuantizer.

Record t : Type := mk {
  min_val : option (list Q);
  max_val : option (list Q);
  is_fitted : bool
}.

(** [__init__] *)
Definition init : t := mk None None false.

(** [fit]: [min_val] is assigned before [max_val] is computed. *)
Definition fit (self : t) (vectors : ndarray Q) : t * result unit :=
  match reduce_axis0 Qmin vectors with
  | Raise e => (self, Raise e)
  | Ok lo =>
      match reduce_axis0 Qmax vectors with
      | Raise e => (mk (Some lo) (max_val self) (is_fitted self), Raise e)
      | Ok hi => (mk (Some lo) (Some hi) true, Ok tt)
      end
  end.

Definition msg_not_fitted : string := "Quantizer not fitted".

(** An attribute that is still [None] where an array is needed. *)
Definition attr (o : option (list Q)) : result (list Q) :=
  match o with
  | Some v => Ok v
  | None => Raise TypeError
  end.

(** [self.max_val - self.min_val]; [None - x] is a [TypeError]. *)
Definition range_of (self : t) : result (list Q) :=
  hi ← attr (max_val self);
  lo ← attr (min_val self);
  vec_op Qminus hi lo.

(** True division of a 2-D array by a 1-D array. *)
Definition mat_vec_divide (m : ndarray Q) (v : list Q) : result (ndarray Q) :=
  d ← broadcast_dim (ncols m) (length v);
  rs ← traverse (fun r => traverse (fun p => true_divide p.1 p.2)
                            (zip (stretch d r) (stretch d v))) (rows m);
  Ok (mk_ndarray d rs).

(** [quantize] *)
Definition quantize (self : t) (vectors : ndarray Q) : result (ndarray Z) :=
  if negb (is_fitted self) then Raise (ValueError msg_not_fitted)
  else
    lo ← attr (min_val self);
    num ← mat_vec_op Qminus vectors lo;
    rng ← range_of self;
    let den := map (fun x => x + eps)%Q rng in
    normalized ← mat_vec_divide num den;
    Ok (mat_scalar_op (fun x => astype_uint8 (x * 255)%Q) normalized).

(** [dequantize] *)
Definition dequantize (self : t) (quantized : ndarray Z) : result (ndarray Q) :=
  let normalized := mat_scalar_op (fun c => inject_Z c / 255)%Q quantized in
  rng ← range_of self;
  scaled ← mat_vec_op Qmult normalized rng;
  lo ← attr (min_val self);
  mat_vec_op Qplus scaled lo.

(** [save]: the files after a [pickle.dump(data, f)] that succeeded. *)
Definition save (self : t) (path : string) (fs : files) : files :=
  <[path := SQ (mk_sq_dict (min_val self) (max_val self) (is_fitted self))]> fs.

(** [load]: a dict without the key ["min_val"] is a [KeyError]. *)
Definition load (self : t) (path : string) (fs : files) : result t :=
  match fs !! path with
  | None => Raise FileNotFoundError
  | Some (PQ _) => Raise KeyError
  | Some (SQ data) => Ok (mk (d_min_val data) (d_max_val data) (d_is_fitted data))
  end.

End ScalarQuantizer.

(** ** The product quantizer *)

Module ProductQuantizer.

Record t : Type := mk {
  n_subspaces : Z;
  n_centroids : Z;
  vector_dim : Z;
  subvector_dim : Z;
  codebooks : list (ndarray Q);
  is_trained : bool
}.

(** [__init__]: the [assert] evaluates [vector_dim % n_subspaces] first. *)
Definition init (n_subspaces n_centroids vector_dim : Z) : result t :=
  if n_subspaces =? 0 then Raise ZeroDivisionError
  else if negb (vector_dim mod n_subspaces =? 0) then Raise AssertionError
  else Ok (mk n_subspaces n_centroids vector_dim (vector_dim / n_subspaces) [] false).

(** [ProductQuantizer()], with the default arguments. *)
Definition init_default : result t := init 8 256 1024.

(** [range(n)] *)
Definition range (n : Z) : list Z := map Z.of_nat (seq 0 (Z.to_nat n)).

(** [a[idx]] for a list of row indices (negative ones count from the end). *)
Definition row_at {A} (a : ndarray A) (i : Z) : result (list A) :=
  let j := if i <? 0 then i + Z.of_nat (len a) else i in
  if j <? 0 then Raise IndexError
  else match rows a !! Z.to_nat j with
       | Some r => Ok r
       | None => Raise IndexError
       end.

Definition index_rows {A} (a : ndarray A) (idx : list Z) : result (ndarray A) :=
  rs ← traverse (row_at a) idx;
  Ok (mk_ndarray (ncols a) rs).

Section Training.

(** The state of NumPy's global random generator. *)
Variable rng : Type.

(** [np.random.choice(n, size, replace=False)], drawing from the global
    generator and advancing it. *)
Variable choice : rng -> nat -> Z -> result (list Z) * rng.

(** [MiniBatchKMeans(n_clusters=k, batch_size=1000, max_iter=50,
    verbose=0, random_state=42).fit(x).cluster_centers_]: with the seed
    fixed, a function of [k] and [x]. *)
Variable kmeans_fit : Z -> ndarray Q -> result (ndarray Q).

(** The loop of [train]: one codebook appended per subspace, until the
    clustering raises. *)
Fixpoint train_loop (self : t) (vectors : ndarray Q) (ms : list Z)
    : t * result unit :=
  match ms with
  | [] => (self, Ok tt)
  | m :: ms' =>
      let start := m * subvector_dim self in
      let stop := start + subvector_dim self in
      let subvectors := slice_cols start stop vectors in
      match kmeans_fit (n_centroids self) subvectors with
      | Raise e => (self, Raise e)
      | Ok centers =>
          train_loop
            (mk (n_subspaces self) (n_centroids self) (vector_dim self)
                (subvector_dim self) (codebooks self ++ [centers])
                (is_trained self))
            vectors ms'
      end
  end.

(** The sampling step of [train]. *)
Definition sample (g : rng) (vectors : ndarray Q) (n_samples : Z)
    : result (ndarray Q) * rng :=
  if n_samples <? Z.of_nat (len vectors) then
    let '(r, g') := choice g (len vectors) n_samples in
    (idx ← r; index_rows vectors idx, g')
  else (Ok vectors, g).

(** [train] *)
Definition train (g : rng) (self : t) (vectors : ndarray Q) (n_samples : Z)
    : t * rng * result unit :=
  let '(sampled, g') := sample g vectors n_samples in
  match sampled with
  | Raise e => (self, g', Raise e)
  | Ok vs =>
      match train_loop self vs (range (n_subspaces self)) with
      | (self', Raise e) => (self', g', Raise e)
      | (self', Ok _) =>
          (mk (n_subspaces self') (n_centroids self') (vector_dim self')
              (subvector_dim self') (codebooks self') true, g', Ok tt)
      end
  end.

End Training.

Definition msg_not_trained : string := "PQ is not trained yet".

(** Sum of the squares of a row. *)
Definition sqnorm (l : list Q) : Q := foldr (fun x acc => x * x + acc)%Q 0%Q l.

(** [np.linalg.norm(subvectors[:, None, :] - codebook[None, :, :], axis=2)],
    kept squared: the norm is the square root of [sqnorm], the square root
    is strictly increasing, and the distances are only compared. *)
Definition sq_distances (subvectors codebook : ndarray Q) : result (ndarray Q) :=
  d ← broadcast_dim (ncols subvectors) (ncols codebook);
  Ok (mk_ndarray (len codebook)
        (map (fun s => map (fun c => sqnorm (zip_with Qminus (stretch d s) (stretch d c)))
                           (rows codebook))
             (rows subvectors))).

(** [np.argmin(distances, axis=1)] *)
Definition argmin_axis1 (distances : ndarray Q) : result (list nat) :=
  if (ncols distances =? 0)%nat then Raise (ValueError msg_empty_argmin)
  else traverse argmin (rows distances).

(** [codes[:, m] = values], into a [uint8] array. *)
Definition set_col (m : nat) (values : list Z) (codes : ndarray Z) : result (ndarray Z) :=
  if (m <? ncols codes)%nat then
    Ok (mk_ndarray (ncols codes)
          (zip_with (fun row v => <[m := int_to_uint8 v]> row) (rows codes) values))
  else Raise IndexError.

(** The loop of [encode] over [enumerate(self.codebooks)]. *)
Fixpoint encode_loop (self : t) (vectors : ndarray Q) (m : nat)
    (cbs : list (ndarray Q)) (codes : ndarray Z) : result (ndarray Z) :=
  match cbs with
  | [] => Ok codes
  | codebook :: cbs' =>
      let start := Z.of_nat m * subvector_dim self in
      let stop := start + subvector_dim self in
      let subvectors := slice_cols start stop vectors in
      distances ← sq_distances subvectors codebook;
      nearest ← argmin_axis1 distances;
      codes' ← set_col m (map Z.of_nat nearest) codes;
      encode_loop self vectors (S m) cbs' codes'
  end.

(** [encode] *)
Definition encode (self : t) (vectors : ndarray Q) : result (ndarray Z) :=
  if negb (is_trained self) then Raise (ValueError msg_not_trained)
  else
    codes ← zeros 0 (len vectors) (n_subspaces self);
    encode_loop self vectors 0 (codebooks self) codes.

(** [codes[:, m]] *)
Definition get_col (m : nat) (codes : ndarray Z) : result (list Z) :=
  if (m <? ncols codes)%nat then Ok (map (fun row => default 0 (row !! m)) (rows codes))
  else Raise IndexError.

(** [reconstructed[:, start:stop] = values]: [values] has one row per row
    of [reconstructed]; its width is the slice's or 1. *)
Definition assign_cols (start stop : Z) (values : ndarray Q) (a : ndarray Q)
    : result (ndarray Q) :=
  let lo := slice_bound start (ncols a) in
  let hi := slice_bound stop (ncols a) in
  let w := (hi - lo)%nat in
  if ((ncols values =? w) || (ncols values =? 1))%nat then
    Ok (mk_ndarray (ncols a)
          (zip_with (fun row v => take lo row ++ take w (stretch w v) ++ drop (lo + w) row)
                    (rows a) (rows values)))
  else Raise (ValueError msg_broadcast).

(** The loop of [decode] over [enumerate(self.codebooks)]. *)
Fixpoint decode_loop (self : t) (codes : ndarray Z) (m : nat)
    (cbs : list (ndarray Q)) (reconstructed : ndarray Q) : result (ndarray Q) :=
  match cbs with
  | [] => Ok reconstructed
  | codebook :: cbs' =>
      let start := Z.of_nat m * subvector_dim self in
      let stop := start + subvector_dim self in
      col ← get_col m codes;
      picked ← index_rows codebook col;
      reconstructed' ← assign_cols start stop picked reconstructed;
      decode_loop self codes (S m) cbs' reconstructed'
  end.

(** [decode] *)
Definition decode (self : t) (codes : ndarray Z) : result (ndarray Q) :=
  reconstructed ← zeros 0%Q (len codes) (vector_dim self);
  decode_loop self codes 0 (codebooks self) reconstructed.

(** The dict that [save] builds from [self]. *)
Definition to_dict (self : t) : pq_dict :=
  mk_pq_dict (n_subspaces self) (n_centroids self) (vector_dim self)
             (codebooks self) (is_trained self).

(** The five assignments of [load]; [subvector_dim] is not among them. *)
Definition from_dict (self : t) (data : pq_dict) : t :=
  mk (d_n_subspaces data) (d_n_centroids data) (d_vector_dim data)
     (subvector_dim self) (d_codebooks data) (d_is_trained data).

(** [save]: the files after a [pickle.dump(data, f)] that succeeded. *)
Definition save (self : t) (path : string) (fs : files) : files :=
  <[path := PQ (to_dict self)]> fs.

(** [load]: a dict without the key ["n_subspaces"] is a [KeyError]. *)
Definition load (self : t) (path : string) (fs : files) : result t :=
  match fs !! path with
  | None => Raise FileNotFoundError
  | Some (SQ _) => Raise KeyError
  | Some (PQ data) => Ok (from_dict self data)
  end.

End ProductQuantizer.

(** ** Element-wise reading of the scalar quantizer *)

Module ScalarSpec.

(** The byte of one element. *)
Definition quantize_elem (lo hi v : Q) : Z :=
  astype_uint8 ((v - lo) / (hi - lo + eps) * 255).

Definition quantize_row (lo hi r : list Q) : list Z :=
  zip_with (fun v p => quantize_elem p.1 p.2 v) r (zip lo hi).

(** The element map as the specification words it: normalise, scale by
    255, round to the nearest integer, saturate into [0, 255]. *)
Definition spec_quantize_elem (lo hi v : Q) : Z :=
  Z.max 0 (Z.min 255 (Qfloor ((v - lo) / (hi - lo + eps) * 255 + (1 # 2)))).

End ScalarSpec.

(** ** Reading of the product quantizer *)

Module ProductSpec.
Import ProductQuantizer.

(** Squared distances from one subvector to every centroid of a codebook. *)
Definition row_distances (cb : ndarray Q) (s : list Q) : list Q :=
  map (fun c => sqnorm (zip_with Qminus s c)) (rows cb).

(** The slice of subspace [m]: [start] and [end] in [encode] and [decode]. *)
Definition start_of (self : t) (m : nat) : Z := Z.of_nat m * subvector_dim self.
Definition stop_of (self : t) (m : nat) : Z := start_of self m + subvector_dim self.

(** The Euclidean distance between two rows, [np.linalg.norm(a - b)]. *)
Definition euclidean (a b : list Q) : R := sqrt (Q2R (sqnorm (zip_with Qminus a b))).

(** A quantizer as [__init__] followed by a successful [train] leaves it. *)
Record Trained (pq : t) : Prop := mk_Trained {
  trained_flag : is_trained pq = true;
  trained_subspaces : 0 < n_subspaces pq;
  trained_centroids : 0 < n_centroids pq;
  trained_width : 0 <= subvector_dim pq;
  trained_dim : vector_dim pq = n_subspaces pq * subvector_dim pq;
  trained_count : Z.of_nat (length (codebooks pq)) = n_subspaces pq;
  trained_books :
    Forall (fun cb => well_shaped cb /\
                      Z.of_nat (ncols cb) = subvector_dim pq /\
                      Z.of_nat (len cb) = n_centroids pq)
           (codebooks pq)
}.

(** *** The clustering library, seen from [train] *)

Section Clustering.

Variable kmeans_fit : Z -> ndarray Q -> result (ndarray Q).

(** What the clustering library promises of a successful fit: one centre
    per cluster, each as wide as the samples. *)
Definition kmeans_contract : Prop :=
  forall k x c, well_shaped x -> kmeans_fit k x = Ok c ->
    well_shaped c /\ ncols c = ncols x /\ Z.of_nat (len c) = k /\ 0 < k.

(** The clustering library rejects an empty sample set. *)
Definition kmeans_rejects_empty : Prop :=
  forall k x, rows x = [] -> is_ok (kmeans_fit k x) = false.

(** The clustering calls of one [train] run on the sampled rows [vs]. *)
Definition fit_subspace (self : t) (vs : ndarray Q) (m : Z) : result (ndarray Q) :=
  kmeans_fit (n_centroids self)
    (slice_cols (m * subvector_dim self) (m * subvector_dim self + subvector_dim self) vs).

End Clustering.

End ProductSpec.

(** ** Concrete quantizers used to exercise the statements *)

Module Examples.

(** A quantizer fitted on the two rows [[0]] and [[1]]. *)
Definition d01 : ndarray Q := mk_ndarray 1 [[0%Q]; [1%Q]].
Definition sq01 : ScalarQuantizer.t := (ScalarQuantizer.fit ScalarQuantizer.init d01).1.

(** A quantizer fitted on the two rows [[0]] and [[0.01]]. *)
Definition d_small : ndarray Q := mk_ndarray 1 [[0%Q]; [1 # 100]].
Definition sq_small : ScalarQuantizer.t :=
  (ScalarQuantizer.fit ScalarQuantizer.init d_small).1.

(** A data set whose second dimension is constant. *)
Definition d_const : ndarray Q := mk_ndarray 2 [[0; 5]; [1; 5]]%Q.
Definition sq_const : ScalarQuantizer.t := (ScalarQuantizer.fit ScalarQuantizer.init d_const).1.

(** Stand-ins for the two libraries [train] calls, for concrete runs. *)

Definition msg_kmeans : string := "n_samples should be >= n_clusters".

(** Clustering: the first [k] samples as centres.  It rejects what the
    library rejects: no cluster, or fewer samples than clusters. *)
Definition first_rows_kmeans (k : Z) (x : ndarray Q) : result (ndarray Q) :=
  if (k <=? 0) || (Z.of_nat (len x) <? k) then Raise (ValueError msg_kmeans)
  else Ok (mk_ndarray (ncols x) (take (Z.to_nat k) (rows x))).

(** A generator whose state is the list of the indices it draws next. *)
Definition scripted_choice (g : list Z) (n : nat) (size : Z)
    : result (list Z) * list Z :=
  if size <? 0 then (Raise (ValueError msg_negative_dim), g)
  else (Ok (take (Z.to_nat size) g), drop (Z.to_nat size) g).

Definition run_train :=
  ProductQuantizer.train (list Z) scripted_choice first_rows_kmeans.

(** [ProductQuantizer(2, 2, 4)] trained on two rows. *)
Definition data42 : ndarray Q := mk_ndarray 4 [[0; 0; 0; 0]; [1; 1; 1; 1]]%Q.
Definition pq42_fresh : ProductQuantizer.t := ProductQuantizer.mk 2 2 4 2 [] false.
Definition pq42 : ProductQuantizer.t := (run_train [] pq42_fresh data42 50000).1.1.

(** Two vectors of the model's width, one too wide, one too narrow. *)
Definition vectors42 : ndarray Q := mk_ndarray 4 [[1; 1; 0; 0]; [0; 0; 1; 1]]%Q.
Definition wide42 : ndarray Q := mk_ndarray 6 [[1; 1; 0; 0; 9; 9]]%Q.
Definition narrow42 : ndarray Q := mk_ndarray 3 [[1; 1; 0]]%Q.

(** [ProductQuantizer(1, 257, 1)] trained on the rows [[0]] ... [[256]]. *)
Definition data257 : ndarray Q :=
  mk_ndarray 1 (map (fun j => [inject_Z (Z.of_nat j)]) (seq 0 257)).
Definition pq257_fresh : ProductQuantizer.t := ProductQuantizer.mk 1 257 1 1 [] false.
Definition pq257 : ProductQuantizer.t := (run_train [] pq257_fresh data257 50000).1.1.

(** [ProductQuantizer(1, 2, 1)] and four rows, of which two are sampled. *)
Definition data4 : ndarray Q := mk_ndarray 1 [[0]; [1]; [2]; [3]]%Q.
Definition pq12_fresh : ProductQuantizer.t := ProductQuantizer.mk 1 2 1 1 [] false.

End Examples.

(** ** The evaluation metrics *)

Module Metrics.
Import ProductQuantizer.

(** [a op b] for two 2-D arrays, both axes broadcast. *)
Definition mat_mat_op {A B C} (f : A -> B -> C) (a : ndarray A) (b : ndarray B)
  : result (ndarray C) :=
  d ← broadcast_dim (ncols a) (ncols b);
  n ← broadcast_dim (len a) (len b);
  Ok (mk_ndarray d
        (zip_with (fun ra rb => zip_with f (stretch d ra) (stretch d rb))
                  (stretch n (rows a)) (stretch n (rows b)))).

Definition Qsum (l : list Q) : Q := foldr Qplus 0%Q l.
Definition Rsum (l : list R) : R := foldr Rplus 0%R l.

(** [np.mean] of all the entries.  Of no entry at all NumPy yields [nan]
    (with a warning); it is not a number of the model, which stops there. *)
Definition mean (l : list Q) : result Q :=
  match l with
  | [] => Raise FloatingPointError
  | _ => Ok (Qsum l / inject_Z (Z.of_nat (length l)))%Q
  end.

Definition mean_R (l : list R) : result R :=
  match l with
  | [] => Raise FloatingPointError
  | _ => Ok (Rsum l / INR (length l))%R
  end.

(** [np.linalg.norm(a, axis=1, keepdims=True)], of shape (N, 1). *)
Definition norm_rows (a : ndarray Q) : ndarray R :=
  mk_ndarray 1 (map (fun r => [sqrt (Q2R (sqnorm r))]) (rows a)).

(** [a / (np.linalg.norm(a, axis=1, keepdims=True) + 1e-8)]; the divisor
    is positive. *)
Definition unit_rows (a : ndarray Q) : result (ndarray R) :=
  mat_mat_op Rdiv (mat_scalar_op Q2R a)
             (mat_scalar_op (fun x => x + Q2R eps)%R (norm_rows a)).

Record metrics : Type := mk_metrics {
  mse : Q;
  mae : Q;
  cosine_similarity : R
}.

(** [evaluate_compression] *)
Definition evaluate_compression (original reconstructed : ndarray Q) : result metrics :=
  diff ← mat_mat_op Qminus original reconstructed;
  mse ← mean (concat (rows (mat_scalar_op (fun x => x ^ 2)%Q diff)));
  diff' ← mat_mat_op Qminus original reconstructed;
  mae ← mean (concat (rows (mat_scalar_op Qabs diff')));
  uo ← unit_rows original;
  prod ← mat_mat_op Rmult uo (mat_scalar_op Q2R reconstructed);
  quot ← mat_mat_op Rdiv prod
            (mat_scalar_op (fun x => x + Q2R eps)%R (norm_rows reconstructed));
  cosine ← mean_R (map Rsum (rows quot));
  Ok (mk_metrics mse mae cosine).

End Metrics.

(** ** Reading of the evaluation metrics *)

Module MetricsSpec.
Import ProductQuantizer Metrics.

(** The differences of two arrays of one shape, row after row. *)
Definition differences (original reconstructed : ndarray Q) : list Q :=
  concat (zip_with (zip_with Qminus) (rows original) (rows reconstructed)).

(** The contribution of one pair of rows to the cosine similarity. *)
Definition row_cosine (a b : list Q) : R :=
  Rsum (map (fun p => p / (sqrt (Q2R (sqnorm b)) + Q2R eps))%R
            (zip_with Rmult
               (map (fun x => Q2R x / (sqrt (Q2R (sqnorm a)) + Q2R eps))%R a)
               (map Q2R b))).

End MetricsSpec.

(** ** The two scripts *)

(** Each [main] from the array that [np.load] returned to what it leaves
    behind; [joinpath] is the [/] of [pathlib]. *)

Module pq_train.

Section Main.

Variable joinpath : string -> string -> string.
Variable rng : Type.
Variable choice : rng -> nat -> Z -> result (list Z) * rng.
Variable kmeans_fit : Z -> ndarray Q -> result (ndarray Q).

(** [main]: the model files it leaves. *)
Definition main (g : rng) (vectors : ndarray Q) (samples : Z)
    (output_dir : string) (fs : files) : files * rng * result unit :=
  match ProductQuantizer.init_default with
  | Raise e => (fs, g, Raise e)
  | Ok pq0 =>
      match ProductQuantizer.train rng choice kmeans_fit g pq0 vectors samples with
      | (_, g', Raise e) => (fs, g', Raise e)
      | (pq, g', Ok _) =>
          let fs1 := ProductQuantizer.save pq (joinpath output_dir "pq_codebook.pkl") fs in
          match ScalarQuantizer.fit ScalarQuantizer.init vectors with
          | (_, Raise e) => (fs1, g', Raise e)
          | (sq, Ok _) =>
              (ScalarQuantizer.save sq (joinpath output_dir "scalar_quantizer.pkl") fs1,
               g', Ok tt)
          end
      end
  end.

End Main.

End pq_train.

Module compress.

Section Main.

Variable joinpath : string -> string -> string.

(** [main]: the two arrays it hands to [np.save], for [pq_codes.npy]
    and [int8_vectors.npy]. *)
Definition main (vectors : ndarray Q) (model_dir : string) (fs : files)
    : result (ndarray Z * ndarray Z) :=
  pq0 ← ProductQuantizer.init_default;
  pq ← ProductQuantizer.load pq0 (joinpath model_dir "pq_codebook.pkl") fs;
  sq ← ScalarQuantizer.load ScalarQuantizer.init
         (joinpath model_dir "scalar_quantizer.pkl") fs;
  pq_codes ← ProductQuantizer.encode pq vectors;
  quantized ← ScalarQuantizer.quantize sq vectors;
  Ok (pq_codes, quantized).

End Main.

End compress.

(** ** Reading of [decode] *)

Module DecodeSpec.
Import ProductQuantizer.

(** The row that [a[c]] reads in an array of [n] rows: a negative index
    counts from the end. *)
Definition wrap_index (c : Z) (n : nat) : nat :=
  Z.to_nat (if c <? 0 then c + Z.of_nat n else c).

(** The codes [decode] can look up: a column per subspace, each entry an
    index into a codebook of [n_centroids] rows, from either end. *)
Definition indexable (pq : t) (codes : ndarray Z) : Prop :=
  n_subspaces pq <= Z.of_nat (ncols codes) /\
  Forall (fun crow =>
            Forall (fun c => - n_centroids pq <= c < n_centroids pq)
                   (take (Z.to_nat (n_subspaces pq)) crow))
         (rows codes).

End DecodeSpec.

(** ** Further inputs for the concrete runs *)

Module Runs.
Import Examples.

(** Codes for the model of two subspaces and two centroids: plain ones,
    ones with negative entries and a third column, ones with an entry
    that names no centroid. *)
Definition codes42 : ndarray Z := mk_ndarray 2 [[1; 0]; [0; 1]].
Definition codes42_signed : ndarray Z := mk_ndarray 3 [[-1; 0; 7]; [1; -2; 7]].
Definition codes42_bad : ndarray Z := mk_ndarray 2 [[1; 0]; [0; 2]].

(** The model of two subspaces after a second [train] on the same rows. *)
Definition pq42_twice : ProductQuantizer.t := (run_train [] pq42 data42 50000).1.1.

(** Bytes and values for the quantizer fitted on [[0]] and [[1]]. *)
Definition bytes01 : ndarray Z := mk_ndarray 1 [[0]; [128]; [255]].
Definition v01 : ndarray Q := mk_ndarray 1 [[0]; [1 # 3]; [1 # 2]; [1]]%Q.

(** Inputs of one and of three columns for a quantizer fitted on two. *)
Definition column3 : ndarray Q := mk_ndarray 1 [[0]; [1]]%Q.
Definition wide3 : ndarray Q := mk_ndarray 3 [[0; 5; 1]]%Q.

(** A reconstruction of [vectors42] that misses its second row. *)
Definition approx42 : ndarray Q := mk_ndarray 4 [[1; 1; 0; 0]; [0; 0; 0; 0]]%Q.

(** A stand-in for the [/] of [pathlib], on a directory written without
    a trailing separator. *)
Definition slash_join (dir name : string) : string := dir +:+ "/" +:+ name.

(** 256 rows of the default width 1024. *)
Definition data1024 : ndarray Q :=
  mk_ndarray 1024 (map (fun j => replicate 1024 (inject_Z (Z.of_nat j))) (seq 0 256)).

End Runs.

(** ** Float arithmetic *)

(** The arrays hold floats of one format; every operation on them is the
    exact operation followed by the rounding [fl] of that format.  The
    finite values are rationals; overflow to an infinity is outside the
    model. *)

Module Float.

(** What the formats of IEEE 754 share, rounding to nearest: [u] is the
    unit roundoff, [eta] bounds the error of a result that underflows.
    [Binary32.round] obeys these laws ([Binary32Facts.binary32_ieee]). *)
Record ieee (fl : Q -> Q) (u eta : Q) : Prop := mk_ieee {
  fl_proper : forall x y, (x == y)%Q -> (fl x == fl y)%Q;
  fl_mono : forall x y, (x <= y)%Q -> (fl x <= fl y)%Q;
  fl_idem : forall x, (fl (fl x) == fl x)%Q;
  fl_byte : forall n, 0 <= n <= 255 -> (fl (inject_Z n) == inject_Z n)%Q;
  fl_error : forall x, (Qabs (fl x - x) <= u * Qabs x + eta)%Q;
  fl_unit : (0 <= u)%Q /\ (u <= 1 # 1000)%Q;
  fl_under : (0 <= eta)%Q /\ (eta <= 1 # 1000000000)%Q
}.

End Float.

(** *** The format binary32 *)

Module Binary32.

(** [2 ^ e] for an integer [e]. *)
Definition pow2 (e : Z) : Q := (2 ^ e)%Q.

(** The exponent of a positive [x]: the [k] with [2 ^ k <= x < 2 ^ (k + 1)]. *)
Definition ilog2 (x : Q) : Z :=
  let n := Qnum x in
  let d := Zpos (Qden x) in
  let k := Z.log2 n - Z.log2 d in
  if n * 2 ^ Z.max 0 (- k) <? d * 2 ^ Z.max 0 k then k - 1 else k.

(** The nearest integer, the even one of two equally near. *)
Definition nearest_even (x : Q) : Z :=
  let f := Qfloor x in
  match (x - inject_Z f ?= 1 # 2)%Q with
  | Lt => f
  | Gt => f + 1
  | Eq => if Z.even f then f else f + 1
  end.

(** Precision 24, least normal exponent -126. *)
Definition prec : Z := 24.
Definition emin : Z := -126.

(** The exponent of the last place of the floats around a positive [x]. *)
Definition ulp_exp (x : Q) : Z := Z.max (ilog2 x) emin - (prec - 1).

(** Rounding of a positive number to the nearest float. *)
Definition round_pos (x : Q) : Q :=
  let e := ulp_exp x in
  (inject_Z (nearest_even (x / pow2 e)) * pow2 e)%Q.

(** Rounding to the nearest float: of the magnitude, the sign kept. *)
Definition round (x : Q) : Q :=
  let x := Qred x in
  if Qeq_bool x 0 then 0%Q
  else if Qle_bool 0 x then Qred (round_pos x)
  else Qred (- round_pos (- x)).

(** Unit roundoff and the error of a result that underflows. *)
Definition unit_roundoff : Q := pow2 (- prec).
Definition underflow : Q := pow2 (emin - prec).

(** The square root, rounded to the nearest float; of a negative number
    it is [nan], which the model has not. *)
Definition sqrt (x : Q) : Q :=
  let x := Qred x in
  if Qle_bool x 0 then 0%Q
  else
    let b := ilog2 x / 2 in
    let e := Z.max b emin - (prec - 1) in
    let t := (x / pow2 (2 * e))%Q in
    let f := Z.sqrt (Qfloor t) in
    let m := match (t ?= inject_Z (f * f + f) + (1 # 4))%Q with
             | Lt => f
             | Gt => f + 1
             | Eq => if Z.even f then f else f + 1
             end in
    Qred (inject_Z m * pow2 e).

(** [np.add.reduce] of a row: for rows of fewer than eight entries NumPy
    adds from left to right. *)
Definition sum (l : list Q) : Q :=
  match l with
  | [] => 0%Q
  | x :: l' => foldl (fun acc y => round (acc + y)) x l'
  end.

(** Two conversions of a float outside [0, 255] to [uint8], which C
    leaves undefined: the low eight bits of the integer part, as the
    conversion through a 32-bit integer on x86-64 gives, and a conversion
    that saturates. *)
Definition cast_low_bits (x : Q) : Z := Qtrunc x mod 256.
Definition cast_saturating (x : Q) : Z := Z.max 0 (Z.min 255 (Qtrunc x)).

End Binary32.

(** ** The scalar quantizer, with the rounding of the floats *)

Module FloatScalarQuantizer.
Import ScalarQuantizer.

Section Format.

(** The rounding of the arrays' float format. *)
Variable fl : Q -> Q.

(** The rounding of [np.float32], the format [dequantize] converts the
    bytes to (the arrays' own format when they hold [float32]). *)
Variable fl32 : Q -> Q.

(** The platform's conversion to [uint8] of a float outside [0, 255]. *)
Variable cast_out : Q -> Z.

(** [x.astype(np.uint8)]: the fraction is dropped; what becomes of a
    value outside [0, 255] is the platform's business. *)
Definition astype_uint8 (x : Q) : Z :=
  let z := Qtrunc x in
  if (0 <=? z) && (z <=? 255) then z else cast_out x.

(** [self.max_val - self.min_val] *)
Definition range_of (self : t) : result (list Q) :=
  hi ← attr (max_val self);
  lo ← attr (min_val self);
  vec_op (fun a b => fl (a - b)) hi lo.

(** True division of a 2-D array by a 1-D array. *)
Definition mat_vec_divide (m : ndarray Q) (v : list Q) : result (ndarray Q) :=
  d ← broadcast_dim (ncols m) (length v);
  rs ← traverse (fun r => traverse (fun p => q ← true_divide p.1 p.2; Ok (fl q))
                            (zip (stretch d r) (stretch d v))) (rows m);
  Ok (mk_ndarray d rs).

(** [quantize]; the literal [1e-8] is rounded to the format before it is
    added. *)
Definition quantize (self : t) (vectors : ndarray Q) : result (ndarray Z) :=
  if negb (is_fitted self) then Raise (ValueError msg_not_fitted)
  else
    lo ← attr (min_val self);
    num ← mat_vec_op (fun a b => fl (a - b)) vectors lo;
    rng ← range_of self;
    let den := map (fun x => fl (x + fl eps)) rng in
    normalized ← mat_vec_divide num den;
    Ok (mat_scalar_op (fun x => astype_uint8 (fl (x * 255))) normalized).

(** [dequantize]: the bytes become [float32], and so does their
    quotient by 255. *)
Definition dequantize (self : t) (quantized : ndarray Z) : result (ndarray Q) :=
  let normalized := mat_scalar_op (fun c => fl32 (fl32 (inject_Z c) / 255)) quantized in
  rng ← range_of self;
  scaled ← mat_vec_op (fun a b => fl (a * b)) normalized rng;
  lo ← attr (min_val self);
  mat_vec_op (fun a b => fl (a + b)) scaled lo.

(** The value of one element on its way through [quantize], and the
    value a byte decodes to. *)
Definition scaled (lo hi v : Q) : Q :=
  fl (fl (fl (v - lo) / fl (fl (hi - lo) + fl eps)) * 255).
Definition quantize_elem (lo hi v : Q) : Z := astype_uint8 (scaled lo hi v).
Definition dequantize_elem (lo hi : Q) (c : Z) : Q :=
  fl (fl (fl32 (fl32 (inject_Z c) / 255) * fl (hi - lo)) + lo).

Definition quantize_row (lo hi r : list Q) : list Z :=
  zip_with (fun v p => quantize_elem p.1 p.2 v) r (zip lo hi).
Definition dequantize_row (lo hi : list Q) (r : list Z) : list Q :=
  zip_with (fun c p => dequantize_elem p.1 p.2 c) r (zip lo hi).

End Format.

(** A bound on what the roundings between [v] and
    [dequantize (quantize v)] add up to, for a format of unit roundoff
    [u] whose underflowing results are off by at most [eta]. *)
Definition slack (u eta lo hi : Q) : Q :=
  10 * u * (hi - lo + eps + Qabs lo) + 10 * eta * (1 + (hi - lo)).

End FloatScalarQuantizer.

(** ** The product quantizer, with the rounding of the floats *)

Module FloatProductQuantizer.
Import ProductQuantizer.

Section Format.

(** The rounding of [np.float32], the format [encode] converts its input
    to. *)
Variable fl32 : Q -> Q.

(** The rounding of the format the distances are computed in ([float32]
    when the codebooks hold [float32]), the sum [np.add.reduce] of a row
    (NumPy chooses the order of the additions) and the rounded square
    root. *)
Variable fl : Q -> Q.
Variable fsum : list Q -> Q.
Variable fsqrt : Q -> Q.

(** [np.linalg.norm(s - c)] of two rows:
    [sqrt(add.reduce((s - c) * (s - c)))]. *)
Definition norm_diff (s c : list Q) : Q :=
  fsqrt (fsum (map (fun d => fl (d * d)) (zip_with (fun a b => fl (a - b)) s c))).

(** [np.linalg.norm(subvectors[:, None, :] - codebook[None, :, :], axis=2)] *)
Definition distances (subvectors codebook : ndarray Q) : result (ndarray Q) :=
  d ← broadcast_dim (ncols subvectors) (ncols codebook);
  Ok (mk_ndarray (len codebook)
        (map (fun s => map (fun c => norm_diff (stretch d s) (stretch d c))
                           (rows codebook))
             (rows subvectors))).

(** The loop of [encode] over [enumerate(self.codebooks)]. *)
Fixpoint encode_loop (self : t) (vectors : ndarray Q) (m : nat)
    (cbs : list (ndarray Q)) (codes : ndarray Z) : result (ndarray Z) :=
  match cbs with
  | [] => Ok codes
  | codebook :: cbs' =>
      let start := Z.of_nat m * subvector_dim self in
      let stop := start + subvector_dim self in
      let subvectors := slice_cols start stop vectors in
      dist ← distances subvectors codebook;
      nearest ← argmin_axis1 dist;
      codes' ← set_col m (map Z.of_nat nearest) codes;
      encode_loop self vectors (S m) cbs' codes'
  end.

(** [encode] *)
Definition encode (self : t) (vectors : ndarray Q) : result (ndarray Z) :=
  if negb (is_trained self) then Raise (ValueError msg_not_trained)
  else
    let vectors := mat_scalar_op fl32 vectors in
    codes ← zeros 0 (len vectors) (n_subspaces self);
    encode_loop self vectors 0 (codebooks self) codes.

(** The computed distances from one subvector to every centroid. *)
Definition row_distances (cb : ndarray Q) (s : list Q) : list Q :=
  map (fun c => norm_diff s c) (rows cb).

(** The centroids of a codebook as the computed distances tell them
    apart: a centroid, converted to [float32], is at computed distance
    zero from itself and at a positive computed distance from every
    other centroid. *)
Definition told_apart (cb : ndarray Q) : Prop :=
  forall j k cj ck, rows cb !! j = Some cj -> rows cb !! k = Some ck ->
    (j = k -> (norm_diff (map fl32 cj) ck == 0)%Q) /\
    (j <> k -> (0 < norm_diff (map fl32 cj) ck)%Q).

End Format.

End FloatProductQuantizer.

(** ** Inputs for the runs in binary32 *)

Module FloatRuns.
Import Examples.

(** [ProductQuantizer(1, 2, 2)] trained on two rows that differ by
    [2^-13] in their second column. *)
Definition data_tie : ndarray Q := mk_ndarray 2 [[1; 1 # 8192]; [1; 0]]%Q.
Definition pq_tie_fresh : ProductQuantizer.t := ProductQuantizer.mk 1 2 2 2 [] false.
Definition pq_tie : ProductQuantizer.t := (run_train [] pq_tie_fresh data_tie 50000).1.1.
Definition origin2 : ndarray Q := mk_ndarray 2 [[0; 0]]%Q.

(** The vector [[256]], for the model of 257 centroids. *)
Definition v256 : ndarray Q := mk_ndarray 1 [[256%Q]].

(** The binary32 numbers next to 0.999, 0.01 and 0.00996079. *)
Definition near_one : Q := Eval vm_compute in Binary32.round (999 # 1000).
Definition hi_small : Q := Eval vm_compute in Binary32.round (1 # 100).
Definition v_small : Q := Eval vm_compute in Binary32.round (996079 # 100000000).

(** A quantizer fitted on the two rows [[0]] and [[hi_small]], and an
    input for it. *)
Definition d_small32 : ndarray Q := mk_ndarray 1 [[0%Q]; [hi_small]].
Definition sq_small32 : ScalarQuantizer.t :=
  (ScalarQuantizer.fit ScalarQuantizer.init d_small32).1.
Definition vs_small : ndarray Q := mk_ndarray 1 [[v_small]].

End FloatRuns.

(** * Properties *)

(** ** Lemmas on the primitives *)

Section PrimitiveLemmas.

Context {A B C : Type}.

Lemma traverse_ok (f : A -> result B) (g : A -> B) (l : list A) :
  Forall (fun x => f x = Ok (g x)) l -> traverse f l = Ok (map g l).
Proof.
  induction 1 as [|x l Hx _ IH]; simpl; [done|].
  by rewrite Hx, IH.
Qed.

Lemma traverse_length (f : A -> result B) (l : list A) (k : list B) :
  traverse f l = Ok k -> length k = length l.
Proof.
  revert k. induction l as [|x l IH]; intros k; simpl.
  - by intros [= <-].
  - destruct (f x) as [y|]; [|done]. simpl.
    destruct (traverse f l) as [ys|]; [|done]. simpl.
    intros [= <-]. simpl. by rewrite (IH ys).
Qed.

Lemma traverse_lookup (f : A -> result B) (l : list A) (k : list B) i x :
  traverse f l = Ok k -> l !! i = Some x ->
  exists y, k !! i = Some y /\ f x = Ok y.
Proof.
  revert k i. induction l as [|x' l IH]; intros k i; simpl; [done|].
  destruct (f x') as [y|] eqn:Hy; [|done]. simpl.
  destruct (traverse f l) as [ys|]; [|done]. simpl.
  intros [= <-]. destruct i as [|i]; simpl.
  - intros [= ->]. eauto.
  - intros Hi. by apply IH.
Qed.

Lemma stretch_id {T} n (l : list T) : length l = n -> stretch n l = l.
Proof. destruct l as [|x [|y l]]; simpl; try done. by intros <-. Qed.

Lemma broadcast_dim_same n : broadcast_dim n n = Ok n.
Proof. unfold broadcast_dim. by rewrite Nat.eqb_refl. Qed.

Lemma vec_op_same (f : A -> B -> C) (a : list A) (b : list B) :
  length a = length b -> vec_op f a b = Ok (zip_with f a b).
Proof.
  intros H. unfold vec_op. rewrite H, broadcast_dim_same. simpl.
  by rewrite !stretch_id by done.
Qed.

Lemma mat_vec_op_same (f : A -> B -> C) (m : ndarray A) (v : list B) :
  well_shaped m -> ncols m = length v ->
  mat_vec_op f m v = Ok (mk_ndarray (ncols m) (map (fun r => zip_with f r v) (rows m))).
Proof.
  intros Hm Hv. unfold mat_vec_op. rewrite <- Hv, broadcast_dim_same. simpl.
  do 2 f_equal. apply map_ext_Forall. eapply Forall_impl; [exact Hm|].
  intros r Hr. simpl in Hr. by rewrite !stretch_id by congruence.
Qed.

End PrimitiveLemmas.

(** A concrete array is well shaped by inspection of its rows. *)
Ltac inspect_shape := unfold well_shaped; simpl; repeat constructor.

(** ** The scalar quantizer *)

Module ScalarFacts.
Import ScalarQuantizer ScalarSpec Examples.

Lemma astype_uint8_range x : 0 <= astype_uint8 x < 256.
Proof. unfold astype_uint8. apply Z.mod_pos_bound. lia. Qed.

Lemma Qtrunc_nonneg x : (0 <= x)%Q -> Qtrunc x = Qfloor x.
Proof.
  intros H. unfold Qtrunc. destruct (Qle_bool 0 x) eqn:E; [done|].
  apply Qle_bool_iff in H. congruence.
Qed.

Lemma Qfloor_bounds (x : Q) (n : Z) :
  (0 <= x)%Q -> (x < inject_Z n)%Q -> 0 <= Qfloor x < n.
Proof.
  intros H0 H1. split.
  - change 0 with (Qfloor 0). by apply Qfloor_resp_le.
  - pose proof (Qfloor_le x) as Hf.
    assert (inject_Z (Qfloor x) < inject_Z n)%Q as Hlt by (eapply Qle_lt_trans; eauto).
    by rewrite <- Zlt_Qlt in Hlt.
Qed.

Lemma astype_uint8_small x :
  (0 <= x)%Q -> (x < 256)%Q -> astype_uint8 x = Qfloor x.
Proof.
  intros H0 H1. unfold astype_uint8. rewrite Qtrunc_nonneg by done.
  apply Z.mod_small. by apply (Qfloor_bounds x 256).
Qed.

(** The scaled value [255 * (v - lo) / (hi - lo + eps)] of an in-range
    element. *)
Lemma scaled_bounds (lo hi v : Q) :
  (lo <= v)%Q -> (v <= hi)%Q ->
  (0 <= (v - lo) / (hi - lo + eps) * 255 < 255)%Q.
Proof.
  intros Hl Hh.
  assert (0 < hi - lo + eps)%Q as Hden by (unfold eps; lra).
  set (den := (hi - lo + eps)%Q) in *.
  assert ((v - lo) / den * 255 == 255 * (v - lo) / den)%Q as -> by (field; lra).
  split.
  - apply Qle_shift_div_l; [done|]. lra.
  - apply Qlt_shift_div_r; [done|]. unfold den, eps. lra.
Qed.

Lemma Forall2_Qle_trans (a b c : list Q) :
  Forall2 Qle a b -> Forall2 Qle b c -> Forall2 Qle a c.
Proof. apply Forall2_trans. intros x y z. apply Qle_trans. Qed.

Lemma zip_with_min_le (a b : list Q) :
  length a = length b ->
  Forall2 Qle (zip_with Qmin a b) a /\ Forall2 Qle (zip_with Qmin a b) b.
Proof.
  revert b. induction a as [|x a IH]; intros [|y b]; simpl; try done.
  intros [= H]. destruct (IH b H) as [IH1 IH2]. split; constructor; try done.
  - apply Q.le_min_l.
  - apply Q.le_min_r.
Qed.

Lemma zip_with_max_ge (a b : list Q) :
  length a = length b ->
  Forall2 Qle a (zip_with Qmax a b) /\ Forall2 Qle b (zip_with Qmax a b).
Proof.
  revert b. induction a as [|x a IH]; intros [|y b]; simpl; try done.
  intros [= H]. destruct (IH b H) as [IH1 IH2]. split; constructor; try done.
  - apply Q.le_max_l.
  - apply Q.le_max_r.
Qed.

Lemma Forall2_Qle_refl (a : list Q) : Forall2 Qle a a.
Proof. induction a; constructor; [apply Qle_refl|done]. Qed.

(** The column-wise minimum is below every row. *)
Lemma fold_min_below (rs : list (list Q)) (r : list Q) :
  Forall (fun r' => length r' = length r) rs ->
  Forall (Forall2 Qle (foldl (zip_with Qmin) r rs)) (r :: rs).
Proof.
  revert r. induction rs as [|r1 rs IH]; intros r Hlen; simpl.
  - constructor; [apply Forall2_Qle_refl|done].
  - apply Forall_cons in Hlen as [H1 Hlen].
    destruct (zip_with_min_le r r1) as [Ha Hb]; [done|].
    assert (length (zip_with Qmin r r1) = length r) as Hl.
    { rewrite length_zip_with. lia. }
    specialize (IH (zip_with Qmin r r1)).
    rewrite Hl in IH. specialize (IH Hlen).
    apply Forall_cons in IH as [I1 I2].
    repeat constructor; try done; by eapply Forall2_Qle_trans.
Qed.

(** The column-wise maximum is above every row. *)
Lemma fold_max_above (rs : list (list Q)) (r : list Q) :
  Forall (fun r' => length r' = length r) rs ->
  Forall (fun r' => Forall2 Qle r' (foldl (zip_with Qmax) r rs)) (r :: rs).
Proof.
  revert r. induction rs as [|r1 rs IH]; intros r Hlen; simpl.
  - constructor; [apply Forall2_Qle_refl|done].
  - apply Forall_cons in Hlen as [H1 Hlen].
    destruct (zip_with_max_ge r r1) as [Ha Hb]; [done|].
    assert (length (zip_with Qmax r r1) = length r) as Hl.
    { rewrite length_zip_with. lia. }
    specialize (IH (zip_with Qmax r r1)).
    rewrite Hl in IH. specialize (IH Hlen).
    apply Forall_cons in IH as [I1 I2].
    repeat constructor; try done; by eapply Forall2_Qle_trans.
Qed.

(** What [fit] learns from a non-empty data set. *)
Lemma fit_spec (self sq : t) (data : ndarray Q) :
  well_shaped data -> fit self data = (sq, Ok tt) ->
  exists lo hi,
    sq = mk (Some lo) (Some hi) true /\
    length lo = ncols data /\ length hi = ncols data /\
    Forall (fun r => Forall2 Qle lo r /\ Forall2 Qle r hi) (rows data) /\
    Forall2 Qle lo hi.
Proof.
  intros Hws. unfold fit, reduce_axis0.
  destruct (rows data) as [|r rs] eqn:Hrows; [done|].
  intros [= <-].
  unfold well_shaped in Hws. rewrite Hrows in Hws.
  apply Forall_cons in Hws as [Hr Hrs].
  assert (Forall (fun r' => length r' = length r) rs) as Hlen.
  { eapply Forall_impl; [exact Hrs|]. simpl. congruence. }
  pose proof (fold_min_below rs r Hlen) as Hmin.
  pose proof (fold_max_above rs r Hlen) as Hmax.
  eexists _, _. split; [done|].
  pose proof (Forall_inv Hmin) as Hmin0. pose proof (Forall_inv Hmax) as Hmax0.
  split_and!.
  - apply Forall2_length in Hmin0. congruence.
  - apply Forall2_length in Hmax0. congruence.
  - apply Forall_lookup. intros i x Hi.
    split; [eapply (Forall_lookup_1 _ _ _ _ Hmin Hi)|eapply (Forall_lookup_1 _ _ _ _ Hmax Hi)].
  - by eapply Forall2_Qle_trans.
Qed.

Lemma fit_empty (self : t) (data : ndarray Q) :
  rows data = [] -> fit self data = (self, Raise (ValueError msg_empty_reduction)).
Proof. intros H. unfold fit, reduce_axis0. by rewrite H. Qed.

Lemma quantize_row_unfold (lo hi r : list Q) :
  map (fun x => astype_uint8 (x * 255))
      (map (fun p => (p.1 / p.2)%Q)
           (zip (zip_with Qminus r lo) (map (fun x => x + eps)%Q (zip_with Qminus hi lo))))
  = quantize_row lo hi r.
Proof.
  unfold quantize_row. revert lo hi.
  induction r as [|v r IH]; intros [|a lo] [|b hi]; simpl; try done.
  by rewrite IH.
Qed.

Lemma denominators_nonzero (lo hi : list Q) :
  Forall2 Qle lo hi ->
  Forall (fun d => Qeq_bool d 0 = false)
         (map (fun x => x + eps)%Q (zip_with Qminus hi lo)).
Proof.
  induction 1 as [|a b lo hi Hab _ IH]; simpl; constructor; [|done].
  apply not_true_is_false. intros E. apply Qeq_bool_iff in E.
  unfold eps in E. lra.
Qed.

Lemma quantize_fitted (sq : t) (lo hi : list Q) (vectors : ndarray Q) :
  sq = mk (Some lo) (Some hi) true ->
  Forall2 Qle lo hi -> well_shaped vectors -> ncols vectors = length lo ->
  quantize sq vectors
  = Ok (mk_ndarray (ncols vectors) (map (quantize_row lo hi) (rows vectors))).
Proof.
  intros -> Hle Hws Hw. unfold quantize, range_of. simpl.
  pose proof (Forall2_length _ _ _ Hle) as Hlen.
  rewrite mat_vec_op_same by done. simpl.
  rewrite vec_op_same by done. simpl.
  unfold mat_vec_divide. simpl.
  set (den := map (fun x => (x + eps)%Q) (zip_with Qminus hi lo)).
  assert (length den = length lo) as Hden.
  { unfold den. rewrite length_map, length_zip_with. lia. }
  rewrite Hden, Hw, broadcast_dim_same. simpl.
  erewrite (traverse_ok _ (fun r => map (fun p => (p.1 / p.2)%Q) (zip r den))).
  - simpl. unfold mat_scalar_op. simpl. do 2 f_equal.
    rewrite !map_map. apply map_ext. intros r. apply quantize_row_unfold.
  - apply Forall_map. eapply Forall_impl; [exact Hws|]. intros r Hr. simpl in Hr.
    rewrite !stretch_id by (rewrite ?length_zip_with; lia).
    apply traverse_ok. apply Forall_forall. intros [n d] Hin. simpl.
    apply elem_of_zip_r in Hin. simpl in Hin.
    pose proof (denominators_nonzero lo hi Hle) as Hnz.
    rewrite Forall_forall in Hnz. unfold true_divide. by rewrite (Hnz d Hin).
Qed.

Lemma quantize_row_lookup (los his row : list Q) j v lo hi :
  row !! j = Some v -> los !! j = Some lo -> his !! j = Some hi ->
  quantize_row los his row !! j = Some (quantize_elem lo hi v).
Proof.
  intros Hv Hlo Hhi. unfold quantize_row.
  assert (zip los his !! j = Some (lo, hi)) as Hz.
  { by rewrite lookup_zip_with, Hlo; simpl; rewrite Hhi. }
  by rewrite lookup_zip_with, Hv; simpl; rewrite Hz.
Qed.

Lemma quantize_elem_in_range lo hi v :
  (lo <= v)%Q -> (v <= hi)%Q ->
  quantize_elem lo hi v = Qfloor ((v - lo) / (hi - lo + eps) * 255) /\
  0 <= quantize_elem lo hi v <= 254.
Proof.
  intros Hl Hh. destruct (scaled_bounds lo hi v Hl Hh) as [H0 H1].
  unfold quantize_elem.
  rewrite astype_uint8_small by (try done; lra).
  split; [done|].
  pose proof (Qfloor_bounds _ 255 H0 H1). lia.
Qed.

Lemma quantize_elem_constant lo hi v :
  (lo == hi)%Q -> (v == lo)%Q -> quantize_elem lo hi v = 0.
Proof.
  intros E1 E2. destruct (quantize_elem_in_range lo hi v) as [-> _]; try lra.
  assert ((v - lo) / (hi - lo + eps) * 255 == 0)%Q as ->; [|done].
  rewrite E2. field. unfold eps. lra.
Qed.

Lemma Forall2_Qle_lookup (a b : list Q) j x y :
  Forall2 Qle a b -> a !! j = Some x -> b !! j = Some y -> (x <= y)%Q.
Proof. intros H Ha Hb. exact (Forall2_lookup_lr _ _ _ _ _ _ H Ha Hb). Qed.

(** C9.  For a quantizer fitted on data in which dimension [j] is
    constant ([min_j = max_j], so every fitted value of that dimension is
    that constant), [quantize] returns (no division by zero), every value
    of that dimension gets a byte in [0, 255], and the constant itself
    gets the byte 0. *)
Theorem quantize_constant_dimension (self sq : t) (data vectors : ndarray Q) :
  well_shaped data -> fit self data = (sq, Ok tt) ->
  well_shaped vectors -> ncols vectors = ncols data ->
  exists los his out,
    min_val sq = Some los /\ max_val sq = Some his /\
    quantize sq vectors = Ok out /\
    forall j lo hi,
      los !! j = Some lo -> his !! j = Some hi -> (lo == hi)%Q ->
      (forall i row v,
         rows data !! i = Some row -> row !! j = Some v -> (v == lo)%Q) /\
      (forall i row v,
         rows vectors !! i = Some row -> row !! j = Some v ->
         exists orow b,
           rows out !! i = Some orow /\ orow !! j = Some b /\
           0 <= b <= 255 /\ ((v == lo)%Q -> b = 0)).
Proof.
  intros Hd Hfit Hv Hw.
  destruct (fit_spec self sq data Hd Hfit) as (los & his & -> & Hlo & Hhi & Hrows & Hle).
  exists los, his. eexists. split_and!; try done.
  - apply (quantize_fitted _ los his); try done. congruence.
  - intros j lo hi Hl Hh Heq. split.
    + intros i row v Hi Hj.
      pose proof (Forall_lookup_1 _ _ _ _ Hrows Hi) as [B1 B2]. cbn beta in *.
      pose proof (Forall2_Qle_lookup _ _ _ _ _ B1 Hl Hj).
      pose proof (Forall2_Qle_lookup _ _ _ _ _ B2 Hj Hh). lra.
    + intros i row v Hi Hj. cbn [rows].
      exists (quantize_row los his row), (quantize_elem lo hi v). split_and!.
      * by rewrite list_lookup_fmap, Hi.
      * by apply quantize_row_lookup.
      * pose proof (astype_uint8_range ((v - lo) / (hi - lo + eps) * 255)).
        unfold quantize_elem. lia.
      * pose proof (astype_uint8_range ((v - lo) / (hi - lo + eps) * 255)).
        unfold quantize_elem. lia.
      * intros E. by apply quantize_elem_constant.
Qed.

(** The statement of C9 at a data set whose second dimension is 5
    throughout. *)
Lemma quantize_constant_dimension_witness :
  exists los his out,
    min_val sq_const = Some los /\ max_val sq_const = Some his /\
    quantize sq_const d_const = Ok out /\
    forall j lo hi,
      los !! j = Some lo -> his !! j = Some hi -> (lo == hi)%Q ->
      (forall i row v,
         rows d_const !! i = Some row -> row !! j = Some v -> (v == lo)%Q) /\
      (forall i row v,
         rows d_const !! i = Some row -> row !! j = Some v ->
         exists orow b,
           rows out !! i = Some orow /\ orow !! j = Some b /\
           0 <= b <= 255 /\ ((v == lo)%Q -> b = 0)).
Proof.
  apply (quantize_constant_dimension init sq_const d_const d_const).
  - inspect_shape.
  - reflexivity.
  - inspect_shape.
  - reflexivity.
Defined.

End ScalarFacts.

(** ** The product quantizer *)

Module ProductFacts.
Import ProductQuantizer ProductSpec Examples.

(** [argmin_from] keeps the first least element seen so far. *)
Lemma argmin_from_spec (l pre : list Q) (best : Q) (besti i : nat) :
  length pre = i -> pre !! besti = Some best ->
  (forall j y, pre !! j = Some y -> (best <= y)%Q) ->
  (forall j y, pre !! j = Some y -> (j < besti)%nat -> (best < y)%Q) ->
  let k := argmin_from best besti i l in
  exists x, (pre ++ l) !! k = Some x /\
    (forall j y, (pre ++ l) !! j = Some y -> (x <= y)%Q) /\
    (forall j y, (pre ++ l) !! j = Some y -> (j < k)%nat -> (x < y)%Q).
Proof.
  revert pre best besti i.
  induction l as [|a l IH]; intros pre best besti i Hlen Hbest Hle Hlt; simpl.
  - rewrite app_nil_r. eauto.
  - destruct (Qlt_le_dec a best) as [Hab|Hab].
    + specialize (IH (pre ++ [a]) a i (S i)).
      rewrite <- app_assoc in IH. simpl in IH. apply IH.
      * rewrite length_app. simpl. lia.
      * rewrite lookup_app_r by lia. by replace (i - length pre)%nat with 0%nat by lia.
      * intros j y Hj. apply lookup_app_Some in Hj as [Hj|[_ Hj]].
        -- apply Qlt_le_weak. eapply Qlt_le_trans; [exact Hab|]. eauto.
        -- destruct (j - length pre)%nat; simpl in Hj; [|done].
           injection Hj as <-. apply Qle_refl.
      * intros j y Hj Hji. apply lookup_app_Some in Hj as [Hj|[Hge Hj]]; [|lia].
        eapply Qlt_le_trans; [exact Hab|]. eauto.
    + specialize (IH (pre ++ [a]) best besti (S i)).
      rewrite <- app_assoc in IH. simpl in IH. apply IH.
      * rewrite length_app. simpl. lia.
      * by apply lookup_app_l_Some.
      * intros j y Hj. apply lookup_app_Some in Hj as [Hj|[_ Hj]]; [eauto|].
        destruct (j - length pre)%nat; simpl in Hj; [|done].
        by injection Hj as <-.
      * intros j y Hj Hji. apply lookup_app_Some in Hj as [Hj|[Hge Hj]]; [eauto|].
        apply lookup_lt_Some in Hbest. lia.
Qed.

(** [np.argmin]: the result indexes a least element, and no earlier
    element is as small. *)
Lemma argmin_spec (l : list Q) :
  l <> [] ->
  exists k x, argmin l = Ok k /\ l !! k = Some x /\
    (forall j y, l !! j = Some y -> (x <= y)%Q) /\
    (forall j y, l !! j = Some y -> (j < k)%nat -> (x < y)%Q).
Proof.
  destruct l as [|a l]; [done|]. intros _. simpl.
  destruct (argmin_from_spec l [a] a 0%nat 1%nat) as (x & H1 & H2 & H3); try done.
  - intros [|j] y; simpl; [|done]. intros [= <-]. apply Qle_refl.
  - intros; lia.
  - eexists _, x. split; [done|]. eauto.
Qed.

Lemma traverse_total {A B} (f : A -> result B) (l : list A) :
  Forall (fun x => exists y, f x = Ok y) l -> exists k, traverse f l = Ok k.
Proof.
  induction 1 as [|x l [y Hy] _ [k IH]]; simpl; [eauto|].
  rewrite Hy, IH. simpl. eauto.
Qed.

Lemma slice_bound_le (i : Z) (n : nat) : (slice_bound i n <= n)%nat.
Proof. unfold slice_bound. destruct (Z.ltb_spec i 0); lia. Qed.

Lemma slice_length {A} (a b : Z) (l : list A) :
  length (slice a b l) = (slice_bound b (length l) - slice_bound a (length l))%nat.
Proof.
  unfold slice. rewrite length_take, length_drop.
  pose proof (slice_bound_le a (length l)). pose proof (slice_bound_le b (length l)).
  lia.
Qed.

Lemma slice_cols_well_shaped {A} (a b : Z) (v : ndarray A) :
  well_shaped v -> well_shaped (slice_cols a b v).
Proof.
  intros Hv. unfold well_shaped, slice_cols. simpl.
  apply Forall_map. eapply Forall_impl; [exact Hv|]. intros r Hr. simpl in *.
  by rewrite slice_length, Hr.
Qed.

Lemma sq_distances_same (sub cb : ndarray Q) :
  well_shaped sub -> well_shaped cb -> ncols sub = ncols cb ->
  sq_distances sub cb
  = Ok (mk_ndarray (len cb) (map (row_distances cb) (rows sub))).
Proof.
  intros Hs Hc Hw. unfold sq_distances. rewrite Hw, broadcast_dim_same. simpl.
  do 2 f_equal. apply map_ext_Forall. eapply Forall_impl; [exact Hs|].
  intros s Hlen. simpl in Hlen. unfold row_distances.
  apply map_ext_Forall. eapply Forall_impl; [exact Hc|].
  intros c Hc'. simpl in Hc'. by rewrite !stretch_id by congruence.
Qed.

Lemma argmin_axis1_ok (cb : ndarray Q) (subs : list (list Q)) :
  (0 < len cb)%nat ->
  exists nearest,
    argmin_axis1 (mk_ndarray (len cb) (map (row_distances cb) subs)) = Ok nearest /\
    length nearest = length subs /\
    forall i s, subs !! i = Some s ->
      exists k, nearest !! i = Some k /\ argmin (row_distances cb s) = Ok k.
Proof.
  intros HK. unfold argmin_axis1. simpl.
  destruct (Nat.eqb_spec (len cb) 0) as [E|_]; [lia|].
  destruct (traverse_total argmin (map (row_distances cb) subs)) as [nearest Hn].
  { apply Forall_map, Forall_forall. intros s _.
    destruct (argmin_spec (row_distances cb s)) as (k & x & Hk & _).
    - unfold row_distances, len in *. destruct (rows cb); simpl in *; [lia|done].
    - eauto. }
  exists nearest. split; [done|]. split.
  - apply traverse_length in Hn. by rewrite length_map in Hn.
  - intros i s Hi.
    destruct (traverse_lookup argmin _ nearest i (row_distances cb s) Hn) as (k & Hk & Ha).
    + by rewrite list_lookup_fmap, Hi.
    + eauto.
Qed.

Lemma encode_loop_spec (self : t) (vectors : ndarray Q) (cbs : list (ndarray Q)) :
  forall (m0 : nat) (codes : ndarray Z),
  well_shaped vectors -> len codes = len vectors -> well_shaped codes ->
  (m0 + length cbs <= ncols codes)%nat ->
  (forall k cb, cbs !! k = Some cb ->
     well_shaped cb /\ (0 < len cb)%nat /\
     ncols cb = ncols (slice_cols (start_of self (m0 + k)) (stop_of self (m0 + k)) vectors)) ->
  exists out,
    encode_loop self vectors m0 cbs codes = Ok out /\
    ncols out = ncols codes /\ len out = len codes /\ well_shaped out /\
    forall i row, rows vectors !! i = Some row ->
      exists crow0 crow,
        rows codes !! i = Some crow0 /\ rows out !! i = Some crow /\
        (forall m, (m < m0 \/ m0 + length cbs <= m)%nat -> crow !! m = crow0 !! m) /\
        (forall k cb, cbs !! k = Some cb ->
           exists a,
             argmin (row_distances cb
                       (slice (start_of self (m0 + k)) (stop_of self (m0 + k)) row)) = Ok a /\
             crow !! (m0 + k)%nat = Some (int_to_uint8 (Z.of_nat a))).
Proof.
  induction cbs as [|cb cbs IH]; intros m0 codes Hv Hlen Hc Hm Hcbs.
  - exists codes. simpl. split_and!; try done.
    intros i row Hi.
    destruct (lookup_lt_is_Some_2 (rows codes) i) as [crow0 H0].
    { apply lookup_lt_Some in Hi. unfold len in Hlen. lia. }
    exists crow0, crow0. split_and!; try done.
  - simpl in Hm. cbn [encode_loop].
    destruct (Hcbs 0%nat cb eq_refl) as (Hcb & HK & Hw).
    rewrite Nat.add_0_r in Hw. fold (start_of self m0). fold (stop_of self m0).
    rewrite sq_distances_same; [|by apply slice_cols_well_shaped|done|done].
    simpl.
    destruct (argmin_axis1_ok cb (map (slice (start_of self m0) (stop_of self m0)) (rows vectors)) HK)
      as (nearest & -> & Hnl & Hnear).
    simpl. unfold set_col.
    destruct (Nat.ltb_spec m0 (ncols codes)) as [Hlt|]; [|lia]. simpl.
    set (codes' := mk_ndarray (ncols codes)
           (zip_with (fun row v => <[m0 := int_to_uint8 v]> row) (rows codes)
                     (map Z.of_nat nearest))).
    rewrite length_map in Hnl.
    assert (len codes' = len vectors) as Hlen'.
    { unfold len, codes' in *. simpl. rewrite length_zip_with, length_map. lia. }
    assert (well_shaped codes') as Hc'.
    { unfold well_shaped, codes'. simpl.
      eapply Forall_zip_with_fst; [exact Hc|].
      apply Forall_true. intros v r Hr. simpl in *. by rewrite length_insert. }
    destruct (IH (S m0) codes' Hv Hlen' Hc') as (out & Hout & Hnc & Hnl' & Hws & Hspec).
    { unfold codes'. simpl. lia. }
    { intros k cb' Hk. replace (S m0 + k)%nat with (m0 + S k)%nat by lia.
      by apply Hcbs. }
    exists out. split_and!; try done.
    + congruence.
    + intros i row Hi.
      destruct (Hspec i row Hi) as (crow1 & crow & H1 & H2 & Hsame & Hnew).
      unfold codes' in H1. simpl in H1.
      apply lookup_zip_with_Some in H1 as (crow0 & v & -> & Hcrow0 & Hv0).
      exists crow0, crow. split_and!; try done.
      * intros m Hm'. rewrite Hsame by lia.
        apply list_lookup_insert_ne. lia.
      * intros [|k] cb' Hk; simpl in Hk.
        -- injection Hk as <-. rewrite Nat.add_0_r.
           destruct (Hnear i (slice (start_of self m0) (stop_of self m0) row)) as (a & Ha & Hmin).
           { by rewrite list_lookup_fmap, Hi. }
           exists a. split; [done|].
           rewrite Hsame by lia.
           rewrite list_lookup_fmap, Ha in Hv0. injection Hv0 as <-.
           apply list_lookup_insert_eq.
           pose proof (Forall_lookup_1 _ _ _ _ Hc Hcrow0) as Hl. simpl in Hl. lia.
        -- destruct (Hnew k cb' Hk) as (a & Ha & Hcode).
           exists a. by replace (m0 + S k)%nat with (S m0 + k)%nat by lia.
Qed.

Lemma slice_bound_nonneg (i : Z) (n : nat) :
  0 <= i <= Z.of_nat n -> slice_bound i n = Z.to_nat i.
Proof. intros H. unfold slice_bound. destruct (Z.ltb_spec i 0); lia. Qed.

(** The width of subspace [m] in an input at least as wide as the model. *)
Lemma subspace_width (pq : t) (vectors : ndarray Q) (m : nat) :
  Trained pq -> vector_dim pq <= Z.of_nat (ncols vectors) ->
  (m < length (codebooks pq))%nat ->
  Z.of_nat (ncols (slice_cols (start_of pq m) (stop_of pq m) vectors)) = subvector_dim pq.
Proof.
  intros T Hw Hm. destruct T as [_ HM _ Hd HD Hn _].
  unfold slice_cols, start_of, stop_of. simpl.
  assert (0 <= Z.of_nat m * subvector_dim pq) as H1 by (apply Z.mul_nonneg_nonneg; lia).
  assert (0 <= (n_subspaces pq - Z.of_nat m - 1) * subvector_dim pq) as H2
    by (apply Z.mul_nonneg_nonneg; lia).
  unfold start_of. rewrite !slice_bound_nonneg by lia. lia.
Qed.

Lemma zeros_ok {A} (z : A) (n : nat) (d : Z) :
  0 <= d -> zeros z n d = Ok (mk_ndarray (Z.to_nat d) (replicate n (replicate (Z.to_nat d) z))).
Proof. intros H. unfold zeros. destruct (Z.ltb_spec d 0); [lia|done]. Qed.

(** [encode] on a trained model and an input at least as wide as the
    model: it returns, and each code is the stored [argmin]. *)
Lemma encode_ok (pq : t) (vectors : ndarray Q) :
  Trained pq -> well_shaped vectors -> vector_dim pq <= Z.of_nat (ncols vectors) ->
  exists codes,
    encode pq vectors = Ok codes /\
    Z.of_nat (ncols codes) = n_subspaces pq /\ len codes = len vectors /\
    well_shaped codes /\
    forall i row m cb,
      rows vectors !! i = Some row -> codebooks pq !! m = Some cb ->
      exists crow a,
        rows codes !! i = Some crow /\
        argmin (row_distances cb (slice (start_of pq m) (stop_of pq m) row)) = Ok a /\
        crow !! m = Some (int_to_uint8 (Z.of_nat a)).
Proof.
  intros T Hv Hw. pose proof T as [Hf HM HK Hd HD Hn Hb].
  unfold encode. rewrite Hf. simpl. rewrite zeros_ok by lia. simpl.
  set (codes0 := mk_ndarray (Z.to_nat (n_subspaces pq))
                   (replicate (len vectors) (replicate (Z.to_nat (n_subspaces pq)) 0))).
  destruct (encode_loop_spec pq vectors (codebooks pq) 0%nat codes0)
    as (out & Hout & Hnc & Hnl & Hws & Hspec); try done.
  - unfold len, codes0. simpl. by rewrite length_replicate.
  - unfold well_shaped, codes0. simpl. apply Forall_replicate.
    by rewrite length_replicate.
  - unfold codes0. simpl. lia.
  - intros k cb Hk. cbn [Nat.add].
    pose proof (Forall_lookup_1 _ _ _ _ Hb Hk) as (H1 & H2 & H3). cbn beta in *.
    split_and!; [done|lia|].
    apply lookup_lt_Some in Hk.
    pose proof (subspace_width pq vectors k T Hw Hk). lia.
  - exists out. split_and!; try done.
    + rewrite Hnc. unfold codes0. simpl. lia.
    + rewrite Hnl. unfold len, codes0. simpl. by rewrite length_replicate.
    + intros i row m cb Hi Hm.
      destruct (Hspec i row Hi) as (crow0 & crow & _ & Hc & _ & Hnew).
      destruct (Hnew m cb Hm) as (a & Ha & Hcode). simpl in *.
      eauto.
Qed.


Lemma sqnorm_nonneg (l : list Q) : (0 <= sqnorm l)%Q.
Proof.
  induction l as [|x l IH]; simpl; [apply Qle_refl|].
  nra.
Qed.

Lemma euclidean_lt (s a b : list Q) :
  (sqnorm (zip_with Qminus s a) < sqnorm (zip_with Qminus s b))%Q ->
  (euclidean s a < euclidean s b)%R.
Proof.
  intros H. unfold euclidean. apply sqrt_lt_1_alt. split.
  - replace 0%R with (Q2R 0) by (unfold Q2R; simpl; field).
    apply Qle_Rle, sqnorm_nonneg.
  - by apply Qlt_Rlt.
Qed.

Lemma take_slice {A} (a b : Z) (n : nat) (l : list A) :
  0 <= a -> 0 <= b <= Z.of_nat n -> (n <= length l)%nat ->
  slice a b (take n l) = slice a b l.
Proof.
  intros Ha Hb Hn. unfold slice. rewrite length_take_le by done.
  unfold slice_bound.
  destruct (Z.ltb_spec a 0); [lia|]. destruct (Z.ltb_spec b 0); [lia|].
  rewrite !(Nat.min_l (Z.to_nat b)) by lia.
  destruct (Z_le_gt_dec a b) as [Hab|Hab].
  - rewrite !(Nat.min_l (Z.to_nat a)) by lia.
    rewrite !take_drop_commute, take_take. f_equal. f_equal. lia.
  - by replace (Z.to_nat b - _)%nat with 0%nat by lia;
       replace (Z.to_nat b - _)%nat with 0%nat by lia.
Qed.

Lemma slice_from_zero {A} (n : Z) (l : list A) :
  0 <= n -> slice 0 n l = take (Z.to_nat n) l.
Proof.
  intros Hn. unfold slice, slice_bound. simpl.
  destruct (Z.ltb_spec n 0); [lia|]. rewrite Nat.sub_0_r.
  destruct (Nat.min_spec (Z.to_nat n) (length l)) as [[_ ->]|[Hge ->]]; [done|].
  change (drop 0 l) with l. by rewrite !take_ge by lia.
Qed.

(** Reading a subspace from the first [vector_dim] columns only. *)
Lemma slice_cols_truncated {A} (a b n : Z) (v : ndarray A) :
  well_shaped v -> 0 <= a <= b -> b <= n -> n <= Z.of_nat (ncols v) ->
  slice_cols a b (slice_cols 0 n v) = slice_cols a b v.
Proof.
  intros Hv Ha Hb Hn. unfold slice_cols. cbn [ncols rows].
  rewrite (slice_bound_nonneg n), (slice_bound_nonneg 0) by lia.
  change (Z.to_nat 0) with 0%nat. rewrite Nat.sub_0_r.
  rewrite (slice_bound_nonneg a (Z.to_nat n)), (slice_bound_nonneg b (Z.to_nat n)),
    (slice_bound_nonneg a (ncols v)), (slice_bound_nonneg b (ncols v)) by lia.
  apply (f_equal (mk_ndarray _)).
  rewrite map_map. apply map_ext_Forall.
  eapply Forall_impl; [exact Hv|]. intros r Hr. simpl in *.
  rewrite slice_from_zero by lia. apply take_slice; lia.
Qed.

Lemma encode_loop_ext (self : t) (v1 v2 : ndarray Q) (cbs : list (ndarray Q)) :
  forall (m0 : nat) (codes : ndarray Z),
  (forall k, (k < length cbs)%nat ->
     slice_cols (start_of self (m0 + k)) (stop_of self (m0 + k)) v1
     = slice_cols (start_of self (m0 + k)) (stop_of self (m0 + k)) v2) ->
  encode_loop self v1 m0 cbs codes = encode_loop self v2 m0 cbs codes.
Proof.
  induction cbs as [|cb cbs IH]; intros m0 codes Hs; [done|].
  cbn [encode_loop]. fold (start_of self m0). fold (stop_of self m0).
  pose proof (Hs 0%nat) as H0. rewrite Nat.add_0_r in H0.
  rewrite H0 by (simpl; lia).
  destruct (sq_distances _ cb) as [d|]; [|done]. simpl.
  destruct (argmin_axis1 d) as [nearest|]; [|done]. simpl.
  destruct (set_col m0 _ codes) as [codes'|]; [|done]. simpl.
  apply IH. intros k Hk.
  replace (S m0 + k)%nat with (m0 + S k)%nat by lia.
  apply Hs. simpl. lia.
Qed.

(** An input wider than the model: nothing is raised, and the codes are
    those of the first [vector_dim] columns. *)
Lemma encode_wide_truncated (pq : t) (vectors : ndarray Q) :
  Trained pq -> well_shaped vectors ->
  vector_dim pq < Z.of_nat (ncols vectors) ->
  exists codes,
    encode pq vectors = Ok codes /\
    encode pq (slice_cols 0 (vector_dim pq) vectors) = Ok codes /\
    Z.of_nat (ncols (slice_cols 0 (vector_dim pq) vectors)) = vector_dim pq.
Proof.
  intros T Hv Hw. pose proof T as [Hf HM HK Hd HD Hn Hb].
  destruct (encode_ok pq vectors T Hv) as (codes & Henc & _); [lia|].
  exists codes. split; [done|]. split.
  - rewrite <- Henc. unfold encode. rewrite Hf. simpl.
    assert (len (slice_cols 0 (vector_dim pq) vectors) = len vectors) as ->.
    { unfold len, slice_cols. simpl. by rewrite length_map. }
    destruct (zeros 0 (len vectors) (n_subspaces pq)) as [codes0|]; [|done]. simpl.
    apply encode_loop_ext. intros k Hk. simpl.
    assert (0 <= Z.of_nat k * subvector_dim pq) as H1 by (apply Z.mul_nonneg_nonneg; lia).
    assert (0 <= (n_subspaces pq - Z.of_nat k - 1) * subvector_dim pq) as H2
      by (apply Z.mul_nonneg_nonneg; lia).
    unfold stop_of, start_of.
    apply slice_cols_truncated; try done; lia.
  - unfold slice_cols. simpl. rewrite !slice_bound_nonneg by lia. lia.
Qed.

Lemma argmin_axis1_total (n : nat) (rs : list (list Q)) :
  (0 < n)%nat -> Forall (fun r => length r = n) rs ->
  exists nearest,
    argmin_axis1 (mk_ndarray n rs) = Ok nearest /\ length nearest = length rs.
Proof.
  intros Hn Hrs. unfold argmin_axis1. simpl.
  destruct (Nat.eqb_spec n 0) as [|_]; [lia|].
  destruct (traverse_total argmin rs) as [nearest Hnear].
  - eapply Forall_impl; [exact Hrs|]. intros r Hr. simpl in Hr.
    destruct (argmin_spec r) as (k & _ & Hk & _); [|eauto].
    intros ->. simpl in Hr. lia.
  - exists nearest. split; [done|]. by apply traverse_length in Hnear.
Qed.

(** One turn of the loop of [encode] goes through as soon as the slice
    and the codebook broadcast. *)
Lemma encode_step_total (sub cb : ndarray Q) (m : nat) (codes : ndarray Z) :
  is_ok (broadcast_dim (ncols sub) (ncols cb)) = true ->
  (0 < len cb)%nat -> (m < ncols codes)%nat ->
  exists distances nearest codes',
    sq_distances sub cb = Ok distances /\
    argmin_axis1 distances = Ok nearest /\
    set_col m (map Z.of_nat nearest) codes = Ok codes' /\
    ncols codes' = ncols codes.
Proof.
  intros Hb HK Hm. unfold sq_distances.
  destruct (broadcast_dim (ncols sub) (ncols cb)) as [d|]; [|done]. simpl.
  destruct (argmin_axis1_total (len cb)
              (map (fun s => map (fun c => sqnorm (zip_with Qminus (stretch d s) (stretch d c)))
                                 (rows cb)) (rows sub)) HK)
    as (nearest & Hnear & _).
  { apply Forall_map, Forall_true. intros s. simpl. by rewrite length_map. }
  eexists _, nearest,
    (mk_ndarray (ncols codes)
       (zip_with (fun row v => <[m := int_to_uint8 v]> row) (rows codes)
                 (map Z.of_nat nearest))).
  split_and!; try done.
  unfold set_col. destruct (Nat.ltb_spec m (ncols codes)); [done|lia].
Qed.

Lemma encode_loop_raises (self : t) (vectors : ndarray Q)
    (pre : list (ndarray Q)) (cb : ndarray Q) (post : list (ndarray Q)) (e : exn) :
  forall (m0 : nat) (codes : ndarray Z),
  (forall k cb', pre !! k = Some cb' ->
     is_ok (broadcast_dim
              (ncols (slice_cols (start_of self (m0 + k)) (stop_of self (m0 + k)) vectors))
              (ncols cb')) = true /\ (0 < len cb')%nat) ->
  (m0 + length pre <= ncols codes)%nat ->
  broadcast_dim
    (ncols (slice_cols (start_of self (m0 + length pre))
                       (stop_of self (m0 + length pre)) vectors))
    (ncols cb) = Raise e ->
  encode_loop self vectors m0 (pre ++ cb :: post) codes = Raise e.
Proof.
  induction pre as [|cb0 pre IH]; intros m0 codes Hpre Hm He.
  - cbn [length] in He. rewrite Nat.add_0_r in He.
    cbn [app encode_loop]. fold (start_of self m0). fold (stop_of self m0).
    unfold sq_distances. by rewrite He.
  - cbn [app encode_loop]. fold (start_of self m0). fold (stop_of self m0).
    destruct (Hpre 0%nat cb0 eq_refl) as [Hb HK]. rewrite Nat.add_0_r in Hb.
    cbn [length] in Hm.
    destruct (encode_step_total _ cb0 m0 codes Hb HK)
      as (dist & nearest & codes' & H1 & H2 & H3 & Hnc); [lia|].
    rewrite H1. cbn [mbind result_bind]. rewrite H2. cbn [mbind result_bind].
    rewrite H3. cbn [mbind result_bind]. apply IH.
    + intros k cb' Hk. replace (S m0 + k)%nat with (m0 + S k)%nat by lia.
      by apply Hpre.
    + lia.
    + by replace (S m0 + length pre)%nat with (m0 + length (cb0 :: pre))%nat
        by (simpl; lia).
Qed.

Lemma encode_loop_total (self : t) (vectors : ndarray Q) (cbs : list (ndarray Q)) :
  forall (m0 : nat) (codes : ndarray Z),
  (forall k cb', cbs !! k = Some cb' ->
     is_ok (broadcast_dim
              (ncols (slice_cols (start_of self (m0 + k)) (stop_of self (m0 + k)) vectors))
              (ncols cb')) = true /\ (0 < len cb')%nat) ->
  (m0 + length cbs <= ncols codes)%nat ->
  exists out, encode_loop self vectors m0 cbs codes = Ok out.
Proof.
  induction cbs as [|cb0 cbs IH]; intros m0 codes Hcbs Hm.
  - simpl. eauto.
  - cbn [encode_loop]. fold (start_of self m0). fold (stop_of self m0).
    destruct (Hcbs 0%nat cb0 eq_refl) as [Hb HK]. rewrite Nat.add_0_r in Hb.
    cbn [length] in Hm.
    destruct (encode_step_total _ cb0 m0 codes Hb HK)
      as (dist & nearest & codes' & H1 & H2 & H3 & Hnc); [lia|].
    rewrite H1. cbn [mbind result_bind]. rewrite H2. cbn [mbind result_bind].
    rewrite H3. cbn [mbind result_bind]. apply IH.
    + intros k cb' Hk. replace (S m0 + k)%nat with (m0 + S k)%nat by lia.
      by apply Hcbs.
    + lia.
Qed.

(** The width of the slice of subspace [m] in an input of [n] columns. *)
Lemma subspace_width_any (pq : t) (vectors : ndarray Q) (m : nat) :
  0 <= subvector_dim pq ->
  Z.of_nat (ncols (slice_cols (start_of pq m) (stop_of pq m) vectors))
  = Z.min (stop_of pq m) (Z.of_nat (ncols vectors))
    - Z.min (start_of pq m) (Z.of_nat (ncols vectors)).
Proof.
  intros Hd. unfold slice_cols, stop_of, start_of, slice_bound. cbn [ncols].
  assert (0 <= Z.of_nat m * subvector_dim pq) by (apply Z.mul_nonneg_nonneg; lia).
  destruct (Z.ltb_spec (Z.of_nat m * subvector_dim pq + subvector_dim pq) 0); [lia|].
  destruct (Z.ltb_spec (Z.of_nat m * subvector_dim pq) 0); lia.
Qed.

Lemma broadcast_dim_ok (a b : nat) :
  a = b \/ a = 1%nat \/ b = 1%nat -> is_ok (broadcast_dim a b) = true.
Proof.
  intros H. unfold broadcast_dim.
  destruct (Nat.eqb_spec a b); [done|].
  destruct (Nat.eqb_spec a 1); [done|].
  destruct (Nat.eqb_spec b 1); [done|]. lia.
Qed.

Lemma broadcast_dim_raise (a b : nat) :
  a <> b -> a <> 1%nat -> b <> 1%nat ->
  broadcast_dim a b = Raise (ValueError msg_broadcast).
Proof.
  intros H1 H2 H3. unfold broadcast_dim.
  destruct (Nat.eqb_spec a b); [done|].
  destruct (Nat.eqb_spec a 1); [done|].
  by destruct (Nat.eqb_spec b 1).
Qed.

(** The widths of the slices of an input of [n] columns, [q] whole
    subspaces and [r] columns more. *)
Lemma subspace_width_cases (pq : t) (vectors : ndarray Q) (m : nat) (q r : Z) :
  0 < subvector_dim pq ->
  Z.of_nat (ncols vectors) = q * subvector_dim pq + r -> 0 <= r < subvector_dim pq ->
  let w := Z.of_nat (ncols (slice_cols (start_of pq m) (stop_of pq m) vectors)) in
  (Z.of_nat m < q -> w = subvector_dim pq) /\
  (Z.of_nat m = q -> w = r) /\
  (q < Z.of_nat m -> w = 0).
Proof.
  intros Hd Hn Hr w. unfold w. rewrite subspace_width_any by lia.
  unfold stop_of, start_of.
  split_and!; intros Hm.
  - assert ((Z.of_nat m + 1) * subvector_dim pq <= q * subvector_dim pq)
      by (apply Z.mul_le_mono_nonneg_r; lia). lia.
  - subst q. lia.
  - assert ((q + 1) * subvector_dim pq <= Z.of_nat m * subvector_dim pq)
      by (apply Z.mul_le_mono_nonneg_r; lia). lia.
Qed.

(** An input narrower than the model, in all but one case: the first
    short slice does not broadcast against its codebook. *)
Lemma encode_narrow_raises (pq : t) (vectors : ndarray Q) :
  Trained pq -> 2 <= subvector_dim pq ->
  Z.of_nat (ncols vectors) < vector_dim pq ->
  Z.of_nat (ncols vectors) <> vector_dim pq - subvector_dim pq + 1 ->
  encode pq vectors = Raise (ValueError msg_broadcast).
Proof.
  intros T Hd Hn Hne. pose proof T as [Hf HM HK _ HD Hlen Hb].
  unfold encode. rewrite Hf. cbn [negb]. rewrite zeros_ok by lia.
  cbn [mbind result_bind].
  set (n := Z.of_nat (ncols vectors)) in *.
  set (d := subvector_dim pq) in *.
  pose proof (Z.div_mod n d ltac:(lia)) as Hdm.
  pose proof (Z.mod_pos_bound n d ltac:(lia)) as Hr.
  set (q := n / d) in *. set (r := n mod d) in *.
  assert (0 <= q) as Hq0 by (apply Z.div_pos; lia).
  assert (q < n_subspaces pq) as HqM.
  { apply Z.div_lt_upper_bound; [lia|]. rewrite Z.mul_comm. lia. }
  assert (n = q * d + r) as Hn' by lia.
  (* the subspace that fails *)
  set (f := if r =? 1 then Z.to_nat (q + 1) else Z.to_nat q).
  assert (f < length (codebooks pq))%nat as Hflt.
  { unfold f. destruct (Z.eqb_spec r 1) as [E|E]; [|lia].
    assert (q <> n_subspaces pq - 1); [|lia].
    intros Eq. apply Hne. rewrite HD, Hn', Eq, E. lia. }
  destruct (lookup_lt_is_Some_2 _ _ Hflt) as [cb Hcb].
  rewrite <- (take_drop_middle _ _ _ Hcb).
  assert (length (take f (codebooks pq)) = f) as Hpre by (rewrite length_take; lia).
  apply encode_loop_raises.
  - intros k cb' Hk. cbn [Nat.add].
    assert (k < f)%nat as Hkf by (apply lookup_lt_Some in Hk; lia).
    rewrite lookup_take_lt in Hk by done.
    pose proof (Forall_lookup_1 _ _ _ _ Hb Hk) as (_ & Hw & Hl). cbn beta in *.
    split; [|lia].
    destruct (subspace_width_cases pq vectors k q r ltac:(lia) Hn' Hr) as (W1 & W2 & W3).
    apply broadcast_dim_ok.
    destruct (Z_lt_le_dec (Z.of_nat k) q) as [Hlt|Hge].
    + left. specialize (W1 Hlt). lia.
    + right; left. unfold f in Hkf.
      destruct (Z.eqb_spec r 1) as [E|E]; [|lia].
      assert (Z.of_nat k = q) as Hkq by lia. specialize (W2 Hkq). lia.
  - cbn [ncols Nat.add]. rewrite Hpre. lia.
  - cbn [Nat.add]. rewrite Hpre.
    pose proof (Forall_lookup_1 _ _ _ _ Hb Hcb) as (_ & Hw & _). cbn beta in *.
    destruct (subspace_width_cases pq vectors f q r ltac:(lia) Hn' Hr) as (W1 & W2 & W3).
    unfold f in W1, W2, W3 |- *.
    destruct (Z.eqb_spec r 1) as [E|E].
    + apply broadcast_dim_raise; lia.
    + apply broadcast_dim_raise; lia.
Qed.

(** The narrower inputs that [encode] accepts all the same. *)
Lemma encode_narrow_accepted (pq : t) (vectors : ndarray Q) :
  Trained pq -> Z.of_nat (ncols vectors) < vector_dim pq ->
  subvector_dim pq = 1 \/
  Z.of_nat (ncols vectors) = vector_dim pq - subvector_dim pq + 1 ->
  exists codes, encode pq vectors = Ok codes.
Proof.
  intros T Hn Hcase. pose proof T as [Hf HM HK Hd0 HD Hlen Hb].
  unfold encode. rewrite Hf. cbn [negb]. rewrite zeros_ok by lia.
  cbn [mbind result_bind].
  assert (0 < subvector_dim pq) as Hd.
  { destruct (Z.eq_dec (subvector_dim pq) 0) as [E|]; [|lia]. rewrite E in *. lia. }
  apply encode_loop_total.
  - intros k cb' Hk. cbn [Nat.add].
    pose proof (Forall_lookup_1 _ _ _ _ Hb Hk) as (_ & Hw & Hl). cbn beta in *.
    split; [|lia]. apply broadcast_dim_ok.
    destruct Hcase as [E1|E].
    + right; right. lia.
    + apply lookup_lt_Some in Hk.
      destruct (subspace_width_cases pq vectors k (n_subspaces pq - 1) 1 Hd)
        as (W1 & W2 & W3); [lia| |].
      * destruct (Z.eq_dec (subvector_dim pq) 1); [|lia].
        lia.
      * destruct (Z_lt_le_dec (Z.of_nat k) (n_subspaces pq - 1)) as [Hlt|Hge].
        -- left. specialize (W1 Hlt). lia.
        -- right; left. assert (Z.of_nat k = n_subspaces pq - 1) as Hkq by lia.
           specialize (W2 Hkq). lia.
  - cbn [ncols Nat.add]. lia.
Qed.

(** C3 (amended).  [encode] checks no width.  On an input wider than
    [vector_dim] a trained quantizer raises nothing and returns exactly
    the codes of the first [vector_dim] columns.  On a narrower input it
    raises NumPy's broadcasting [ValueError], except when the subspaces
    are one column wide or exactly [subvector_dim - 1] columns are
    missing: then the short slice is broadcast and codes are returned. *)
Theorem encode_checks_no_width (pq : t) (vectors : ndarray Q) :
  Trained pq -> well_shaped vectors ->
  Z.of_nat (ncols vectors) <> vector_dim pq ->
  (vector_dim pq < Z.of_nat (ncols vectors) ->
   exists codes,
     encode pq vectors = Ok codes /\
     encode pq (slice_cols 0 (vector_dim pq) vectors) = Ok codes /\
     Z.of_nat (ncols (slice_cols 0 (vector_dim pq) vectors)) = vector_dim pq) /\
  (Z.of_nat (ncols vectors) < vector_dim pq ->
   2 <= subvector_dim pq ->
   Z.of_nat (ncols vectors) <> vector_dim pq - subvector_dim pq + 1 ->
   encode pq vectors = Raise (ValueError msg_broadcast)) /\
  (Z.of_nat (ncols vectors) < vector_dim pq ->
   subvector_dim pq = 1 \/
   Z.of_nat (ncols vectors) = vector_dim pq - subvector_dim pq + 1 ->
   exists codes, encode pq vectors = Ok codes).
Proof.
  intros T Hv Hne. split_and!.
  - by apply encode_wide_truncated.
  - intros Hn Hd Hmiss. by apply encode_narrow_raises.
  - intros Hn Hcase. by apply encode_narrow_accepted.
Qed.

(** *** Training *)

(** What [__init__] leaves in a new object. *)
Lemma init_fields (M K D : Z) (self : t) :
  init M K D = Ok self ->
  M <> 0 /\ D mod M = 0 /\
  self = mk M K D (D / M) [] false.
Proof.
  unfold init. destruct (Z.eqb_spec M 0) as [|HM]; [done|].
  destruct (Z.eqb_spec (D mod M) 0) as [HD|]; [|done]. simpl.
  by intros [= <-].
Qed.

Section TrainingFacts.

Variable rng : Type.
Variable choice : rng -> nat -> Z -> result (list Z) * rng.
Variable kmeans_fit : Z -> ndarray Q -> result (ndarray Q).

Lemma train_loop_spec (vs : ndarray Q) (ms : list Z) :
  forall (self self' : t) (r : result unit),
  train_loop kmeans_fit self vs ms = (self', r) ->
  n_subspaces self' = n_subspaces self /\ n_centroids self' = n_centroids self /\
  vector_dim self' = vector_dim self /\ subvector_dim self' = subvector_dim self /\
  is_trained self' = is_trained self /\
  exists new,
    codebooks self' = codebooks self ++ new /\
    Forall2 (fun m c => fit_subspace kmeans_fit self vs m = Ok c) (take (length new) ms) new /\
    match r with
    | Ok _ => length new = length ms
    | Raise e => exists m, ms !! length new = Some m /\ fit_subspace kmeans_fit self vs m = Raise e
    end.
Proof.
  induction ms as [|m ms IH]; intros self self' r; cbn [train_loop].
  - intros [= <- <-]. split_and!; try done.
    exists []. rewrite app_nil_r. by split_and!.
  - fold (fit_subspace kmeans_fit self vs m).
    destruct (fit_subspace kmeans_fit self vs m) as [c|e] eqn:Hfit.
    + intros H. apply IH in H as (H1 & H2 & H3 & H4 & H5 & new & Hcb & Hall & Hr).
      cbn [n_subspaces n_centroids vector_dim subvector_dim is_trained codebooks] in *.
      split_and!; try done.
      exists (c :: new). split_and!.
      * by rewrite Hcb, <- app_assoc.
      * simpl. constructor; [done|].
        eapply Forall2_impl; [exact Hall|]. intros m' c' Hm'.
        by unfold fit_subspace in *.
      * destruct r as [[]|e]; simpl; [lia|].
        destruct Hr as (m' & Hm' & Hf). exists m'. split; [done|].
        by unfold fit_subspace in *.
    + intros [= <- <-]. split_and!; try done.
      exists []. rewrite app_nil_r. split_and!; try done.
      simpl. eauto.
Qed.

Lemma range_lookup (n : Z) (k : nat) :
  (k < Z.to_nat n)%nat -> range n !! k = Some (Z.of_nat k).
Proof.
  intros H. unfold range. rewrite list_lookup_fmap.
  by rewrite lookup_seq_lt.
Qed.

Lemma range_length (n : Z) : length (range n) = Z.to_nat n.
Proof. unfold range. by rewrite length_map, length_seq. Qed.

Lemma index_rows_shape {A} (a vs : ndarray A) (idx : list Z) :
  well_shaped a -> index_rows a idx = Ok vs ->
  well_shaped vs /\ ncols vs = ncols a /\ len vs = length idx.
Proof.
  intros Ha. unfold index_rows.
  destruct (traverse (row_at a) idx) as [rs|] eqn:Hrs; [|done]. simpl.
  intros [= <-]. split_and!; try done.
  - unfold well_shaped. simpl. apply Forall_lookup. intros i r Hi.
    assert (exists j, idx !! i = Some j) as [j Hj].
    { apply lookup_lt_is_Some_2. apply traverse_length in Hrs.
      apply lookup_lt_Some in Hi. lia. }
    destruct (traverse_lookup _ _ _ _ _ Hrs Hj) as (r' & Hr' & Hrow).
    rewrite Hi in Hr'. injection Hr' as <-.
    unfold row_at in Hrow.
    destruct (_ <? 0); [done|].
    destruct (rows a !! _) as [r0|] eqn:Hr0; [|done].
    injection Hrow as <-. exact (Forall_lookup_1 _ _ _ _ Ha Hr0).
  - unfold len. simpl. by apply traverse_length in Hrs.
Qed.

Lemma sample_shape (g g' : rng) (vectors vs : ndarray Q) (n_samples : Z) :
  well_shaped vectors ->
  sample rng choice g vectors n_samples = (Ok vs, g') ->
  well_shaped vs /\ ncols vs = ncols vectors.
Proof.
  intros Hv. unfold sample.
  destruct (n_samples <? Z.of_nat (len vectors)).
  - destruct (choice g (len vectors) n_samples) as [[idx|e] g1]; simpl; [|done].
    intros [= H <-]. by destruct (index_rows_shape _ _ _ Hv H) as (? & ? & _).
  - by intros [= <- <-].
Qed.

(** X1.  [__init__] with a positive number of subspaces and a
    non-negative dimension, then a successful [train] on vectors of that
    dimension, gives a [Trained] quantizer: one codebook per subspace,
    each of [n_centroids] centroids of width [vector_dim // n_subspaces],
    provided the clustering library returns one centre per cluster, each
    as wide as its samples. *)
Theorem train_gives_trained_quantizer (M K D n_samples : Z) (g g' : rng) (pq0 pq : t)
    (vectors : ndarray Q) :
  kmeans_contract kmeans_fit ->
  init M K D = Ok pq0 -> 0 < M -> 0 <= D ->
  well_shaped vectors -> Z.of_nat (ncols vectors) = D ->
  train rng choice kmeans_fit g pq0 vectors n_samples = (pq, g', Ok tt) ->
  Trained pq.
Proof.
  intros Hk Hinit HM HD Hv Hw.
  apply init_fields in Hinit as (_ & Hmod & ->). unfold train.
  destruct (sample rng choice g vectors n_samples) as [[vs|e] g1] eqn:Hs; [|done].
  destruct (sample_shape _ _ _ _ _ Hv Hs) as [Hvs Hwvs].
  destruct (train_loop _ _ _ _) as [self' [[]|e]] eqn:Hloop; [|done].
  intros [= <- _].
  apply train_loop_spec in Hloop
    as (H1 & H2 & H3 & H4 & H5 & new & Hcb & Hall & Hlen).
  cbn [n_subspaces n_centroids vector_dim subvector_dim is_trained codebooks] in *.
  rewrite range_length in Hlen. rewrite app_nil_l in Hcb.
  assert (D = M * (D / M)) as HDM by (apply Z.div_exact; [lia|done]).
  assert (0 <= D / M) as Hd by (apply Z.div_pos; lia).
  assert (Forall (fun cb => well_shaped cb /\ Z.of_nat (ncols cb) = D / M /\
                            Z.of_nat (len cb) = K /\ 0 < K) new) as Hnew.
  { apply Forall_lookup. intros k c Hc.
    assert (k < Z.to_nat M)%nat as Hlt by (apply lookup_lt_Some in Hc; lia).
    pose proof (Forall2_lookup_r _ _ _ _ _ Hall Hc) as (m & Hm & Hfit).
    rewrite lookup_take_lt, range_lookup in Hm by (try lia; apply lookup_lt_Some in Hc; lia).
    injection Hm as <-.
    unfold fit_subspace in Hfit. cbn [n_centroids subvector_dim] in Hfit.
    destruct (Hk _ _ _ (slice_cols_well_shaped _ _ _ Hvs) Hfit) as (C1 & C2 & C3 & C4).
    split_and!; try done.
    rewrite C2. unfold slice_cols. cbn [ncols].
    assert (0 <= Z.of_nat k * (D / M)) as B1 by (apply Z.mul_nonneg_nonneg; lia).
    assert (0 <= (M - Z.of_nat k - 1) * (D / M)) as B2
      by (apply Z.mul_nonneg_nonneg; lia).
    rewrite !slice_bound_nonneg by lia. lia. }
  constructor; cbn [n_subspaces n_centroids vector_dim subvector_dim is_trained codebooks];
    rewrite ?H1, ?H2, ?H3, ?H4, ?Hcb; try done; try lia.
  - destruct new as [|c new']; [simpl in Hlen; lia|].
    by apply Forall_inv in Hnew as (_ & _ & _ & ?).
  - eapply Forall_impl; [exact Hnew|]. intros c (? & ? & ? & ?). done.
Qed.


Lemma range_pos (n : Z) : 0 < n -> exists ms, range n = 0 :: ms.
Proof.
  intros H. unfold range. destruct (Z.to_nat n) as [|k] eqn:E; [lia|].
  simpl. eauto.
Qed.

Lemma row_at_empty {A} (a : ndarray A) (i : Z) :
  rows a = [] -> row_at a i = Raise IndexError.
Proof.
  intros He. unfold row_at. rewrite He.
  destruct (_ <? 0); [done|]. by rewrite lookup_nil.
Qed.

Lemma sample_of_empty (g g' : rng) (vectors vs : ndarray Q) (n_samples : Z) :
  rows vectors = [] ->
  sample rng choice g vectors n_samples = (Ok vs, g') -> rows vs = [].
Proof.
  intros He. unfold sample.
  destruct (n_samples <? Z.of_nat (len vectors)).
  - destruct (choice g (len vectors) n_samples) as [[idx|e] g1]; simpl; [|done].
    unfold index_rows. destruct idx as [|i idx]; simpl.
    + by intros [= <- <-].
    + by rewrite row_at_empty.
  - by intros [= <- <-].
Qed.

(** C7 (amended).  Construction fails with an [AssertionError] whenever
    [vector_dim] is not divisible by [n_subspaces].  Training checks
    nothing itself.  On an empty input and with at least one subspace it
    fails, leaving the model as it was, with the error of the sampling
    or clustering step (clustering rejecting an empty sample set); with
    a negative number of subspaces, which the constructor accepts when
    it divides [vector_dim], the loop over the subspaces is empty and
    training an empty input returns, the model marked trained and
    without codebooks.  Whatever [n_centroids] is, also above 256,
    training succeeds whenever sampling and clustering do. *)
Theorem training_checks (M K D n_samples : Z) (g : rng) (pq0 : t)
    (vectors : ndarray Q) :
  (M <> 0 -> D mod M <> 0 -> init M K D = Raise AssertionError) /\
  (kmeans_rejects_empty kmeans_fit -> init M K D = Ok pq0 -> 0 < M -> rows vectors = [] ->
     exists e g',
       train rng choice kmeans_fit g pq0 vectors n_samples = (pq0, g', Raise e)) /\
  (init M K D = Ok pq0 -> M < 0 -> 0 <= n_samples -> rows vectors = [] ->
     train rng choice kmeans_fit g pq0 vectors n_samples
     = (mk M K D (D / M) [] true, g, Ok tt)) /\
  (init M K D = Ok pq0 ->
   forall vs g',
     sample rng choice g vectors n_samples = (Ok vs, g') ->
     (forall m, m ∈ range M -> is_ok (fit_subspace kmeans_fit pq0 vs m) = true) ->
     exists pq,
       train rng choice kmeans_fit g pq0 vectors n_samples = (pq, g', Ok tt) /\
       is_trained pq = true /\ n_centroids pq = K).
Proof.
  split_and!.
  - intros HM HD. unfold init.
    destruct (Z.eqb_spec M 0) as [|_]; [done|].
    destruct (Z.eqb_spec (D mod M) 0) as [|_]; done.
  - intros Hrej Hinit HM He.
    assert (n_subspaces pq0 = M) as HM0
      by (by apply init_fields in Hinit as (_ & _ & ->)).
    unfold train.
    destruct (sample rng choice g vectors n_samples) as [[vs|e] g1] eqn:Hs; [|eauto].
    pose proof (sample_of_empty _ _ _ _ _ He Hs) as Hvs.
    destruct (range_pos (n_subspaces pq0)) as [ms ->]; [lia|].
    cbn [train_loop].
    specialize (Hrej (n_centroids pq0)
      (slice_cols (0 * subvector_dim pq0) (0 * subvector_dim pq0 + subvector_dim pq0) vs)).
    destruct (kmeans_fit _ _) as [c|e].
    + exfalso. unfold slice_cols in Hrej. simpl in Hrej. rewrite Hvs in Hrej.
      by specialize (Hrej eq_refl).
    + eauto.
  - intros Hinit HM Hn He.
    apply init_fields in Hinit as (_ & _ & ->).
    unfold train, sample, len. rewrite He. cbn [length].
    destruct (Z.ltb_spec n_samples (Z.of_nat 0)) as [|_]; [lia|].
    cbn [n_subspaces]. unfold range.
    replace (Z.to_nat M) with 0%nat by lia. done.
  - intros Hinit vs g' Hs Hall.
    assert (n_subspaces pq0 = M /\ n_centroids pq0 = K) as [HM0 HK0]
      by (by apply init_fields in Hinit as (_ & _ & ->)).
    unfold train. rewrite Hs.
    destruct (train_loop _ _ _ _) as [self' r] eqn:Hloop.
    apply train_loop_spec in Hloop
      as (H1 & H2 & H3 & H4 & H5 & new & Hcb & Hfit & Hr).
    destruct r as [[]|e].
    + eexists. split; [done|]. simpl. split; [done|]. congruence.
    + exfalso. destruct Hr as (m & Hm & Hraise).
      rewrite HM0 in Hm. apply list_elem_of_lookup_2 in Hm.
      specialize (Hall m Hm). by rewrite Hraise in Hall.
Qed.

(** X2.  Where the random generator enters [train].  With at most [n_samples]
    input vectors nothing is drawn and training does not depend on the
    generator.  With more, the rows are drawn by [np.random.choice] from
    the global generator, which [train] does not seed, and training is
    training on the drawn rows. *)
Theorem training_follows_the_drawn_rows (self : t) (vectors : ndarray Q)
    (n_samples : Z) :
  (Z.of_nat (len vectors) <= n_samples ->
   forall g1 g2,
     (train rng choice kmeans_fit g1 self vectors n_samples).1.1
     = (train rng choice kmeans_fit g2 self vectors n_samples).1.1 /\
     (train rng choice kmeans_fit g1 self vectors n_samples).2
     = (train rng choice kmeans_fit g2 self vectors n_samples).2) /\
  (n_samples < Z.of_nat (len vectors) ->
   forall g g' idx vs,
     choice g (len vectors) n_samples = (Ok idx, g') ->
     index_rows vectors idx = Ok vs ->
     forall g0,
       (train rng choice kmeans_fit g self vectors n_samples).1.1
       = (train rng choice kmeans_fit g0 self vs (Z.of_nat (len vs))).1.1 /\
       (train rng choice kmeans_fit g self vectors n_samples).2
       = (train rng choice kmeans_fit g0 self vs (Z.of_nat (len vs))).2).
Proof.
  split.
  - intros HN g1 g2. unfold train, sample.
    destruct (Z.ltb_spec n_samples (Z.of_nat (len vectors))) as [|_]; [lia|].
    by destruct (train_loop _ _ _ _) as [self' [[]|e]].
  - intros HN g g' idx vs Hc Hi g0. unfold train, sample.
    destruct (Z.ltb_spec n_samples (Z.of_nat (len vectors))) as [_|]; [|lia].
    rewrite Hc. simpl. rewrite Hi.
    destruct (Z.ltb_spec (Z.of_nat (len vs)) (Z.of_nat (len vs))) as [|_]; [lia|].
    by destruct (train_loop _ _ _ _) as [self' [[]|e]].
Qed.

End TrainingFacts.

(** *** Concrete runs *)

Lemma first_rows_kmeans_contract : kmeans_contract first_rows_kmeans.
Proof.
  intros k x c Hx. unfold first_rows_kmeans.
  destruct (Z.leb_spec k 0) as [|Hk]; [done|].
  destruct (Z.ltb_spec (Z.of_nat (len x)) k) as [|Hn]; [done|]. simpl.
  intros [= <-]. split_and!; try done.
  - unfold well_shaped. simpl. by apply Forall_take.
  - unfold len in *. simpl. rewrite length_take. lia.
Qed.

Lemma first_rows_kmeans_rejects_empty : kmeans_rejects_empty first_rows_kmeans.
Proof.
  intros k x He. unfold first_rows_kmeans, len. rewrite He. simpl.
  destruct (Z.leb_spec k 0) as [|Hk]; [done|].
  change (Z.of_nat 0) with 0.
  destruct (Z.ltb_spec 0 k); [done|lia].
Qed.

(** The statement of X1 at a run of the stand-ins. *)
Lemma train_gives_trained_witness :
  Trained (run_train [] pq12_fresh data4 50000).1.1.
Proof.
  apply (train_gives_trained_quantizer (list Z) scripted_choice first_rows_kmeans
           1 2 1 50000 [] [] pq12_fresh _ data4).
  - apply first_rows_kmeans_contract.
  - reflexivity.
  - lia.
  - lia.
  - inspect_shape.
  - reflexivity.
  - reflexivity.
Defined.

Lemma pq42_Trained : Trained pq42.
Proof.
  constructor; try by vm_compute.
  vm_compute. repeat constructor.
Qed.

Lemma pq257_Trained : Trained pq257.
Proof.
  constructor; try by vm_compute.
  vm_compute. repeat constructor.
Qed.

(** C3, refuted as stated.  A quantizer of dimension 4 encodes a vector
    of width 6 as it encodes the first four columns of it, and encodes a
    vector of width 3 too (the lone last column is broadcast). *)
Lemma encode_accepts_other_widths :
  Trained pq42 /\ vector_dim pq42 = 4 /\
  encode pq42 wide42 = Ok (mk_ndarray 2 [[1; 0]]) /\
  encode pq42 (slice_cols 0 4 wide42) = Ok (mk_ndarray 2 [[1; 0]]) /\
  encode pq42 narrow42 = Ok (mk_ndarray 2 [[1; 0]]).
Proof. split; [exact pq42_Trained|]. by vm_compute. Qed.

(** The statement of C3 at a trained quantizer of dimension 4 and an
    input of width 6. *)
Lemma encode_checks_no_width_witness :
  (vector_dim pq42 < Z.of_nat (ncols wide42) ->
   exists codes,
     encode pq42 wide42 = Ok codes /\
     encode pq42 (slice_cols 0 (vector_dim pq42) wide42) = Ok codes /\
     Z.of_nat (ncols (slice_cols 0 (vector_dim pq42) wide42)) = vector_dim pq42) /\
  (Z.of_nat (ncols wide42) < vector_dim pq42 ->
   2 <= subvector_dim pq42 ->
   Z.of_nat (ncols wide42) <> vector_dim pq42 - subvector_dim pq42 + 1 ->
   encode pq42 wide42 = Raise (ValueError msg_broadcast)) /\
  (Z.of_nat (ncols wide42) < vector_dim pq42 ->
   subvector_dim pq42 = 1 \/
   Z.of_nat (ncols wide42) = vector_dim pq42 - subvector_dim pq42 + 1 ->
   exists codes, encode pq42 wide42 = Ok codes).
Proof.
  apply (encode_checks_no_width pq42 wide42).
  - exact pq42_Trained.
  - inspect_shape.
  - vm_compute. discriminate.
Defined.

(** C7, refuted as stated.  With 257 centroids, construction and
    training both succeed. *)
Lemma training_accepts_257_centroids :
  init 1 257 1 = Ok pq257_fresh /\
  256 < n_centroids pq257_fresh /\
  run_train [] pq257_fresh data257 50000 = (pq257, [], Ok tt) /\
  is_trained pq257 = true.
Proof. by vm_compute. Qed.

(** The statement of C7 at [ProductQuantizer(2, 256, 5)], at an empty
    input for [ProductQuantizer(2, 2, 4)] and for
    [ProductQuantizer(-2, 256, 4)], and at 257 centroids. *)
Lemma training_checks_witness :
  (2 <> 0 -> 5 mod 2 <> 0 -> init 2 256 5 = Raise AssertionError) /\
  (exists e g',
     run_train [] pq42_fresh (mk_ndarray 4 []) 50000 = (pq42_fresh, g', Raise e)) /\
  (init (-2) 256 4 = Ok (mk (-2) 256 4 (-2) [] false) /\
   run_train [] (mk (-2) 256 4 (-2) [] false) (mk_ndarray 4 []) 50000
   = (mk (-2) 256 4 (4 / -2) [] true, [], Ok tt)) /\
  (exists pq,
     run_train [] pq257_fresh data257 50000 = (pq, [], Ok tt) /\
     is_trained pq = true /\ n_centroids pq = 257).
Proof.
  split_and!.
  - apply (training_checks (list Z) scripted_choice first_rows_kmeans
             2 256 5 50000 [] pq42_fresh data42).
  - apply (training_checks (list Z) scripted_choice first_rows_kmeans
             2 2 4 50000 [] pq42_fresh (mk_ndarray 4 [])).
    + apply first_rows_kmeans_rejects_empty.
    + reflexivity.
    + lia.
    + reflexivity.
  - reflexivity.
  - apply (training_checks (list Z) scripted_choice first_rows_kmeans
             (-2) 256 4 50000 [] (mk (-2) 256 4 (-2) [] false) (mk_ndarray 4 [])).
    + reflexivity.
    + lia.
    + lia.
    + reflexivity.
  - destruct (training_checks (list Z) scripted_choice first_rows_kmeans
                1 257 1 50000 [] pq257_fresh data257) as (_ & _ & _ & H).
    apply (H eq_refl data257 [] eq_refl).
    intros m Hm. apply list_elem_of_singleton in Hm as ->. by vm_compute.
Defined.

(** C8, evaluated.  Four input vectors, two of them sampled: the same
    input and parameters, trained from two states of the random
    generator, give different codebooks. *)
Lemma training_differs_between_generator_states :
  len data4 = 4%nat /\
  run_train [0; 1] pq12_fresh data4 2
    = (ProductQuantizer.mk 1 2 1 1 [mk_ndarray 1 [[0]; [1]]%Q] true, [], Ok tt) /\
  run_train [2; 3] pq12_fresh data4 2
    = (ProductQuantizer.mk 1 2 1 1 [mk_ndarray 1 [[2]; [3]]%Q] true, [], Ok tt).
Proof. by vm_compute. Qed.

(** The statement of X2 at two inputs, one below and one above the
    sample size. *)
Lemma training_follows_the_drawn_rows_witness :
  (Z.of_nat (len data42) <= 50000 ->
   forall g1 g2,
     (run_train g1 pq42_fresh data42 50000).1.1 = (run_train g2 pq42_fresh data42 50000).1.1 /\
     (run_train g1 pq42_fresh data42 50000).2 = (run_train g2 pq42_fresh data42 50000).2) /\
  (forall g0,
     (run_train [2; 3] pq12_fresh data4 2).1.1
     = (run_train g0 pq12_fresh (mk_ndarray 1 [[2]; [3]]%Q) 2).1.1 /\
     (run_train [2; 3] pq12_fresh data4 2).2
     = (run_train g0 pq12_fresh (mk_ndarray 1 [[2]; [3]]%Q) 2).2).
Proof.
  split.
  - apply (training_follows_the_drawn_rows (list Z) scripted_choice first_rows_kmeans
             pq42_fresh data42 50000).
  - apply (proj2 (training_follows_the_drawn_rows (list Z) scripted_choice
                    first_rows_kmeans pq12_fresh data4 2)
             ltac:(vm_compute; reflexivity) [2; 3] [] [2; 3] (mk_ndarray 1 [[2]; [3]]%Q)
             eq_refl eq_refl).
Defined.

(** C2, evaluated.  Before training or fitting, [encode] and [quantize]
    raise their [ValueError]; [decode] returns an array of zeros and
    [dequantize] raises a [TypeError]. *)
Theorem use_before_training :
  (forall M K D d cbs vectors,
     encode (mk M K D d cbs false) vectors = Raise (ValueError msg_not_trained)) /\
  (forall lo hi vectors,
     ScalarQuantizer.quantize (ScalarQuantizer.mk lo hi false) vectors
     = Raise (ValueError ScalarQuantizer.msg_not_fitted)) /\
  (exists fresh, init_default = Ok fresh /\
     forall codes,
       decode fresh codes
       = Ok (mk_ndarray 1024 (replicate (len codes) (replicate 1024 0%Q)))) /\
  (forall quantized,
     ScalarQuantizer.dequantize ScalarQuantizer.init quantized = Raise TypeError).
Proof.
  split_and!; try done.
  eexists. split; [reflexivity|]. intros codes. reflexivity.
Qed.

(** Reading back the file just written. *)
Lemma load_save (self pq : t) (path : string) (fs : files) :
  load self path (save pq path fs) = Ok (from_dict self (to_dict pq)).
Proof. unfold load, save. by rewrite lookup_insert_eq. Qed.

(** C6, evaluated.  A model trained as [ProductQuantizer(2, 2, 4)],
    saved, and loaded into [ProductQuantizer()] no longer encodes: the
    slices keep the width 128 of the loading object.  Loaded into
    [ProductQuantizer(4, 2, 4)] it returns other codes. *)
Theorem reload_into_other_constructor :
  Trained pq42 /\
  encode pq42 vectors42 = Ok (mk_ndarray 2 [[1; 0]; [0; 1]]) /\
  (exists fresh loaded,
     init_default = Ok fresh /\
     load fresh "pq_codebook.pkl" (save pq42 "pq_codebook.pkl" ∅) = Ok loaded /\
     encode loaded vectors42 = Raise (ValueError msg_broadcast)) /\
  (exists fresh loaded,
     init 4 2 4 = Ok fresh /\
     load fresh "pq_codebook.pkl" (save pq42 "pq_codebook.pkl" ∅) = Ok loaded /\
     encode loaded vectors42 = Ok (mk_ndarray 2 [[1; 1]; [0; 0]])).
Proof.
  split_and!.
  - exact pq42_Trained.
  - by vm_compute.
  - eexists _, _. split; [reflexivity|]. split; [apply load_save|]. by vm_compute.
  - eexists _, _. split; [reflexivity|]. split; [apply load_save|]. by vm_compute.
Qed.

(** C10 (amended).  [load] overwrites the five pickled fields and leaves
    [subvector_dim] at the constructor's [vector_dim // n_subspaces].
    The loaded object is the saved model exactly when that quotient is
    the artifact's, in particular when the constructor's arguments are
    the artifact's; [encode] and [decode] then agree with the saved
    model. *)
Theorem load_keeps_subvector_dim (M0 K0 D0 : Z) (self pq : t)
    (path : string) (fs : files) :
  init M0 K0 D0 = Ok self ->
  subvector_dim pq = vector_dim pq / n_subspaces pq ->
  exists loaded,
    load self path (save pq path fs) = Ok loaded /\
    (n_subspaces loaded = n_subspaces pq /\
     n_centroids loaded = n_centroids pq /\
     vector_dim loaded = vector_dim pq /\
     codebooks loaded = codebooks pq /\
     is_trained loaded = is_trained pq /\
     subvector_dim loaded = D0 / M0) /\
    (loaded = pq <-> D0 / M0 = vector_dim pq / n_subspaces pq) /\
    (M0 = n_subspaces pq -> D0 = vector_dim pq ->
     forall vectors codes,
       encode loaded vectors = encode pq vectors /\
       decode loaded codes = decode pq codes).
Proof.
  intros Hinit Hpq.
  assert (subvector_dim self = D0 / M0) as Hd
    by (by apply init_fields in Hinit as (_ & _ & ->)).
  exists (from_dict self (to_dict pq)). split; [apply load_save|].
  assert (from_dict self (to_dict pq) = pq
          <-> D0 / M0 = vector_dim pq / n_subspaces pq) as Hiff.
  { destruct pq as [M K D d cbs tr]. unfold from_dict, to_dict. simpl in *. split.
    - intros [= E]. congruence.
    - intros E. f_equal. congruence. }
  split_and!; try done.
  intros -> ->. intros vectors codes.
  by rewrite (proj2 Hiff eq_refl).
Qed.

(** The statement of C10 at a model reloaded into an object built with
    its own arguments. *)
Lemma load_keeps_subvector_dim_witness :
  exists loaded,
    load pq42_fresh "pq_codebook.pkl" (save pq42 "pq_codebook.pkl" ∅) = Ok loaded /\
    (n_subspaces loaded = n_subspaces pq42 /\
     n_centroids loaded = n_centroids pq42 /\
     vector_dim loaded = vector_dim pq42 /\
     codebooks loaded = codebooks pq42 /\
     is_trained loaded = is_trained pq42 /\
     subvector_dim loaded = 4 / 2) /\
    (loaded = pq42 <-> 4 / 2 = vector_dim pq42 / n_subspaces pq42) /\
    (2 = n_subspaces pq42 -> 4 = vector_dim pq42 ->
     forall vectors codes,
       encode loaded vectors = encode pq42 vectors /\
       decode loaded codes = decode pq42 codes).
Proof.
  apply (load_keeps_subvector_dim 2 2 4 pq42_fresh pq42 "pq_codebook.pkl" ∅).
  - reflexivity.
  - reflexivity.
Defined.

(** C10, refuted as stated.  [ProductQuantizer(1, 7, 2)] loading the
    artifact of a [ProductQuantizer(2, 2, 4)] becomes that model, though
    neither [n_subspaces] nor [vector_dim] matched. *)
Lemma load_matches_on_equal_quotient :
  exists fresh loaded,
    init 1 7 2 = Ok fresh /\
    n_subspaces pq42 = 2 /\ vector_dim pq42 = 4 /\
    load fresh "pq_codebook.pkl" (save pq42 "pq_codebook.pkl" ∅) = Ok loaded /\
    loaded = pq42 /\
    encode loaded vectors42 = encode pq42 vectors42.
Proof.
  eexists _, _. split; [reflexivity|]. split; [reflexivity|]. split; [reflexivity|].
  split; [apply load_save|]. by vm_compute.
Qed.

End ProductFacts.

(** ** The product quantizer: [decode], retraining *)

Module DecodeFacts.
Import ProductQuantizer ProductSpec DecodeSpec Examples Runs ProductFacts.

(** Writing [v] over the columns [lo, lo + w) of a row. *)
Lemma splice_lookup {A} (row v : list A) (lo w j : nat) :
  (lo + w <= length row)%nat -> length v = w ->
  (take lo row ++ take w v ++ drop (lo + w) row) !! j
  = if decide (j < lo)%nat then row !! j
    else if decide (j < lo + w)%nat then v !! (j - lo)%nat
    else row !! j.
Proof.
  intros Hrow Hv. rewrite (take_ge v) by lia.
  assert (length (take lo row) = lo) as Hl by (rewrite length_take; lia).
  destruct (decide (j < lo)%nat) as [H1|H1].
  - rewrite lookup_app_l by lia. by rewrite lookup_take_lt.
  - rewrite lookup_app_r by lia. rewrite Hl.
    destruct (decide (j < lo + w)%nat) as [H2|H2].
    + by rewrite lookup_app_l by lia.
    + rewrite lookup_app_r by lia. rewrite lookup_drop. f_equal. lia.
Qed.

Lemma splice_length {A} (row v : list A) (lo w : nat) :
  (lo + w <= length row)%nat -> length v = w ->
  length (take lo row ++ take w v ++ drop (lo + w) row) = length row.
Proof.
  intros Hrow Hv. rewrite !length_app, !length_take, length_drop. lia.
Qed.

(** The written columns read back as [v]. *)
Lemma splice_read_same {A} (row v : list A) (lo w : nat) :
  (lo + w <= length row)%nat -> length v = w ->
  take w (drop lo (take lo row ++ take w v ++ drop (lo + w) row)) = v.
Proof.
  intros Hrow Hv. apply list_eq. intros j.
  rewrite lookup_take, lookup_drop, splice_lookup by done.
  destruct (decide (j < w)%nat) as [H1|H1].
  - destruct (decide (lo + j < lo)%nat); [lia|].
    destruct (decide (lo + j < lo + w)%nat); [|lia]. f_equal. lia.
  - symmetry. apply lookup_ge_None. lia.
Qed.

(** Columns away from the written ones read back as before. *)
Lemma splice_read_other {A} (row v : list A) (lo w a n : nat) :
  (lo + w <= length row)%nat -> length v = w ->
  (a + n <= lo \/ lo + w <= a)%nat ->
  take n (drop a (take lo row ++ take w v ++ drop (lo + w) row))
  = take n (drop a row).
Proof.
  intros Hrow Hv Hdis. apply list_eq. intros j.
  rewrite !lookup_take, !lookup_drop, splice_lookup by done.
  destruct (decide (j < n)%nat) as [H1|H1]; [|done].
  destruct (decide (a + j < lo)%nat); [done|].
  destruct (decide (a + j < lo + w)%nat); [lia|done].
Qed.

Lemma row_at_spec {A} (a : ndarray A) (c : Z) (r : list A) :
  row_at a c = Ok r <->
  - Z.of_nat (len a) <= c < Z.of_nat (len a) /\ rows a !! wrap_index c (len a) = Some r.
Proof.
  unfold row_at, wrap_index.
  destruct (Z.ltb_spec c 0) as [Hneg|Hpos].
  - destruct (Z.ltb_spec (c + Z.of_nat (len a)) 0) as [H1|H1].
    + split; [done|]. intros [? _]. lia.
    + destruct (rows a !! Z.to_nat (c + Z.of_nat (len a))) as [r'|] eqn:Hr.
      * split; [intros [= <-]; split; [lia|done]|]. by intros [_ [= <-]].
      * split; [done|]. by intros [_ ?].
  - destruct (Z.ltb_spec c 0) as [?|_]; [lia|].
    destruct (rows a !! Z.to_nat c) as [r'|] eqn:Hr.
    + split; [intros [= <-]; split; [|done]|by intros [_ [= <-]]].
      apply lookup_lt_Some in Hr. unfold len. lia.
    + split; [done|]. by intros [_ ?].
Qed.

Lemma row_at_total {A} (a : ndarray A) (c : Z) :
  - Z.of_nat (len a) <= c < Z.of_nat (len a) -> exists r, row_at a c = Ok r.
Proof.
  intros Hc.
  destruct (lookup_lt_is_Some_2 (rows a) (wrap_index c (len a))) as [r Hr].
  { unfold wrap_index, len in *. destruct (Z.ltb_spec c 0); lia. }
  exists r. by apply row_at_spec.
Qed.

Lemma row_at_raises {A} (a : ndarray A) (c : Z) (e : exn) :
  row_at a c = Raise e ->
  e = IndexError /\ (c < - Z.of_nat (len a) \/ Z.of_nat (len a) <= c).
Proof.
  intros H.
  destruct (decide (- Z.of_nat (len a) <= c < Z.of_nat (len a))) as [Hc|Hc].
  - destruct (row_at_total a c Hc) as [r Hr]. congruence.
  - split; [|lia]. unfold row_at in H. cbv zeta in H.
    destruct (_ <? 0) in H; [by injection H|].
    destruct (rows a !! _) in H; [done|by injection H].
Qed.

(** One turn of the loop of [decode]: the centroid named by each code is
    written over the columns of the subspace. *)
Lemma decode_step (cb : ndarray Q) (codes : ndarray Z) (recon : ndarray Q)
    (m lo w : nat) (start stop : Z) :
  well_shaped codes -> (m < ncols codes)%nat ->
  (forall i crow c, rows codes !! i = Some crow -> crow !! m = Some c ->
     - Z.of_nat (len cb) <= c < Z.of_nat (len cb)) ->
  well_shaped cb -> ncols cb = w ->
  well_shaped recon -> len recon = len codes ->
  slice_bound start (ncols recon) = lo ->
  slice_bound stop (ncols recon) = (lo + w)%nat ->
  exists col picked recon',
    get_col m codes = Ok col /\ index_rows cb col = Ok picked /\
    assign_cols start stop picked recon = Ok recon' /\
    ncols recon' = ncols recon /\ len recon' = len recon /\ well_shaped recon' /\
    forall i crow r0,
      rows codes !! i = Some crow -> rows recon !! i = Some r0 ->
      exists c centroid,
        crow !! m = Some c /\ row_at cb c = Ok centroid /\
        rows recon' !! i = Some (take lo r0 ++ take w centroid ++ drop (lo + w) r0).
Proof.
  intros Hcodes Hm Hvalid Hcb Hw Hrecon Hlen Hlo Hhi.
  assert (lo + w <= ncols recon)%nat as Hin.
  { rewrite <- Hhi. apply slice_bound_le. }
  (* the column *)
  set (col := map (fun row => default 0 (row !! m)) (rows codes)).
  assert (get_col m codes = Ok col) as Hcol.
  { unfold get_col. by destruct (Nat.ltb_spec m (ncols codes)); [|lia]. }
  (* the centroids it names *)
  assert (forall i crow, rows codes !! i = Some crow ->
            exists c, crow !! m = Some c /\ col !! i = Some c) as Hcoli.
  { intros i crow Hi.
    destruct (lookup_lt_is_Some_2 crow m) as [c Hc].
    { pose proof (Forall_lookup_1 _ _ _ _ Hcodes Hi) as Hl. simpl in Hl. lia. }
    exists c. split; [done|]. unfold col. by rewrite list_lookup_fmap, Hi; simpl; rewrite Hc. }
  destruct (traverse_total (row_at cb) col) as [rs Hrs].
  { apply Forall_lookup. intros i c Hc. unfold col in Hc.
    rewrite list_lookup_fmap in Hc.
    destruct (rows codes !! i) as [crow|] eqn:Hi; [|done]. simpl in Hc.
    destruct (Hcoli i crow Hi) as (c' & Hc' & _). rewrite Hc' in Hc. simpl in Hc.
    injection Hc as <-.
    destruct (row_at_total cb c' (Hvalid i crow c' Hi Hc')) as [r Hr]. eauto. }
  assert (index_rows cb col = Ok (mk_ndarray (ncols cb) rs)) as Hpicked.
  { unfold index_rows. by rewrite Hrs. }
  assert (length rs = len codes) as Hrsl.
  { apply traverse_length in Hrs. unfold col in Hrs. by rewrite length_map in Hrs. }
  assert (forall i crow, rows codes !! i = Some crow ->
            exists c centroid, crow !! m = Some c /\
              row_at cb c = Ok centroid /\ rs !! i = Some centroid) as Hrsi.
  { intros i crow Hi. destruct (Hcoli i crow Hi) as (c & Hc & Hci).
    destruct (traverse_lookup _ _ _ _ _ Hrs Hci) as (r & Hr & Hat). eauto. }
  set (recon' := mk_ndarray (ncols recon)
         (zip_with (fun row v => take lo row ++ take w (stretch w v) ++ drop (lo + w) row)
                   (rows recon) rs)).
  assert (assign_cols start stop (mk_ndarray (ncols cb) rs) recon = Ok recon') as Hassign.
  { unfold assign_cols. rewrite Hlo, Hhi. cbn [ncols rows].
    replace (lo + w - lo)%nat with w by lia. rewrite Hw, Nat.eqb_refl. done. }
  exists col, (mk_ndarray (ncols cb) rs), recon'.
  split_and!; try done.
  - unfold len, recon' in *. cbn [rows]. rewrite length_zip_with. lia.
  - unfold well_shaped, recon'. cbn [rows ncols].
    apply Forall_lookup. intros i r Hr.
    apply lookup_zip_with_Some in Hr as (r0 & v & -> & Hr0 & Hv).
    pose proof (Forall_lookup_1 _ _ _ _ Hrecon Hr0) as Hl0. cbn beta in Hl0.
    assert (length v = w) as Hvl.
    { destruct (lookup_lt_is_Some_2 (rows codes) i) as [crow Hi].
      { apply lookup_lt_Some in Hv. unfold len in Hrsl. lia. }
      destruct (Hrsi i crow Hi) as (c & centroid & _ & Hcen & Hrs').
      rewrite Hv in Hrs'. injection Hrs' as ->.
      apply row_at_spec in Hcen as [_ Hcen].
      pose proof (Forall_lookup_1 _ _ _ _ Hcb Hcen) as Hlc. cbn beta in Hlc. lia. }
    rewrite stretch_id by done. rewrite splice_length; lia.
  - intros i crow r0 Hi Hr0.
    destruct (Hrsi i crow Hi) as (c & centroid & Hc & Hcen & Hrs').
    exists c, centroid. split_and!; try done.
    unfold recon'. cbn [rows]. rewrite lookup_zip_with, Hr0. simpl. rewrite Hrs'. simpl.
    apply row_at_spec in Hcen as [_ Hcen].
    pose proof (Forall_lookup_1 _ _ _ _ Hcb Hcen) as Hlc. cbn beta in Hlc.
    by rewrite stretch_id by lia.
Qed.

Lemma slice_bound_mul (m dn n : nat) :
  (m * dn <= n)%nat -> slice_bound (Z.of_nat m * Z.of_nat dn) n = (m * dn)%nat.
Proof. intros H. rewrite slice_bound_nonneg; lia. Qed.

Lemma slice_bound_mul_add (m dn n : nat) :
  (m * dn + dn <= n)%nat ->
  slice_bound (Z.of_nat m * Z.of_nat dn + Z.of_nat dn) n = (m * dn + dn)%nat.
Proof. intros H. rewrite slice_bound_nonneg; lia. Qed.

(** The slice of subspace [m] of a row wide enough. *)
Lemma slice_subspace {A} (m dn : nat) (l : list A) :
  (m * dn + dn <= length l)%nat ->
  slice (Z.of_nat m * Z.of_nat dn) (Z.of_nat m * Z.of_nat dn + Z.of_nat dn) l
  = take dn (drop (m * dn) l).
Proof.
  intros H. unfold slice.
  rewrite slice_bound_mul, slice_bound_mul_add by lia. f_equal. lia.
Qed.

(** The loop of [decode]: each subspace of each output row becomes the
    centroid its code names; the other columns are left alone. *)
Lemma decode_loop_spec (self : t) (codes : ndarray Z) (dn : nat)
    (cbs : list (ndarray Q)) :
  subvector_dim self = Z.of_nat dn -> well_shaped codes ->
  forall (m0 : nat) (recon : ndarray Q),
  well_shaped recon -> len recon = len codes ->
  (m0 + length cbs <= ncols codes)%nat ->
  ((m0 + length cbs) * dn <= ncols recon)%nat ->
  (forall k cb, cbs !! k = Some cb ->
     well_shaped cb /\ ncols cb = dn /\
     forall i crow c, rows codes !! i = Some crow -> crow !! (m0 + k)%nat = Some c ->
       - Z.of_nat (len cb) <= c < Z.of_nat (len cb)) ->
  exists out,
    decode_loop self codes m0 cbs recon = Ok out /\
    ncols out = ncols recon /\ len out = len recon /\ well_shaped out /\
    forall i crow, rows codes !! i = Some crow ->
      exists r0 r,
        rows recon !! i = Some r0 /\ rows out !! i = Some r /\
        (forall k cb, cbs !! k = Some cb ->
           exists c centroid,
             crow !! (m0 + k)%nat = Some c /\
             row_at cb c = Ok centroid /\
             take dn (drop ((m0 + k) * dn) r) = centroid) /\
        (forall a n, (a + n <= m0 * dn \/ (m0 + length cbs) * dn <= a)%nat ->
           take n (drop a r) = take n (drop a r0)).
Proof.
  intros Hd Hcodes. induction cbs as [|cb cbs IH]; intros m0 recon Hrecon Hlen Hm Hwide Hcbs.
  - exists recon. cbn [decode_loop]. split_and!; try done.
    intros i crow Hi.
    destruct (lookup_lt_is_Some_2 (rows recon) i) as [r0 Hr0].
    { apply lookup_lt_Some in Hi. unfold len in Hlen. lia. }
    exists r0, r0. split_and!; try done.
  - cbn [length] in Hm, Hwide. cbn [decode_loop]. rewrite Hd.
    destruct (Hcbs 0%nat cb eq_refl) as (Hcb & Hw & Hvalid).
    rewrite Nat.add_0_r in Hvalid.
    destruct (decode_step cb codes recon m0 (m0 * dn) dn
                (Z.of_nat m0 * Z.of_nat dn)
                (Z.of_nat m0 * Z.of_nat dn + Z.of_nat dn))
      as (col & picked & recon' & H1 & H2 & H3 & Hnc & Hnl & Hws & Hstep);
      try done; try lia.
    { apply slice_bound_mul. lia. }
    { apply slice_bound_mul_add. lia. }
    rewrite H1. cbn [mbind result_bind]. rewrite H2. cbn [mbind result_bind].
    rewrite H3. cbn [mbind result_bind].
    assert (len recon' = len codes) as Hlen' by congruence.
    assert (S m0 + length cbs <= ncols codes)%nat as Hm' by lia.
    assert ((S m0 + length cbs) * dn <= ncols recon')%nat as Hwide'
      by (rewrite Hnc; lia).
    destruct (IH (S m0) recon' Hws Hlen' Hm' Hwide')
      as (out & Hout & Hnc' & Hnl' & Hws' & Hspec).
    { intros k cb' Hk. replace (S m0 + k)%nat with (m0 + S k)%nat by lia.
      by apply Hcbs. }
    exists out. split_and!; try done; try congruence.
    intros i crow Hi.
    destruct (Hspec i crow Hi) as (r1 & r & Hr1 & Hr & Hnew & Hkeep).
    destruct (lookup_lt_is_Some_2 (rows recon) i) as [r0 Hr0].
    { apply lookup_lt_Some in Hi. unfold len in Hlen. lia. }
    destruct (Hstep i crow r0 Hi Hr0) as (c & centroid & Hc & Hcen & Hr1').
    rewrite Hr1 in Hr1'. injection Hr1' as ->.
    pose proof (Forall_lookup_1 _ _ _ _ Hrecon Hr0) as Hl0. cbn beta in Hl0.
    pose proof (proj2 (proj1 (row_at_spec _ _ _) Hcen)) as Hcen'.
    pose proof (Forall_lookup_1 _ _ _ _ Hcb Hcen') as Hlc. cbn beta in Hlc.
    exists r0, r. split_and!; try done.
    + intros [|k] cb' Hk; cbn [lookup list_lookup] in Hk.
      * injection Hk as <-. rewrite Nat.add_0_r.
        exists c, centroid. split_and!; try done.
        rewrite Hkeep by lia. apply splice_read_same; lia.
      * simpl in Hk. destruct (Hnew k cb' Hk) as (c' & centroid' & ? & ? & ?).
        exists c', centroid'. by replace (m0 + S k)%nat with (S m0 + k)%nat by lia.
    + intros a n Han. cbn [length] in Han. rewrite Hkeep by lia.
      apply splice_read_other; lia.
Qed.

(** [decode] on a trained model and codes that index its codebooks: it
    returns, and each subspace of each row is the centroid the code names. *)
Lemma decode_ok (pq : t) (codes : ndarray Z) :
  Trained pq -> well_shaped codes ->
  n_subspaces pq <= Z.of_nat (ncols codes) ->
  (forall i crow m c, rows codes !! i = Some crow -> Z.of_nat m < n_subspaces pq ->
     crow !! m = Some c -> - n_centroids pq <= c < n_centroids pq) ->
  exists recon,
    decode pq codes = Ok recon /\
    Z.of_nat (ncols recon) = vector_dim pq /\ len recon = len codes /\
    well_shaped recon /\
    forall i crow m cb c,
      rows codes !! i = Some crow -> codebooks pq !! m = Some cb ->
      crow !! m = Some c ->
      exists r centroid,
        rows recon !! i = Some r /\ row_at cb c = Ok centroid /\
        slice (start_of pq m) (stop_of pq m) r = centroid.
Proof.
  intros T Hcodes Hm Hvalid. pose proof T as [Hf HM HK Hd HD Hn Hb].
  unfold decode.
  assert (0 <= vector_dim pq) as HD0 by (rewrite HD; apply Z.mul_nonneg_nonneg; lia).
  rewrite zeros_ok by done. cbn [mbind result_bind].
  set (recon0 := mk_ndarray (Z.to_nat (vector_dim pq))
                   (replicate (len codes) (replicate (Z.to_nat (vector_dim pq)) 0%Q))).
  assert (subvector_dim pq = Z.of_nat (Z.to_nat (subvector_dim pq))) as Hdn by lia.
  destruct (decode_loop_spec pq codes (Z.to_nat (subvector_dim pq)) (codebooks pq)
              Hdn Hcodes 0%nat recon0)
    as (out & Hout & Hnc & Hnl & Hws & Hspec).
  - unfold well_shaped, recon0. cbn [rows ncols]. apply Forall_replicate.
    by rewrite length_replicate.
  - unfold len, recon0. cbn [rows]. by rewrite length_replicate.
  - lia.
  - unfold recon0. cbn [ncols Nat.add]. nia.
  - intros k cb Hk. cbn [Nat.add].
    pose proof (Forall_lookup_1 _ _ _ _ Hb Hk) as (H1 & H2 & H3). cbn beta in *.
    split_and!; [done|lia|].
    intros i crow c Hi Hc. rewrite H3. apply (Hvalid i crow k c Hi); [|done].
    apply lookup_lt_Some in Hk. lia.
  - exists out. split_and!; try done.
    + rewrite Hnc. unfold recon0. cbn [ncols]. lia.
    + rewrite Hnl. unfold len, recon0. cbn [rows]. by rewrite length_replicate.
    + intros i crow m cb c Hi Hcb Hc.
      destruct (Hspec i crow Hi) as (r0 & r & _ & Hr & Hnew & _).
      destruct (Hnew m cb Hcb) as (c' & centroid & Hc' & Hcen & Hslice).
      cbn [Nat.add] in *. rewrite Hc in Hc'. injection Hc' as <-.
      exists r, centroid. split_and!; try done.
      unfold stop_of, start_of. rewrite Hdn.
      rewrite slice_subspace; [done|].
      pose proof (Forall_lookup_1 _ _ _ _ Hws Hr) as Hlr. cbn beta in Hlr.
      apply lookup_lt_Some in Hcb.
      rewrite Hlr, Hnc. unfold recon0. cbn [ncols]. nia.
Qed.

(** Two arrays of one shape with the same entries are the same array. *)
Lemma ndarray_ext {A} (a b : ndarray A) :
  well_shaped a -> well_shaped b -> ncols a = ncols b -> len a = len b ->
  (forall i ra rb m, rows a !! i = Some ra -> rows b !! i = Some rb ->
     (m < ncols a)%nat -> ra !! m = rb !! m) ->
  a = b.
Proof.
  intros Ha Hb Hn Hl Hent. destruct a as [na ra], b as [nb rb]. simpl in *.
  subst nb. f_equal. unfold len in Hl. simpl in Hl.
  apply list_eq_same_length with (length ra); try done.
  intros i x y Hi Hx Hy.
  pose proof (Forall_lookup_1 _ _ _ _ Ha Hx) as Hlx.
  pose proof (Forall_lookup_1 _ _ _ _ Hb Hy) as Hly. simpl in *.
  apply list_eq_same_length with na; try done.
  intros m u v Hm Hu Hv. specialize (Hent i x y m Hx Hy Hm).
  rewrite Hu, Hv in Hent. by injection Hent.
Qed.

Lemma traverse_raises {A B} (f : A -> result B) (l : list A) (e : exn) :
  traverse f l = Raise e -> exists x, x ∈ l /\ f x = Raise e.
Proof.
  induction l as [|x l IH]; [done|]. cbn [traverse].
  destruct (f x) as [y|e'] eqn:Hx; cbn [mbind result_bind].
  - destruct (traverse f l) as [ys|e'] eqn:Hl; cbn [mbind result_bind]; [done|].
    intros [= ->]. destruct (IH eq_refl) as (x' & Hin & Hx'). exists x'.
    split; [by apply elem_of_cons; right|done].
  - intros [= ->]. exists x. split; [apply elem_of_cons; by left|done].
Qed.

(** What a returning loop of [decode] has checked: a code column per
    codebook, holding indices of that codebook. *)
Lemma decode_loop_returns (self : t) (codes : ndarray Z) (cbs : list (ndarray Q)) :
  forall (m0 : nat) (recon out : ndarray Q),
  decode_loop self codes m0 cbs recon = Ok out ->
  forall k cb, cbs !! k = Some cb ->
    (m0 + k < ncols codes)%nat /\
    forall i crow c, rows codes !! i = Some crow -> crow !! (m0 + k)%nat = Some c ->
      - Z.of_nat (len cb) <= c < Z.of_nat (len cb).
Proof.
  induction cbs as [|cb0 cbs IH]; intros m0 recon out Hout k cb Hk; [done|].
  cbn [decode_loop] in Hout.
  destruct (get_col m0 codes) as [col|] eqn:Hcol; [|done].
  cbn [mbind result_bind] in Hout.
  destruct (index_rows cb0 col) as [picked|] eqn:Hpick; [|done].
  cbn [mbind result_bind] in Hout.
  destruct (assign_cols _ _ picked recon) as [recon'|] eqn:Has; [|done].
  cbn [mbind result_bind] in Hout.
  destruct k as [|k].
  - injection Hk as ->. rewrite Nat.add_0_r.
    unfold get_col in Hcol. destruct (Nat.ltb_spec m0 (ncols codes)); [|done].
    injection Hcol as <-. split; [done|].
    intros i crow c Hi Hc. unfold index_rows in Hpick.
    destruct (traverse (row_at cb) _) as [rs|] eqn:Hrs; [|done].
    destruct (traverse_lookup _ _ _ i c Hrs) as (r & _ & Hr).
    { by rewrite list_lookup_fmap, Hi; simpl; rewrite Hc. }
    by apply row_at_spec in Hr as [? _].
  - replace (m0 + S k)%nat with (S m0 + k)%nat by lia.
    by apply (IH (S m0) recon' out Hout k cb).
Qed.

(** The only exception of the loop of [decode] on codebooks of the
    model's subspace width is the [IndexError]. *)
Lemma decode_loop_raises (self : t) (codes : ndarray Z) (dn : nat)
    (cbs : list (ndarray Q)) :
  subvector_dim self = Z.of_nat dn ->
  forall (m0 : nat) (recon : ndarray Q) (e : exn),
  ((m0 + length cbs) * dn <= ncols recon)%nat ->
  Forall (fun cb => ncols cb = dn) cbs ->
  decode_loop self codes m0 cbs recon = Raise e -> e = IndexError.
Proof.
  intros Hd. induction cbs as [|cb cbs IH]; intros m0 recon e Hwide Hcbs H; [done|].
  cbn [length] in Hwide. apply Forall_cons in Hcbs as [Hw Hcbs].
  cbn [decode_loop] in H.
  destruct (get_col m0 codes) as [col|e1] eqn:Hcol; cbn [mbind result_bind] in H.
  2:{ unfold get_col in Hcol. destruct (_ <? _)%nat; [done|]. congruence. }
  destruct (index_rows cb col) as [picked|e2] eqn:Hpick; cbn [mbind result_bind] in H.
  2:{ unfold index_rows in Hpick.
      destruct (traverse (row_at cb) col) as [rs|e3] eqn:Hrs; [done|].
      cbn [mbind result_bind] in Hpick.
      destruct (traverse_raises _ _ _ Hrs) as (c & _ & Hc).
      apply row_at_raises in Hc as [-> _]. congruence. }
  assert (ncols picked = dn) as Hpw.
  { unfold index_rows in Hpick. destruct (traverse _ _); [|done].
    cbn [mbind result_bind] in Hpick. by injection Hpick as <-. }
  unfold assign_cols in H. rewrite Hd in H.
  rewrite slice_bound_mul, slice_bound_mul_add in H by lia.
  replace (m0 * dn + dn - m0 * dn)%nat with dn in H by lia.
  rewrite Hpw, Nat.eqb_refl in H. cbn [orb mbind result_bind] in H.
  eapply (IH (S m0)); [| done | exact H]. cbn [ncols]. lia.
Qed.

Lemma indexable_lookup (pq : t) (codes : ndarray Z) :
  indexable pq codes ->
  forall i crow m c, rows codes !! i = Some crow -> Z.of_nat m < n_subspaces pq ->
    crow !! m = Some c -> - n_centroids pq <= c < n_centroids pq.
Proof.
  intros [_ H] i crow m c Hi Hm Hc.
  pose proof (Forall_lookup_1 _ _ _ _ H Hi) as Hrow. cbn beta in Hrow.
  apply (Forall_lookup_1 _ _ m _ Hrow).
  apply lookup_take_Some. split; [done|lia].
Qed.

(** X3.  On a trained model and codes that index its codebooks (one
    column per subspace at least, entries in [-K, K)), [decode] returns
    an array of shape (N, vector_dim) whose subspace [m] of row [i] is
    the centroid of codebook [m] named by [codes[i, m]], a negative code
    counting from the last centroid; code columns past the last subspace
    are not read. *)
Theorem decode_returns_the_named_centroids (pq : t) (codes : ndarray Z) :
  Trained pq -> well_shaped codes -> indexable pq codes ->
  exists recon,
    decode pq codes = Ok recon /\
    Z.of_nat (ncols recon) = vector_dim pq /\ len recon = len codes /\
    well_shaped recon /\
    forall i crow m cb c,
      rows codes !! i = Some crow -> codebooks pq !! m = Some cb ->
      crow !! m = Some c ->
      exists r,
        rows recon !! i = Some r /\
        rows cb !! Z.to_nat (if c <? 0 then c + n_centroids pq else c)
        = Some (slice (start_of pq m) (stop_of pq m) r).
Proof.
  intros T Hws Hidx.
  destruct (decode_ok pq codes T Hws (proj1 Hidx) (indexable_lookup pq codes Hidx))
    as (recon & Hdec & Hnc & Hnl & Hrws & Hspec).
  exists recon. split_and!; try done.
  intros i crow m cb c Hi Hcb Hc.
  destruct (Hspec i crow m cb c Hi Hcb Hc) as (r & centroid & Hr & Hcen & Hsl).
  exists r. split; [done|].
  apply row_at_spec in Hcen as [_ Hcen]. unfold wrap_index in Hcen.
  pose proof (Forall_lookup_1 _ _ _ _ (trained_books pq T) Hcb) as (_ & _ & Hcl).
  cbn beta in Hcl. by rewrite Hcl, <- Hsl in Hcen.
Qed.

(** The statement of X3 at the model of two subspaces and codes with
    negative entries and a third column. *)
Lemma decode_returns_the_named_centroids_witness :
  exists recon,
    decode pq42 codes42_signed = Ok recon /\
    Z.of_nat (ncols recon) = vector_dim pq42 /\ len recon = len codes42_signed /\
    well_shaped recon /\
    forall i crow m cb c,
      rows codes42_signed !! i = Some crow -> codebooks pq42 !! m = Some cb ->
      crow !! m = Some c ->
      exists r,
        rows recon !! i = Some r /\
        rows cb !! Z.to_nat (if c <? 0 then c + n_centroids pq42 else c)
        = Some (slice (start_of pq42 m) (stop_of pq42 m) r).
Proof.
  apply (decode_returns_the_named_centroids pq42 codes42_signed).
  - exact pq42_Trained.
  - inspect_shape.
  - split; [by vm_compute|]. repeat constructor; by vm_compute.
Defined.

(** X6.  On a trained model [decode] returns exactly for the codes
    that index its codebooks: a column for every subspace, and in those
    columns entries in [-K, K).  For all other codes it raises an
    [IndexError], and no other exception. *)
Theorem decode_returns_iff_codes_index (pq : t) (codes : ndarray Z) :
  Trained pq -> well_shaped codes ->
  ((exists recon, decode pq codes = Ok recon) <-> indexable pq codes) /\
  (decode pq codes = Raise IndexError <-> ~ indexable pq codes).
Proof.
  intros T Hws. pose proof T as [Hf HM HK Hd HD Hn Hb].
  assert (0 <= vector_dim pq) as HD0 by (rewrite HD; apply Z.mul_nonneg_nonneg; lia).
  assert ((exists recon, decode pq codes = Ok recon) <-> indexable pq codes) as Hiff.
  { split.
    - intros [recon Hdec]. unfold decode in Hdec.
      rewrite zeros_ok in Hdec by done. cbn [mbind result_bind] in Hdec.
      pose proof (decode_loop_returns _ _ _ _ _ _ Hdec) as Hret. cbn [Nat.add] in Hret.
      split.
      + destruct (lookup_lt_is_Some_2 (codebooks pq) (Z.to_nat (n_subspaces pq - 1)))
          as [cb Hcb]; [lia|].
        destruct (Hret _ _ Hcb) as [Hlt _]. lia.
      + apply Forall_lookup. intros i crow Hi. apply Forall_lookup. intros m c Hc.
        apply lookup_take_Some in Hc as [Hc Hm].
        destruct (lookup_lt_is_Some_2 (codebooks pq) m) as [cb Hcb]; [lia|].
        destruct (Hret _ _ Hcb) as [_ Hrange].
        pose proof (Forall_lookup_1 _ _ _ _ Hb Hcb) as (_ & _ & Hcl). cbn beta in Hcl.
        rewrite <- Hcl. by apply (Hrange i crow).
    - intros Hidx.
      destruct (decode_ok pq codes T Hws (proj1 Hidx) (indexable_lookup pq codes Hidx))
        as (recon & Hdec & _). eauto. }
  split; [done|]. split.
  - intros Hraise Hidx. apply Hiff in Hidx as [recon Hdec]. congruence.
  - intros Hno. destruct (decode pq codes) as [recon|e] eqn:Hdec.
    + destruct Hno. apply Hiff. eauto.
    + f_equal. unfold decode in Hdec.
      rewrite zeros_ok in Hdec by done. cbn [mbind result_bind] in Hdec.
      apply (decode_loop_raises pq codes (Z.to_nat (subvector_dim pq)) (codebooks pq))
        in Hdec; [done|lia|..].
      * cbn [ncols Nat.add]. nia.
      * eapply Forall_impl; [exact Hb|]. intros cb (_ & ? & _). lia.
Qed.

(** The statement of X6 at the model of two subspaces and codes with
    an entry that is no index of its two centroids. *)
Lemma decode_returns_iff_codes_index_witness :
  ((exists recon, decode pq42 codes42_bad = Ok recon) <-> indexable pq42 codes42_bad) /\
  (decode pq42 codes42_bad = Raise IndexError <-> ~ indexable pq42 codes42_bad).
Proof.
  apply (decode_returns_iff_codes_index pq42 codes42_bad).
  - exact pq42_Trained.
  - inspect_shape.
Defined.

Lemma encode_loop_returns (self : t) (vectors : ndarray Q) (cbs : list (ndarray Q)) :
  forall (m0 : nat) (codes out : ndarray Z),
  encode_loop self vectors m0 cbs codes = Ok out ->
  (m0 + length cbs <= ncols codes \/ cbs = [])%nat.
Proof.
  induction cbs as [|cb cbs IH]; intros m0 codes out Hout; [by right|]. left.
  cbn [encode_loop] in Hout.
  destruct (sq_distances _ cb) as [dist|] eqn:Hdist; [|done].
  cbn [mbind result_bind] in Hout.
  destruct (argmin_axis1 dist) as [nearest|] eqn:Hnear; [|done].
  cbn [mbind result_bind] in Hout.
  destruct (set_col m0 _ codes) as [codes'|] eqn:Hset; [|done].
  cbn [mbind result_bind] in Hout.
  unfold set_col in Hset. destruct (Nat.ltb_spec m0 (ncols codes)); [|done].
  injection Hset as <-.
  destruct (IH _ _ _ Hout) as [H'| ->]; cbn [ncols length] in *; lia.
Qed.

Section Retraining.

Variable rng : Type.
Variable choice : rng -> nat -> Z -> result (list Z) * rng.
Variable kmeans_fit : Z -> ndarray Q -> result (ndarray Q).

Lemma train_appends (g g' : rng) (self self' : t) (vectors : ndarray Q) (n_samples : Z) :
  train rng choice kmeans_fit g self vectors n_samples = (self', g', Ok tt) ->
  n_subspaces self' = n_subspaces self /\ vector_dim self' = vector_dim self /\
  is_trained self' = true /\
  exists new, codebooks self' = codebooks self ++ new /\
              length new = Z.to_nat (n_subspaces self).
Proof.
  unfold train.
  destruct (sample rng choice g vectors n_samples) as [[vs|e] g1]; [|done].
  destruct (train_loop _ _ _ _) as [self1 [[]|e]] eqn:Hloop; [|done].
  intros [= <- _].
  apply train_loop_spec in Hloop as (H1 & H2 & H3 & H4 & H5 & new & Hcb & _ & Hlen).
  rewrite range_length in Hlen.
  cbn [n_subspaces vector_dim is_trained codebooks]. split_and!; try done. eauto.
Qed.

(** X7.  [train] appends to [codebooks] and never clears it.  A second
    [train] on the same object leaves twice as many codebooks as
    subspaces, the first half being those of the first training; after
    it [encode] raises for every input, and [decode] raises for every
    array of codes with one column per subspace. *)
Theorem second_train_breaks_the_model (g1 g1' g2 g2' : rng) (pq0 pq1 pq2 : t)
    (v1 v2 : ndarray Q) (n1 n2 : Z) :
  0 < n_subspaces pq0 -> codebooks pq0 = [] ->
  train rng choice kmeans_fit g1 pq0 v1 n1 = (pq1, g1', Ok tt) ->
  train rng choice kmeans_fit g2 pq1 v2 n2 = (pq2, g2', Ok tt) ->
  Z.of_nat (length (codebooks pq1)) = n_subspaces pq0 /\
  Z.of_nat (length (codebooks pq2)) = 2 * n_subspaces pq0 /\
  take (length (codebooks pq1)) (codebooks pq2) = codebooks pq1 /\
  (forall vectors, is_ok (encode pq2 vectors) = false) /\
  (forall codes, Z.of_nat (ncols codes) = n_subspaces pq0 ->
     is_ok (decode pq2 codes) = false).
Proof.
  intros HM Hnil H1 H2.
  apply train_appends in H1 as (M1 & D1 & T1 & new1 & Hcb1 & Hl1).
  apply train_appends in H2 as (M2 & D2 & T2 & new2 & Hcb2 & Hl2).
  rewrite Hnil, app_nil_l in Hcb1.
  assert (Z.of_nat (length (codebooks pq2)) = 2 * n_subspaces pq0) as Hcount.
  { rewrite Hcb2, length_app, Hcb1. lia. }
  split_and!; try done.
  - rewrite Hcb1. lia.
  - by rewrite Hcb2, take_app_length.
  - intros vectors. unfold encode. rewrite T2. cbn [negb].
    rewrite zeros_ok by lia. cbn [mbind result_bind].
    destruct (encode_loop _ _ _ _ _) as [out|] eqn:Hout; [|done].
    apply encode_loop_returns in Hout as [Hout|Hout]; cbn [ncols Nat.add] in Hout.
    + lia.
    + rewrite Hout in Hcount. cbn [length] in Hcount. lia.
  - intros codes Hc. destruct (decode pq2 codes) as [out|] eqn:Hout; [|done].
    unfold decode in Hout. destruct (zeros _ _ _) as [recon|]; [|done].
    cbn [mbind result_bind] in Hout.
    pose proof (decode_loop_returns _ _ _ _ _ _ Hout) as Hret. cbn [Nat.add] in Hret.
    destruct (lookup_lt_is_Some_2 (codebooks pq2) (Z.to_nat (n_subspaces pq0)))
      as [cb Hcb]; [lia|].
    destruct (Hret _ _ Hcb) as [Hlt _]. lia.
Qed.

End Retraining.

(** The statement of X7 at the model of two subspaces, trained twice on
    the same two rows. *)
Lemma second_train_breaks_the_model_witness :
  Z.of_nat (length (codebooks pq42)) = n_subspaces pq42_fresh /\
  Z.of_nat (length (codebooks pq42_twice)) = 2 * n_subspaces pq42_fresh /\
  take (length (codebooks pq42)) (codebooks pq42_twice) = codebooks pq42 /\
  (forall vectors, is_ok (encode pq42_twice vectors) = false) /\
  (forall codes, Z.of_nat (ncols codes) = n_subspaces pq42_fresh ->
     is_ok (decode pq42_twice codes) = false).
Proof.
  apply (second_train_breaks_the_model (list Z) scripted_choice first_rows_kmeans
           [] [] [] [] pq42_fresh pq42 pq42_twice data42 data42 50000 50000).
  - by vm_compute.
  - reflexivity.
  - reflexivity.
  - reflexivity.
Defined.

(** X17.  [__init__] divides before it asserts: no subspace at all is a
    [ZeroDivisionError], a dimension the number of subspaces does not
    divide an [AssertionError].  Any other arguments are accepted, a
    negative number of subspaces too, and give an untrained object
    without codebooks whose subspaces tile the vector:
    [n_subspaces * subvector_dim = vector_dim]. *)
Theorem init_checks_divisibility (M K D : Z) :
  (M = 0 -> init M K D = Raise ZeroDivisionError) /\
  (M <> 0 -> D mod M <> 0 -> init M K D = Raise AssertionError) /\
  (M <> 0 -> D mod M = 0 ->
   exists pq,
     init M K D = Ok pq /\
     n_subspaces pq = M /\ n_centroids pq = K /\ vector_dim pq = D /\
     n_subspaces pq * subvector_dim pq = vector_dim pq /\
     codebooks pq = [] /\ is_trained pq = false /\
     forall vectors, encode pq vectors = Raise (ValueError msg_not_trained)).
Proof.
  unfold init. split_and!.
  - intros ->. done.
  - intros HM HD. destruct (Z.eqb_spec M 0); [done|].
    by destruct (Z.eqb_spec (D mod M) 0).
  - intros HM HD. destruct (Z.eqb_spec M 0); [done|].
    destruct (Z.eqb_spec (D mod M) 0); [|done]. cbn [negb].
    eexists. split; [done|].
    cbn [n_subspaces n_centroids vector_dim subvector_dim codebooks is_trained].
    split_and!; try done.
    symmetry. by apply Z.div_exact.
Qed.

(** The statement of X17 at no subspace, at three subspaces for a
    dimension of four, and at a negative number of subspaces. *)
Lemma init_checks_divisibility_witness :
  init 0 256 1024 = Raise ZeroDivisionError /\
  init 3 256 4 = Raise AssertionError /\
  exists pq, init (-2) 256 4 = Ok pq /\ subvector_dim pq = -2.
Proof.
  split_and!.
  - by apply (init_checks_divisibility 0 256 1024).
  - by apply (init_checks_divisibility 3 256 4).
  - destruct (proj2 (proj2 (init_checks_divisibility (-2) 256 4)))
      as (pq & Hpq & _); [done|done|].
    exists pq. split; [done|]. by injection Hpq as <-.
Defined.

End DecodeFacts.

(** ** The scalar quantizer: edges, order and persistence *)

Module ScalarEdges.
Import ScalarQuantizer ScalarSpec Examples Runs ScalarFacts.

(** [fit] reads nothing of [self]. *)
Lemma fit_cases (self : t) (data : ndarray Q) :
  (rows data = [] /\ fit self data = (self, Raise (ValueError msg_empty_reduction))) \/
  (rows data <> [] /\ exists lo hi, fit self data = (mk (Some lo) (Some hi) true, Ok tt)).
Proof.
  unfold fit, reduce_axis0. destruct (rows data) as [|r rs]; [by left|].
  right. split; [done|]. eauto.
Qed.

(** X8.  [fit] raises exactly on a data set without rows, with the
    [ValueError] of the empty reduction, and then leaves the quantizer as
    it was: one that was not fitted still refuses to [quantize].  On any
    other data set it returns and sets all three attributes. *)
Theorem fit_fails_exactly_on_empty_data (self : t) (data : ndarray Q) :
  (rows data = [] ->
   fit self data = (self, Raise (ValueError msg_empty_reduction)) /\
   (is_fitted self = false ->
    forall vectors,
      quantize (fit self data).1 vectors = Raise (ValueError msg_not_fitted))) /\
  (rows data <> [] ->
   exists lo hi,
     fit self data = (mk (Some lo) (Some hi) true, Ok tt) /\
     (well_shaped data -> length lo = ncols data /\ length hi = ncols data)).
Proof.
  split.
  - intros Hrows. rewrite (fit_empty self data Hrows). split; [done|].
    intros Hf vectors. cbn [fst]. unfold quantize. by rewrite Hf.
  - intros Hrows. destruct (fit_cases self data) as [[H _]|[_ (lo & hi & H)]]; [done|].
    exists lo, hi. split; [done|]. intros Hws.
    destruct (fit_spec self _ data Hws H) as (lo' & hi' & [= <- <-] & ? & ? & _).
    done.
Qed.

Lemma quantize_elem_mono (lo hi v v' : Q) :
  (lo <= v)%Q -> (v <= v')%Q -> (v' <= hi)%Q ->
  quantize_elem lo hi v <= quantize_elem lo hi v'.
Proof.
  intros H1 H2 H3.
  destruct (quantize_elem_in_range lo hi v) as [-> _]; [lra..|].
  destruct (quantize_elem_in_range lo hi v') as [-> _]; [lra..|].
  apply Qfloor_resp_le.
  assert (0 < hi - lo + eps)%Q as Hden by (unfold eps; lra).
  apply Qmult_le_compat_r; [|done].
  apply Qmult_le_compat_r; [lra|]. apply Qlt_le_weak. by apply Qinv_lt_0_compat.
Qed.

(** X11.  Within the fitted range of a dimension [quantize] is
    non-decreasing, and the fitted minimum gets the byte 0. *)
Theorem quantize_is_monotone (self sq : t) (data vectors : ndarray Q) :
  well_shaped data -> fit self data = (sq, Ok tt) ->
  well_shaped vectors -> ncols vectors = ncols data ->
  exists los his out,
    min_val sq = Some los /\ max_val sq = Some his /\
    quantize sq vectors = Ok out /\
    forall j lo hi i row v orow b,
      los !! j = Some lo -> his !! j = Some hi ->
      rows vectors !! i = Some row -> row !! j = Some v ->
      rows out !! i = Some orow -> orow !! j = Some b ->
      (lo <= v)%Q -> (v <= hi)%Q ->
      ((v == lo)%Q -> b = 0) /\
      forall i' row' v' orow' b',
        rows vectors !! i' = Some row' -> row' !! j = Some v' ->
        rows out !! i' = Some orow' -> orow' !! j = Some b' ->
        (v <= v')%Q -> (v' <= hi)%Q -> b <= b'.
Proof.
  intros Hd Hfit Hv Hw.
  destruct (fit_spec self sq data Hd Hfit) as (los & his & -> & Hlo & Hhi & Hrows & Hle).
  exists los, his, (mk_ndarray (ncols vectors) (map (quantize_row los his) (rows vectors))).
  split_and!; try done.
  - apply (quantize_fitted _ los his); try done; congruence.
  - intros j lo hi i row v orow b Hl Hh Hi Hj Ho Hb H1 H2. cbn [rows] in *.
    rewrite list_lookup_fmap, Hi in Ho. injection Ho as <-.
    rewrite (quantize_row_lookup _ _ _ _ _ _ _ Hj Hl Hh) in Hb. injection Hb as <-.
    split.
    + intros E. destruct (quantize_elem_in_range lo hi v H1 H2) as [-> _].
      assert ((v - lo) / (hi - lo + eps) * 255 == 0)%Q as ->; [|done].
      rewrite E. field. unfold eps. lra.
    + intros i' row' v' orow' b' Hi' Hj' Ho' Hb' H3 H4.
      rewrite list_lookup_fmap, Hi' in Ho'. injection Ho' as <-.
      rewrite (quantize_row_lookup _ _ _ _ _ _ _ Hj' Hl Hh) in Hb'. injection Hb' as <-.
      by apply quantize_elem_mono.
Qed.

(** *** Inputs of another width *)

Lemma stretch_length {T} (d : nat) (l : list T) :
  length l = d \/ length l = 1%nat -> length (stretch d l) = d.
Proof.
  intros [H|H]; [by rewrite stretch_id|].
  destruct l as [|x [|y l]]; try done. simpl. by rewrite length_replicate.
Qed.

Lemma stretch_map {T U} (f : T -> U) (d : nat) (l : list T) :
  stretch d (map f l) = map f (stretch d l).
Proof. destruct l as [|x [|y l]]; try done. simpl. by rewrite fmap_replicate. Qed.

Lemma stretch_zip_with {T U V} (f : T -> U -> V) (d : nat) (a : list T) (b : list U) :
  length a = length b ->
  stretch d (zip_with f a b) = zip_with f (stretch d a) (stretch d b).
Proof.
  intros H. destruct a as [|x [|y a]], b as [|x' [|y' b]]; try done.
  simpl. by rewrite zip_with_replicate.
Qed.

Lemma stretch_elem {T} (d : nat) (l : list T) (x : T) :
  x ∈ stretch d l -> x ∈ l.
Proof.
  destruct l as [|y [|z l]]; try done. simpl. intros H.
  apply elem_of_replicate in H as [-> _]. apply elem_of_cons. by left.
Qed.

Lemma broadcast_dim_cases (a b d : nat) :
  broadcast_dim a b = Ok d ->
  (a = d \/ a = 1%nat) /\ (b = d \/ b = 1%nat).
Proof.
  unfold broadcast_dim.
  destruct (Nat.eqb_spec a b); [intros [= <-]; lia|].
  destruct (Nat.eqb_spec a 1); [intros [= <-]; lia|].
  destruct (Nat.eqb_spec b 1); [intros [= <-]; lia|done].
Qed.

Lemma broadcast_dim_result (a b d : nat) :
  broadcast_dim a b = Ok d -> broadcast_dim d b = Ok d.
Proof.
  unfold broadcast_dim.
  destruct (Nat.eqb_spec a b).
  - intros [= <-]. subst. by rewrite Nat.eqb_refl.
  - destruct (Nat.eqb_spec a 1).
    + intros [= <-]. by rewrite Nat.eqb_refl.
    + destruct (Nat.eqb_spec b 1); [|done]. intros [= <-].
      destruct (Nat.eqb_spec a b); [done|]. destruct (Nat.eqb_spec a 1); [done|].
      destruct (Nat.eqb_spec b 1); done.
Qed.

(** [quantize] on an input whose width broadcasts against the fitted one. *)
Lemma quantize_broadcast (sq : t) (lo hi : list Q) (vectors : ndarray Q) (d : nat) :
  sq = mk (Some lo) (Some hi) true ->
  Forall2 Qle lo hi -> well_shaped vectors ->
  broadcast_dim (ncols vectors) (length lo) = Ok d ->
  quantize sq vectors
  = Ok (mk_ndarray d
          (map (fun r => quantize_row (stretch d lo) (stretch d hi) (stretch d r))
               (rows vectors))).
Proof.
  intros -> Hle Hws Hbd. unfold quantize, range_of. simpl.
  pose proof (Forall2_length _ _ _ Hle) as Hlen.
  destruct (broadcast_dim_cases _ _ _ Hbd) as [Hv Hl].
  unfold mat_vec_op. rewrite Hbd. simpl.
  rewrite vec_op_same by done. simpl.
  unfold mat_vec_divide. simpl.
  set (den := map (fun x => (x + eps)%Q) (zip_with Qminus hi lo)).
  assert (length den = length lo) as Hden.
  { unfold den. rewrite length_map, length_zip_with. lia. }
  rewrite Hden, (broadcast_dim_result _ _ _ Hbd). simpl.
  erewrite (traverse_ok _ (fun r => map (fun p => (p.1 / p.2)%Q) (zip r (stretch d den)))).
  - simpl. unfold mat_scalar_op. simpl. do 2 f_equal.
    rewrite !map_map. apply map_ext. intros r.
    unfold den. rewrite stretch_map, stretch_zip_with by lia.
    apply quantize_row_unfold.
  - apply Forall_map. eapply Forall_impl; [exact Hws|]. intros r Hr. simpl in Hr.
    rewrite (stretch_id d (zip_with _ _ _)).
    2:{ rewrite length_zip_with, !stretch_length by lia. lia. }
    apply traverse_ok. apply Forall_forall. intros [n x] Hin. simpl.
    apply elem_of_zip_r in Hin. simpl in Hin. apply stretch_elem in Hin.
    pose proof (denominators_nonzero lo hi Hle) as Hnz.
    rewrite Forall_forall in Hnz. unfold true_divide. by rewrite (Hnz x Hin).
Qed.


(** *** Persistence *)

(** X13.  [save] then [load] gives back the saved quantizer, all three
    attributes, whatever object loads it and whatever the path held
    before; files at other paths are left alone.  Loading a path that
    holds nothing is a [FileNotFoundError]; loading the file of a product
    quantizer, or loading a scalar quantizer's file into a product
    quantizer, is a [KeyError]. *)
Theorem scalar_load_restores_saved (self sq : t) (path : string) (fs : files) :
  load self path (save sq path fs) = Ok sq /\
  (forall other, other <> path ->
     load self other (save sq path fs) = load self other fs) /\
  (fs !! path = None -> load self path fs = Raise FileNotFoundError) /\
  (forall pq, load self path (ProductQuantizer.save pq path fs) = Raise KeyError) /\
  (forall pq0, ProductQuantizer.load pq0 path (save sq path fs) = Raise KeyError).
Proof.
  split_and!.
  - unfold load, save. rewrite lookup_insert_eq. by destruct sq.
  - intros other Hne. unfold load, save. by rewrite lookup_insert_ne.
  - intros Hnone. unfold load. by rewrite Hnone.
  - intros pq. unfold load, ProductQuantizer.save. by rewrite lookup_insert_eq.
  - intros pq0. unfold ProductQuantizer.load, save. by rewrite lookup_insert_eq.
Qed.

(** The statement of X13 at the quantizer fitted on [[0]] and [[1]],
    saved over an empty store. *)
Lemma scalar_load_restores_saved_witness :
  load init "scalar_quantizer.pkl" (save sq01 "scalar_quantizer.pkl" ∅) = Ok sq01 /\
  load init "pq_codebook.pkl" ∅ = Raise FileNotFoundError.
Proof.
  destruct (scalar_load_restores_saved init sq01 "scalar_quantizer.pkl" ∅)
    as (H1 & _).
  destruct (scalar_load_restores_saved init sq01 "pq_codebook.pkl" ∅)
    as (_ & _ & H3 & _).
  split; [exact H1|]. apply H3. reflexivity.
Defined.

(** The statement of X8 at a data set without rows and at one with. *)
Lemma fit_fails_exactly_on_empty_data_witness :
  fit init (mk_ndarray 3 []) = (init, Raise (ValueError msg_empty_reduction)) /\
  exists lo hi, fit init d01 = (mk (Some lo) (Some hi) true, Ok tt).
Proof.
  split.
  - apply (fit_fails_exactly_on_empty_data init (mk_ndarray 3 [])). reflexivity.
  - destruct (proj2 (fit_fails_exactly_on_empty_data init d01)) as (lo & hi & H & _).
    + by vm_compute.
    + by exists lo, hi.
Defined.

(** The statement of X11 at the quantizer fitted on [[0]] and [[1]]. *)
Lemma quantize_is_monotone_witness :
  exists los his out,
    min_val sq01 = Some los /\ max_val sq01 = Some his /\
    quantize sq01 v01 = Ok out /\
    forall j lo hi i row v orow b,
      los !! j = Some lo -> his !! j = Some hi ->
      rows v01 !! i = Some row -> row !! j = Some v ->
      rows out !! i = Some orow -> orow !! j = Some b ->
      (lo <= v)%Q -> (v <= hi)%Q ->
      ((v == lo)%Q -> b = 0) /\
      forall i' row' v' orow' b',
        rows v01 !! i' = Some row' -> row' !! j = Some v' ->
        rows out !! i' = Some orow' -> orow' !! j = Some b' ->
        (v <= v')%Q -> (v' <= hi)%Q -> b <= b'.
Proof.
  apply (quantize_is_monotone init sq01 d01 v01).
  - inspect_shape.
  - reflexivity.
  - inspect_shape.
  - reflexivity.
Defined.


End ScalarEdges.

(** ** The evaluation metrics *)

Module MetricsFacts.
Import ProductQuantizer Metrics MetricsSpec Examples Runs ProductFacts.

Lemma zip_with_stretch_rows {A B C} (f : A -> B -> C) (d : nat)
    (ra : list (list A)) (rb : list (list B)) :
  Forall (fun r => length r = d) ra -> Forall (fun r => length r = d) rb ->
  zip_with (fun x y => zip_with f (stretch d x) (stretch d y)) ra rb
  = zip_with (zip_with f) ra rb.
Proof.
  intros Ha. revert rb. induction Ha as [|x ra Hx Ha IH]; intros rb Hb; [done|].
  destruct Hb as [|y rb Hy Hb]; [done|]. cbn [zip_with].
  by rewrite IH, !stretch_id.
Qed.

(** Two arrays of one shape: nothing is stretched. *)
Lemma mat_mat_op_same {A B C} (f : A -> B -> C) (a : ndarray A) (b : ndarray B) :
  well_shaped a -> well_shaped b -> ncols a = ncols b -> len a = len b ->
  mat_mat_op f a b = Ok (mk_ndarray (ncols a) (zip_with (zip_with f) (rows a) (rows b))).
Proof.
  intros Ha Hb Hc Hl. unfold mat_mat_op.
  rewrite <- Hc, <- Hl, !broadcast_dim_same. cbn [mbind result_bind].
  rewrite (stretch_id (len a) (rows a)) by done.
  rewrite (stretch_id (len a) (rows b)) by done.
  rewrite zip_with_stretch_rows; [done|done|].
  unfold well_shaped in Hb. by rewrite <- Hc in Hb.
Qed.

Lemma Qsum_nonneg (l : list Q) : Forall (fun x => 0 <= x)%Q l -> (0 <= Qsum l)%Q.
Proof.
  induction 1 as [|x l Hx _ IH]; cbn; [apply Qle_refl|].
  change (0 <= x + Qsum l)%Q. lra.
Qed.

Lemma Qsum_zero (l : list Q) :
  Forall (fun x => 0 <= x)%Q l -> (Qsum l == 0)%Q -> Forall (fun x => x == 0)%Q l.
Proof.
  induction 1 as [|x l Hx Hl IH]; [done|]. intros H.
  change (x + Qsum l == 0)%Q in H.
  pose proof (Qsum_nonneg l Hl). constructor; [lra|]. apply IH. lra.
Qed.

(** The square of a sum of absolute values against the sum of squares. *)
Lemma Qsum_abs_sq (l : list Q) :
  (Qsum (map Qabs l) * Qsum (map Qabs l)
   <= inject_Z (Z.of_nat (length l)) * Qsum (map (fun x => x ^ 2) l))%Q /\
  (0 <= Qsum (map Qabs l))%Q /\ (0 <= Qsum (map (fun x => x ^ 2) l))%Q.
Proof.
  induction l as [|x l (IH & Hs & Hq)].
  - cbn. split_and!; apply Qle_refl.
  - cbn [map length]. change (Qsum (?a :: ?l)) with (a + Qsum l)%Q.
    rewrite Nat2Z.inj_succ, <- Z.add_1_r, inject_Z_plus.
    pose proof (Qabs_nonneg x) as Hx.
    assert (x ^ 2 == Qabs x * Qabs x)%Q as ->.
    { change (x ^ 2)%Q with (x * x)%Q. rewrite <- Qabs_Qmult.
      symmetry. apply Qabs_pos. generalize x. intros y. nra. }
    assert (0 <= inject_Z (Z.of_nat (length l)))%Q as Hn.
    { change 0%Q with (inject_Z 0). rewrite <- Zle_Qle. lia. }
    generalize dependent (Qsum (map Qabs l)). intros s.
    generalize dependent (Qsum (map (fun x => x ^ 2)%Q l)). intros q.
    generalize dependent (inject_Z (Z.of_nat (length l))). intros n.
    generalize dependent (Qabs x). intros a. intros Ha Hn Hq IH Hs.
    change (inject_Z 1) with 1%Q.
    split_and!; try nra.
    assert (0 <= (n * a - s) * (n * a - s))%Q as Hsq
      by (generalize (n * a - s)%Q; intros z; nra).
    destruct (Qlt_le_dec 0 n) as [Hpos|Hzero].
    + assert (n * (2 * a * s) <= n * (n * (a * a) + q))%Q as H by lra.
      assert (2 * a * s <= n * (a * a) + q)%Q as H'.
      { apply Qmult_le_l with n; [done|]. exact H. }
      nra.
    + assert (n == 0)%Q as Hn0 by lra.
      assert (s * s <= 0)%Q as Hss by (rewrite Hn0 in IH; lra).
      assert (s == 0)%Q as Hs0 by nra.
      rewrite Hs0, Hn0. nra.
Qed.

(** A 2-D array against a column of one value per row. *)
Lemma mat_mat_op_col {A B C} (f : A -> B -> C) (a : ndarray A) (ys : list B) :
  well_shaped a -> length ys = len a ->
  mat_mat_op f a (mk_ndarray 1 (map (fun y => [y]) ys))
  = Ok (mk_ndarray (ncols a)
          (zip_with (fun ra y => map (fun x => f x y) ra) (rows a) ys)).
Proof.
  intros Ha Hl. unfold mat_mat_op. cbn [ncols rows].
  assert (broadcast_dim (ncols a) 1 = Ok (ncols a)) as ->.
  { unfold broadcast_dim. destruct (Nat.eqb_spec (ncols a) 1) as [->|]; [done|].
    by destruct (Nat.eqb_spec 1 1). }
  cbn [mbind result_bind]. unfold len at 2. cbn [rows].
  rewrite length_map, Hl, broadcast_dim_same. cbn [mbind result_bind].
  rewrite (stretch_id (len a) (rows a)) by done.
  rewrite (stretch_id (len a) (map _ ys)) by (by rewrite length_map).
  f_equal. f_equal. rewrite zip_with_fmap_r.
  apply Forall_zip_with_ext_l; [|done].
  eapply Forall_impl; [exact Ha|]. intros ra Hra y. cbn beta in Hra.
  rewrite stretch_id by done. cbn [stretch].
  by rewrite zip_with_replicate_r_eq.
Qed.

Lemma length_concat_rows {A} (d : nat) (rs : list (list A)) :
  Forall (fun r => length r = d) rs -> length (concat rs) = (length rs * d)%nat.
Proof.
  induction 1 as [|r rs Hr _ IH]; [done|]. cbn. rewrite length_app, IH. lia.
Qed.

Lemma mean_nonempty (l : list Q) :
  l <> [] -> mean l = Ok (Qsum l / inject_Z (Z.of_nat (length l)))%Q.
Proof. by destruct l. Qed.

Lemma mean_R_nonempty (l : list R) :
  l <> [] -> mean_R l = Ok (Rsum l / INR (length l))%R.
Proof. by destruct l. Qed.

Lemma differences_length (original reconstructed : ndarray Q) :
  well_shaped original -> well_shaped reconstructed ->
  ncols original = ncols reconstructed -> len original = len reconstructed ->
  length (differences original reconstructed) = (len original * ncols original)%nat.
Proof.
  intros Ho Hr Hc Hl. unfold differences.
  rewrite (length_concat_rows (ncols original)).
  - rewrite length_zip_with. unfold len in *. lia.
  - apply Forall_lookup. intros i r Hi.
    apply lookup_zip_with_Some in Hi as (a & b & -> & Ha & Hb).
    pose proof (Forall_lookup_1 _ _ _ _ Ho Ha) as La.
    pose proof (Forall_lookup_1 _ _ _ _ Hr Hb) as Lb. cbn beta in La, Lb.
    rewrite length_zip_with. lia.
Qed.

(** [evaluate_compression] on two non-empty arrays of one shape. *)
Lemma evaluate_same_shape (original reconstructed : ndarray Q) :
  well_shaped original -> well_shaped reconstructed ->
  ncols original = ncols reconstructed -> len original = len reconstructed ->
  (0 < len original)%nat -> (0 < ncols original)%nat ->
  let ds := differences original reconstructed in
  evaluate_compression original reconstructed
  = Ok (mk_metrics
          (Qsum (map (fun x => x ^ 2) ds) / inject_Z (Z.of_nat (length ds)))%Q
          (Qsum (map Qabs ds) / inject_Z (Z.of_nat (length ds)))%Q
          (Rsum (zip_with row_cosine (rows original) (rows reconstructed))
           / INR (len original))%R).
Proof.
  intros Ho Hr Hc Hl HN HD ds.
  pose proof (differences_length _ _ Ho Hr Hc Hl) as Hds. fold ds in Hds.
  assert (ds <> []) as Hne.
  { intros E. rewrite E in Hds. cbn in Hds. nia. }
  unfold evaluate_compression.
  rewrite mat_mat_op_same by done. cbn [mbind result_bind].
  unfold unit_rows, norm_rows, mat_scalar_op. cbn [rows ncols].
  rewrite <- !concat_map. fold (differences original reconstructed). fold ds.
  rewrite !mean_nonempty by (by intros E%fmap_nil_inv).
  cbn [mbind result_bind]. rewrite !length_map.
  (* the cosine *)
  rewrite !map_map. cbn [map].
  rewrite <- (map_map (fun r => (sqrt (Q2R (sqnorm r)) + Q2R eps)%R) (fun y => [y])
                (rows original)).
  rewrite <- (map_map (fun r => (sqrt (Q2R (sqnorm r)) + Q2R eps)%R) (fun y => [y])
                (rows reconstructed)).
  rewrite (mat_mat_op_col Rdiv (mk_ndarray (ncols original) (map (map Q2R) (rows original)))).
  2:{ unfold well_shaped. cbn [rows ncols]. apply Forall_map.
      eapply Forall_impl; [exact Ho|]. intros r Hlen. cbn beta in *.
      by rewrite length_map. }
  2:{ unfold len. cbn [rows]. by rewrite !length_map. }
  cbn [mbind result_bind ncols rows].
  rewrite zip_with_fmap_l, zip_with_fmap_r, zip_with_diag.
  rewrite mat_mat_op_same; cbn [ncols rows]; try done.
  2:{ unfold well_shaped. cbn [rows ncols]. apply Forall_map.
      eapply Forall_impl; [exact Ho|]. intros r Hlen. cbn beta in *.
      by rewrite !length_map. }
  2:{ unfold well_shaped. cbn [rows ncols]. apply Forall_map.
      eapply Forall_impl; [exact Hr|]. intros r Hlen. cbn beta in *.
      rewrite length_map. congruence. }
  2:{ unfold len in *. cbn [rows]. rewrite !length_map. done. }
  cbn [mbind result_bind].
  rewrite mat_mat_op_col; cbn [ncols rows].
  2:{ unfold well_shaped. cbn [rows ncols]. apply Forall_lookup. intros i r Hi.
      apply lookup_zip_with_Some in Hi as (a & b & -> & Ha & Hb).
      rewrite list_lookup_fmap in Ha, Hb.
      destruct (rows original !! i) as [a'|] eqn:Ha'; [|done].
      destruct (rows reconstructed !! i) as [b'|] eqn:Hb'; [|done].
      cbn in Ha, Hb. injection Ha as <-. injection Hb as <-.
      pose proof (Forall_lookup_1 _ _ _ _ Ho Ha') as La.
      pose proof (Forall_lookup_1 _ _ _ _ Hr Hb') as Lb. cbn beta in La, Lb.
      rewrite length_zip_with, !length_map. lia. }
  2:{ unfold len in *. cbn [rows]. rewrite length_zip_with, !length_map. lia. }
  cbn [mbind result_bind].
  cbn [rows].
  set (quot := zip_with _ _ _).
  assert (map Rsum quot = zip_with row_cosine (rows original) (rows reconstructed)) as ->.
  { unfold quot. clear. generalize (rows reconstructed).
    induction (rows original) as [|a ro IH]; intros [|b rr]; try done.
    cbn [map fmap list_fmap zip_with]. f_equal; [|apply IH].
    unfold row_cosine. by rewrite map_map. }
  rewrite mean_R_nonempty.
  2:{ intros E. apply (f_equal length) in E. rewrite length_zip_with in E.
      unfold len in *. cbn in E. lia. }
  cbn [mbind result_bind]. rewrite length_zip_with.
  unfold len in *. by replace (length (rows original) `min` length (rows reconstructed))%nat
    with (length (rows original)) by lia.
Qed.

Lemma zip_with_Qminus_zero (a b : list Q) :
  length a = length b ->
  Forall (fun x => x == 0)%Q (zip_with Qminus a b) <-> Forall2 Qeq a b.
Proof.
  revert b. induction a as [|x a IH]; intros [|y b] Hl; try done.
  injection Hl as Hl. cbn [zip_with]. rewrite Forall_cons, Forall2_cons, (IH b Hl).
  split; intros [H1 H2]; (split; [lra|done]).
Qed.

Lemma differences_zero (ro rr : list (list Q)) :
  Forall2 (fun a b => length a = length b) ro rr ->
  Forall (fun x => x == 0)%Q (concat (zip_with (zip_with Qminus) ro rr))
  <-> Forall2 (Forall2 Qeq) ro rr.
Proof.
  induction 1 as [|a b ro rr Hab _ IH]; cbn [zip_with concat].
  - split; intros _; constructor.
  - rewrite Forall_app, Forall2_cons, IH, (zip_with_Qminus_zero a b Hab). done.
Qed.

Lemma same_shape_rows (original reconstructed : ndarray Q) :
  well_shaped original -> well_shaped reconstructed ->
  ncols original = ncols reconstructed -> len original = len reconstructed ->
  Forall2 (fun a b => length a = length b) (rows original) (rows reconstructed).
Proof.
  intros Ho Hr Hc Hl. apply Forall2_same_length_lookup_2; [done|].
  intros i a b Ha Hb.
  pose proof (Forall_lookup_1 _ _ _ _ Ho Ha) as La.
  pose proof (Forall_lookup_1 _ _ _ _ Hr Hb) as Lb. cbn beta in La, Lb. lia.
Qed.

Lemma Qsum_squares_zero (l : list Q) :
  (Qsum (map (fun x => x ^ 2) l) == 0)%Q <-> Forall (fun x => x == 0)%Q l.
Proof.
  assert (Forall (fun y => 0 <= y)%Q (map (fun x => x ^ 2)%Q l)) as Hnn.
  { apply Forall_map, Forall_true. intros x. cbn beta.
    change (x ^ 2)%Q with (x * x)%Q. nra. }
  split.
  - intros H. apply Qsum_zero in H; [|done].
    apply Forall_map in H. eapply Forall_impl; [exact H|].
    intros x Hx. cbn beta in Hx. change (x ^ 2)%Q with (x * x)%Q in Hx.
    apply Qmult_integral in Hx. tauto.
  - clear Hnn. induction 1 as [|x l Hx _ IH]; [done|].
    cbn [map]. change (Qsum (?a :: ?l)) with (a + Qsum l)%Q.
    rewrite IH, Hx. done.
Qed.

Lemma Qsum_abs_zero (l : list Q) :
  (Qsum (map Qabs l) == 0)%Q <-> Forall (fun x => x == 0)%Q l.
Proof.
  assert (Forall (fun y => 0 <= y)%Q (map Qabs l)) as Hnn.
  { apply Forall_map, Forall_true. intros x. apply Qabs_nonneg. }
  split.
  - intros H. apply Qsum_zero in H; [|done].
    apply Forall_map in H. eapply Forall_impl; [exact H|].
    intros x Hx. cbn beta in Hx.
    pose proof (Qabs_nonneg x). pose proof (Qle_Qabs x).
    pose proof (Qle_Qabs (- x)) as Hm. rewrite Qabs_opp in Hm. lra.
  - clear Hnn. induction 1 as [|x l Hx _ IH]; [done|].
    cbn [map]. change (Qsum (?a :: ?l)) with (a + Qsum l)%Q.
    rewrite IH, Hx. done.
Qed.

(** X14.  For two non-empty arrays of one shape [evaluate_compression]
    returns; the mean squared and the mean absolute error are not
    negative, and both are zero when the arrays agree entry by entry. *)
Theorem evaluate_compression_errors (original reconstructed : ndarray Q) :
  well_shaped original -> well_shaped reconstructed ->
  ncols original = ncols reconstructed -> len original = len reconstructed ->
  (0 < len original)%nat -> (0 < ncols original)%nat ->
  exists m,
    evaluate_compression original reconstructed = Ok m /\
    (0 <= mse m)%Q /\ (0 <= mae m)%Q /\
    (Forall2 (Forall2 Qeq) (rows original) (rows reconstructed) ->
     (mse m == 0)%Q /\ (mae m == 0)%Q).
Proof.
  intros Ho Hr Hc Hl HN HD.
  eexists. split; [by apply evaluate_same_shape|]. cbn [mse mae].
  pose proof (differences_length _ _ Ho Hr Hc Hl) as Hds.
  pose proof (differences_zero _ _ (same_shape_rows _ _ Ho Hr Hc Hl)) as Hzero.
  fold (differences original reconstructed) in Hzero.
  set (ds := differences original reconstructed) in *.
  destruct (Qsum_abs_sq ds) as (Hcs & Ha & Hq).
  pose proof (Qsum_squares_zero ds) as Hq0. pose proof (Qsum_abs_zero ds) as Ha0.
  assert (0 < inject_Z (Z.of_nat (length ds)))%Q as Hn.
  { change 0%Q with (inject_Z 0). rewrite <- Zlt_Qlt. nia. }
  generalize dependent (Qsum (map Qabs ds)). intros sa Hcs Ha Ha0.
  generalize dependent (Qsum (map (fun x => x ^ 2)%Q ds)). intros sq Hq Hq0 Hcs.
  generalize dependent (inject_Z (Z.of_nat (length ds))). intros n Hn Hcs.
  assert (0 < / n)%Q as Hinv by (by apply Qinv_lt_0_compat).
  unfold Qdiv. generalize dependent (/ n)%Q. intros r Hr0.
  split_and!.
  - nra.
  - nra.
  - intros Hsame. apply Hzero in Hsame.
    apply Hq0 in Hsame as Hsq. apply Ha0 in Hsame as Hsa.
    rewrite Hsq, Hsa. split; ring.
Qed.

(** The statement of X14 at two arrays of two rows and four columns. *)
Lemma evaluate_compression_errors_witness :
  exists m,
    evaluate_compression vectors42 approx42 = Ok m /\
    (0 <= mse m)%Q /\ (0 <= mae m)%Q /\
    (Forall2 (Forall2 Qeq) (rows vectors42) (rows approx42) ->
     (mse m == 0)%Q /\ (mae m == 0)%Q).
Proof.
  apply (evaluate_compression_errors vectors42 approx42).
  - inspect_shape.
  - inspect_shape.
  - reflexivity.
  - reflexivity.
  - cbn. lia.
  - cbn. lia.
Defined.

(** X16.  [evaluate_compression] checks the two shapes by broadcasting
    only: widths that differ, neither being 1, or numbers of rows that
    differ, neither being 1, raise the broadcasting [ValueError] at the
    first subtraction. *)
Theorem evaluate_compression_rejects_shapes (original reconstructed : ndarray Q) :
  (ncols original <> ncols reconstructed /\
   ncols original <> 1%nat /\ ncols reconstructed <> 1%nat) \/
  (len original <> len reconstructed /\
   len original <> 1%nat /\ len reconstructed <> 1%nat) ->
  evaluate_compression original reconstructed = Raise (ValueError msg_broadcast).
Proof.
  intros H. unfold evaluate_compression, mat_mat_op.
  destruct (broadcast_dim (ncols original) (ncols reconstructed)) as [d|e] eqn:Hd.
  - destruct H as [(H1 & H2 & H3)|(H1 & H2 & H3)].
    + by rewrite broadcast_dim_raise in Hd.
    + cbn [mbind result_bind]. by rewrite broadcast_dim_raise.
  - cbn [mbind result_bind]. f_equal. unfold broadcast_dim in Hd.
    destruct (_ =? _)%nat; [done|]. destruct (_ =? _)%nat; [done|].
    destruct (_ =? _)%nat; [done|]. by injection Hd as <-.
Qed.

(** The statement of X16 at arrays of four and of three columns. *)
Lemma evaluate_compression_rejects_shapes_witness :
  evaluate_compression vectors42 narrow42 = Raise (ValueError msg_broadcast).
Proof.
  apply (evaluate_compression_rejects_shapes vectors42 narrow42).
  left. cbn. lia.
Defined.

End MetricsFacts.

(** ** The two scripts *)

Module ScriptFacts.
Import ProductQuantizer ProductSpec Examples Runs ProductFacts.

Section Pipeline.

Variable joinpath : string -> string -> string.
Variable rng : Type.
Variable choice : rng -> nat -> Z -> result (list Z) * rng.
Variable kmeans_fit : Z -> ndarray Q -> result (ndarray Q).

(** [train] touches [codebooks] and [is_trained] only. *)
Lemma train_keeps_shape (g g' : rng) (self self' : t) (vectors : ndarray Q)
    (n_samples : Z) (r : result unit) :
  train rng choice kmeans_fit g self vectors n_samples = (self', g', r) ->
  n_subspaces self' = n_subspaces self /\ n_centroids self' = n_centroids self /\
  vector_dim self' = vector_dim self /\ subvector_dim self' = subvector_dim self.
Proof.
  unfold train.
  destruct (sample rng choice g vectors n_samples) as [[vs|e] g1].
  2:{ by intros [= <- _ _]. }
  destruct (train_loop _ _ _ _) as [self1 r1] eqn:Hloop.
  apply train_loop_spec in Hloop as (H1 & H2 & H3 & H4 & _).
  by destruct r1 as [[]|e]; intros [= <- _ _].
Qed.

(** [train] on no vector at all. *)
Lemma train_on_empty_raises (g : rng) (self : t) (vectors : ndarray Q) (n_samples : Z) :
  kmeans_rejects_empty kmeans_fit -> 0 < n_subspaces self -> rows vectors = [] ->
  is_ok (train rng choice kmeans_fit g self vectors n_samples).2 = false.
Proof.
  intros Hrej HM He. unfold train.
  destruct (sample rng choice g vectors n_samples) as [[vs|e] g1] eqn:Hs; [|done].
  pose proof (sample_of_empty rng choice g g1 vectors vs n_samples He Hs) as Hvs.
  destruct (range_pos (n_subspaces self)) as [ms ->]; [lia|].
  cbn [train_loop].
  specialize (Hrej (n_centroids self)
    (slice_cols (0 * subvector_dim self) (0 * subvector_dim self + subvector_dim self) vs)).
  destruct (kmeans_fit _ _) as [c|e]; [|done].
  exfalso. unfold slice_cols in Hrej. cbn [rows] in Hrej. rewrite Hvs in Hrej.
  by specialize (Hrej eq_refl).
Qed.

(** [main] of [pq_train.py] when training and fitting return. *)
Lemma main_returns (g g' : rng) (vectors : ndarray Q) (samples : Z) (dir : string)
    (fs : files) (pq0 pq : t) (sq : ScalarQuantizer.t) :
  init_default = Ok pq0 ->
  train rng choice kmeans_fit g pq0 vectors samples = (pq, g', Ok tt) ->
  ScalarQuantizer.fit ScalarQuantizer.init vectors = (sq, Ok tt) ->
  pq_train.main joinpath rng choice kmeans_fit g vectors samples dir fs
  = (ScalarQuantizer.save sq (joinpath dir "scalar_quantizer.pkl")
       (save pq (joinpath dir "pq_codebook.pkl") fs), g', Ok tt).
Proof.
  intros Hinit Htrain Hfit. unfold pq_train.main. by rewrite Hinit, Htrain, Hfit.
Qed.

(** X18.  [compress.py] after [pq_train.py].  When [pq_train.py] ends
    without an exception, the directory holds the pickled product
    quantizer it trained and the scalar quantizer it fitted, under two
    different names, other files untouched; [compress.py] pointed at
    that directory then encodes with exactly these two models: both
    scripts build [ProductQuantizer()] with the same default arguments,
    so the [subvector_dim] that [load] does not restore is the right one. *)
Theorem compress_uses_the_trained_models (g g' : rng) (vectors : ndarray Q)
    (samples : Z) (dir : string) (fs fs' : files) :
  joinpath dir "pq_codebook.pkl" <> joinpath dir "scalar_quantizer.pkl" ->
  pq_train.main joinpath rng choice kmeans_fit g vectors samples dir fs = (fs', g', Ok tt) ->
  exists pq0 pq sq,
    init_default = Ok pq0 /\
    train rng choice kmeans_fit g pq0 vectors samples = (pq, g', Ok tt) /\
    ScalarQuantizer.fit ScalarQuantizer.init vectors = (sq, Ok tt) /\
    fs' !! joinpath dir "pq_codebook.pkl" = Some (PQ (to_dict pq)) /\
    load pq0 (joinpath dir "pq_codebook.pkl") fs' = Ok pq /\
    ScalarQuantizer.load ScalarQuantizer.init (joinpath dir "scalar_quantizer.pkl") fs' = Ok sq /\
    (forall other, other <> joinpath dir "pq_codebook.pkl" -> other <> joinpath dir "scalar_quantizer.pkl" ->
       fs' !! other = fs !! other) /\
    forall input,
      compress.main joinpath input dir fs'
      = (pq_codes ← encode pq input;
         quantized ← ScalarQuantizer.quantize sq input;
         Ok (pq_codes, quantized)).
Proof.
  intros Hne. unfold pq_train.main.
  destruct init_default as [pq0|] eqn:Hinit; [|done].
  destruct (train _ _ _ _ _ _ _) as [[pq g1] [[]|e]] eqn:Htrain; [|done].
  destruct (ScalarQuantizer.fit _ _) as [sq [[]|e]] eqn:Hfit; [|done].
  intros [= <- <-].
  destruct (train_keeps_shape _ _ _ _ _ _ _ Htrain) as (H1 & H2 & H3 & H4).
  assert (from_dict pq0 (to_dict pq) = pq) as Hsame.
  { destruct pq. unfold from_dict, to_dict. cbn in *. by rewrite H4. }
  assert (load pq0 (joinpath dir "pq_codebook.pkl")
            (ScalarQuantizer.save sq (joinpath dir "scalar_quantizer.pkl")
               (save pq (joinpath dir "pq_codebook.pkl") fs)) = Ok pq) as Hload.
  { unfold load, ScalarQuantizer.save, save.
    rewrite lookup_insert_ne by done. rewrite lookup_insert_eq. by rewrite Hsame. }
  assert (ScalarQuantizer.load ScalarQuantizer.init (joinpath dir "scalar_quantizer.pkl")
            (ScalarQuantizer.save sq (joinpath dir "scalar_quantizer.pkl")
               (save pq (joinpath dir "pq_codebook.pkl") fs)) = Ok sq) as Hload'.
  { unfold ScalarQuantizer.load, ScalarQuantizer.save.
    rewrite lookup_insert_eq. by destruct sq. }
  exists pq0, pq, sq. split_and!; try done.
  - unfold ScalarQuantizer.save, save.
    rewrite lookup_insert_ne by done. by rewrite lookup_insert_eq.
  - intros other Ho1 Ho2. unfold ScalarQuantizer.save, save.
    by rewrite !lookup_insert_ne.
  - intros input. unfold compress.main. rewrite Hinit. cbn [mbind result_bind].
    rewrite Hload. cbn [mbind result_bind]. rewrite Hload'. done.
Qed.

(** X19.  No exception of [train] or [fit] leaves one model file
    without the other.  An exception of [train] ends [pq_train.py]
    before anything is written, and is the exception the run ends with;
    once [train] has returned, [fit] returns too (when the clustering
    library rejects an empty sample set), and the run writes both files.
    The writing itself is taken to succeed.  [compress.py] pointed at a
    directory that lacks one of the two files raises a
    [FileNotFoundError] before it encodes anything. *)
Theorem train_and_fit_fail_before_any_save (dir : string) (fs : files) :
  (forall g g' vectors samples pq0 pq e,
     init_default = Ok pq0 ->
     train rng choice kmeans_fit g pq0 vectors samples = (pq, g', Raise e) ->
     pq_train.main joinpath rng choice kmeans_fit g vectors samples dir fs
     = (fs, g', Raise e)) /\
  (kmeans_rejects_empty kmeans_fit ->
   forall g g' vectors samples pq0 pq,
     init_default = Ok pq0 ->
     train rng choice kmeans_fit g pq0 vectors samples = (pq, g', Ok tt) ->
     exists sq,
       ScalarQuantizer.fit ScalarQuantizer.init vectors = (sq, Ok tt) /\
       pq_train.main joinpath rng choice kmeans_fit g vectors samples dir fs
       = (ScalarQuantizer.save sq (joinpath dir "scalar_quantizer.pkl")
            (save pq (joinpath dir "pq_codebook.pkl") fs), g', Ok tt)) /\
  (fs !! joinpath dir "pq_codebook.pkl" = None ->
   forall input, compress.main joinpath input dir fs = Raise FileNotFoundError) /\
  (forall d, fs !! joinpath dir "pq_codebook.pkl" = Some (PQ d) ->
   fs !! joinpath dir "scalar_quantizer.pkl" = None ->
   forall input, compress.main joinpath input dir fs = Raise FileNotFoundError).
Proof.
  assert (exists pq1, init_default = Ok pq1 /\ 0 < n_subspaces pq1) as (pq1 & Hinit & HM).
  { eexists. split; [reflexivity|]. done. }
  split_and!.
  - intros g g' vectors samples pq0 pq e Hi Htrain.
    unfold pq_train.main. by rewrite Hi, Htrain.
  - intros Hrej g g' vectors samples pq0 pq Hi Htrain.
    rewrite Hinit in Hi. injection Hi as <-.
    destruct (ScalarEdges.fit_cases ScalarQuantizer.init vectors)
      as [[Hempty _]|[_ (lo & hi & Hfit)]].
    + exfalso.
      pose proof (train_on_empty_raises g pq1 vectors samples Hrej HM Hempty) as Hraise.
      by rewrite Htrain in Hraise.
    + eexists. split; [exact Hfit|].
      exact (main_returns g g' vectors samples dir fs pq1 pq _ Hinit Htrain Hfit).
  - intros Hnone input. unfold compress.main. rewrite Hinit. cbn [mbind result_bind].
    unfold load. by rewrite Hnone.
  - intros d Hpq Hnone input. unfold compress.main. rewrite Hinit.
    cbn [mbind result_bind]. unfold load. rewrite Hpq. cbn [mbind result_bind].
    unfold ScalarQuantizer.load. by rewrite Hnone.
Qed.

End Pipeline.

(** The stand-in clustering returns whenever it is given at least as
    many rows as clusters; with no more rows than [n_samples] nothing is
    drawn. *)
Lemma first_rows_train_returns (g : list Z) (self : t) (vectors : ndarray Q)
    (n_samples : Z) :
  Z.of_nat (len vectors) <= n_samples ->
  0 < n_centroids self <= Z.of_nat (len vectors) ->
  exists pq, run_train g self vectors n_samples = (pq, g, Ok tt).
Proof.
  intros Hn HK. unfold run_train, train, sample.
  destruct (Z.ltb_spec n_samples (Z.of_nat (len vectors))) as [|_]; [lia|].
  destruct (train_loop _ _ _ _) as [pq1 [[]|e]] eqn:Hloop; [eauto|].
  exfalso. apply train_loop_spec in Hloop as (_ & _ & _ & _ & _ & new & _ & _ & Hr).
  destruct Hr as (m & _ & Hraise).
  unfold fit_subspace, first_rows_kmeans in Hraise.
  assert (forall a b, len (slice_cols a b vectors) = len vectors) as Hsl.
  { intros a b. unfold len, slice_cols. cbn [rows]. by rewrite length_map. }
  rewrite Hsl in Hraise.
  destruct (Z.leb_spec (n_centroids self) 0); [lia|].
  destruct (Z.ltb_spec (Z.of_nat (len vectors)) (n_centroids self)); [lia|].
  done.
Qed.

Lemma data1024_len : len data1024 = 256%nat.
Proof. unfold len, data1024. cbn [rows]. by rewrite length_map, length_seq. Qed.

(** The statement of X18 at a run of [pq_train.py] with the stand-ins
    for the two libraries, on 256 rows of width 1024. *)
Lemma compress_uses_the_trained_models_witness :
  exists fs' pq0 pq sq,
    pq_train.main slash_join (list Z) scripted_choice first_rows_kmeans
      [] data1024 50000 "data/models" ∅ = (fs', [], Ok tt) /\
    init_default = Ok pq0 /\
    train (list Z) scripted_choice first_rows_kmeans [] pq0 data1024 50000 = (pq, [], Ok tt) /\
    ScalarQuantizer.fit ScalarQuantizer.init data1024 = (sq, Ok tt) /\
    load pq0 (slash_join "data/models" "pq_codebook.pkl") fs' = Ok pq /\
    forall input,
      compress.main slash_join input "data/models" fs'
      = (pq_codes ← encode pq input;
         quantized ← ScalarQuantizer.quantize sq input;
         Ok (pq_codes, quantized)).
Proof.
  assert (exists pq0, init_default = Ok pq0 /\ n_centroids pq0 = 256)
    as (pq0 & Hinit & HK) by (eexists; split; reflexivity).
  destruct (first_rows_train_returns [] pq0 data1024 50000) as [pq Htrain].
  { rewrite data1024_len. lia. }
  { rewrite data1024_len, HK. lia. }
  destruct (ScalarEdges.fit_cases ScalarQuantizer.init data1024)
    as [[Hempty _]|[_ (lo & hi & Hfit)]].
  { pose proof data1024_len as Hlen. unfold len in Hlen. rewrite Hempty in Hlen. done. }
  pose proof (main_returns slash_join (list Z) scripted_choice first_rows_kmeans
                [] [] data1024 50000 "data/models" ∅ pq0 pq _ Hinit Htrain Hfit) as Hrun.
  destruct (compress_uses_the_trained_models slash_join (list Z) scripted_choice
              first_rows_kmeans [] [] data1024 50000 "data/models" ∅ _ ltac:(done) Hrun)
    as (pq0' & pq' & sq' & H1 & H2 & H3 & _ & H5 & _ & _ & H8).
  rewrite Hinit in H1. injection H1 as <-.
  unfold run_train in Htrain. rewrite Htrain in H2. injection H2 as <-.
  rewrite Hfit in H3. injection H3 as <-.
  eexists _, pq0, pq, _. split; [exact Hrun|]. by split_and!.
Defined.

(** The statement of X19 at a run of [pq_train.py] on no vector, and at
    [compress.py] on an empty directory. *)
Lemma train_and_fit_fail_before_any_save_witness :
  (exists pq0 pq e,
     init_default = Ok pq0 /\
     train (list Z) scripted_choice first_rows_kmeans [] pq0 (mk_ndarray 1024 []) 50000
     = (pq, [], Raise e) /\
     pq_train.main slash_join (list Z) scripted_choice first_rows_kmeans
       [] (mk_ndarray 1024 []) 50000 "data/models" ∅ = (∅, [], Raise e)) /\
  forall input,
    compress.main slash_join input "data/models" ∅ = Raise FileNotFoundError.
Proof.
  destruct (train_and_fit_fail_before_any_save slash_join (list Z) scripted_choice
              first_rows_kmeans "data/models" ∅) as (H1 & _ & H2 & _).
  split.
  - eexists _, _, _. split; [reflexivity|].
    assert (train (list Z) scripted_choice first_rows_kmeans []
              (mk 8 256 1024 128 [] false) (mk_ndarray 1024 []) 50000
            = (mk 8 256 1024 128 [] false, [], Raise (ValueError msg_kmeans))) as Htrain
      by reflexivity.
    split; [exact Htrain|]. by apply (H1 [] [] _ _ _ _ _ eq_refl Htrain).
  - apply H2. reflexivity.
Defined.

End ScriptFacts.

(** * Properties of the float computations *)

(** ** The rounding of binary32 *)

Module Binary32Facts.
Import Binary32.

Local Open Scope Q_scope.

Lemma pow2_pos (e : Z) : 0 < pow2 e.
Proof. apply Qpower_0_lt. lra. Qed.

Lemma pow2_plus (a b : Z) : pow2 (a + b) == pow2 a * pow2 b.
Proof. apply Qpower_plus. lra. Qed.

Lemma pow2_le (a b : Z) : (a <= b)%Z -> pow2 a <= pow2 b.
Proof. intros H. apply Qpower_le_compat_l; [done|lra]. Qed.

Lemma pow2_lt (a b : Z) : (a < b)%Z -> pow2 a < pow2 b.
Proof. intros H. apply Qpower_lt_compat_l; [done|lra]. Qed.

Lemma pow2_lt_inv (a b : Z) : pow2 a < pow2 b -> (a < b)%Z.
Proof. intros H. apply (Qpower_lt_compat_l_inv 2); [done|lra]. Qed.

Lemma pow2_Z (e : Z) : (0 <= e)%Z -> pow2 e == inject_Z (2 ^ e).
Proof. intros H. unfold pow2. by rewrite Zpower_Qpower. Qed.

Lemma pow2_succ (a : Z) : pow2 (a + 1) == 2 * pow2 a.
Proof. rewrite pow2_plus. unfold pow2 at 2. rewrite Qpower_1_r. ring. Qed.

(** A positive integer between two powers of two. *)
Lemma log2_pow2 (n : Z) :
  (0 < n)%Z ->
  pow2 (Z.log2 n) <= inject_Z n /\ inject_Z n < pow2 (Z.log2 n + 1).
Proof.
  intros Hn. destruct (Z.log2_spec n Hn) as [H1 H2].
  pose proof (Z.log2_nonneg n) as H0.
  rewrite !pow2_Z by lia. split.
  - by rewrite <- Zle_Qle.
  - rewrite <- Zlt_Qlt. by replace (Z.log2 n + 1)%Z with (Z.succ (Z.log2 n)) by lia.
Qed.

Lemma ilog2_spec (x : Q) :
  0 < x -> pow2 (ilog2 x) <= x /\ x < pow2 (ilog2 x + 1).
Proof.
  intros Hx. destruct x as [n d].
  assert (0 < n)%Z as Hn.
  { unfold Qlt in Hx. simpl in Hx. lia. }
  unfold ilog2. cbn [Qnum Qden].
  set (a := Z.log2 n). set (b := Z.log2 (Z.pos d)). set (k := (a - b)%Z).
  destruct (log2_pow2 n Hn) as [Na Nb]. fold a in Na, Nb.
  destruct (log2_pow2 (Z.pos d) ltac:(lia)) as [Da Db]. fold b in Da, Db.
  set (N := inject_Z n) in *. set (D := inject_Z (Z.pos d)) in *.
  assert (0 < D) as HD.
  { unfold D. change 0 with (inject_Z 0). rewrite <- Zlt_Qlt. lia. }
  assert ((n # d) * D == N) as Hx'.
  { unfold N, D. rewrite (Qmake_Qdiv n d). field. 
    intros E. fold D in E. lra. }
  generalize dependent (n # d). intros x Hx Hx'.
  (* the test compares [x] with [pow2 k] *)
  assert (pow2 (Z.max 0 k) == pow2 k * pow2 (Z.max 0 (- k))) as Hsplit.
  { rewrite <- pow2_plus. f_equiv. lia. }
  assert ((n * 2 ^ Z.max 0 (- k) < Z.pos d * 2 ^ Z.max 0 k)%Z <-> x < pow2 k) as Htest.
  { rewrite Zlt_Qlt, !inject_Z_mult. fold N D.
    rewrite <- !pow2_Z by lia. rewrite Hsplit, <- Hx'.
    pose proof (pow2_pos (Z.max 0 (- k))) as Hp.
    split; intros H.
    - apply Qmult_lt_r with (D * pow2 (Z.max 0 (- k))); [nra|].
      lra.
    - assert (x * (D * pow2 (Z.max 0 (- k))) < pow2 k * (D * pow2 (Z.max 0 (- k)))).
      { apply Qmult_lt_r; [nra|done]. }
      lra. }
  assert (pow2 (k - 1) * pow2 (b + 1) == pow2 a) as Hlow.
  { rewrite <- pow2_plus. f_equiv. lia. }
  assert (pow2 (k + 1) * pow2 b == pow2 (a + 1)) as Hup.
  { rewrite <- pow2_plus. f_equiv. lia. }
  pose proof (pow2_pos (k - 1)) as P1. pose proof (pow2_pos (k + 1)) as P2.
  assert (pow2 (k - 1) < x) as Hgt.
  { apply Qmult_lt_r with D; [done|].
    apply Qlt_le_trans with (pow2 (k - 1) * pow2 (b + 1)); [|lra].
    apply Qmult_lt_l; done. }
  assert (x < pow2 (k + 1)) as Hlt.
  { apply Qmult_lt_r with D; [done|].
    apply Qlt_le_trans with (pow2 (a + 1)); [lra|].
    rewrite <- Hup. apply Qmult_le_l; done. }
  destruct (Z.ltb_spec (n * 2 ^ Z.max 0 (- k)) (Z.pos d * 2 ^ Z.max 0 k)) as [E|E].
  - apply Htest in E. replace (k - 1 + 1)%Z with k by lia. split; lra.
  - split; [|done]. destruct (Qlt_le_dec x (pow2 k)) as [L|L]; [|done].
    apply Htest in L. lia.
Qed.

Lemma ilog2_unique (x : Q) (k : Z) :
  pow2 k <= x -> x < pow2 (k + 1) -> ilog2 x = k.
Proof.
  intros H1 H2.
  assert (0 < x) as Hx by (pose proof (pow2_pos k); lra).
  destruct (ilog2_spec x Hx) as [S1 S2].
  assert (pow2 k < pow2 (ilog2 x + 1)) as A by lra.
  assert (pow2 (ilog2 x) < pow2 (k + 1)) as B by lra.
  apply pow2_lt_inv in A, B. lia.
Qed.

Lemma ilog2_eq (x y : Q) : 0 < x -> x == y -> ilog2 x = ilog2 y.
Proof.
  intros Hx E. destruct (ilog2_spec x Hx) as [S1 S2].
  symmetry. apply ilog2_unique; lra.
Qed.

Lemma ilog2_mono (x y : Q) : 0 < x -> x <= y -> (ilog2 x <= ilog2 y)%Z.
Proof.
  intros Hx Hxy.
  destruct (ilog2_spec x Hx) as [S1 _].
  destruct (ilog2_spec y ltac:(lra)) as [_ T2].
  assert (pow2 (ilog2 x) < pow2 (ilog2 y + 1)) as A by lra.
  apply pow2_lt_inv in A. lia.
Qed.

(** *** The nearest integer *)

Lemma nearest_even_cases (t : Q) :
  (nearest_even t = Qfloor t /\ t - inject_Z (Qfloor t) <= 1 # 2) \/
  (nearest_even t = (Qfloor t + 1)%Z /\ 1 # 2 <= t - inject_Z (Qfloor t)).
Proof.
  unfold nearest_even.
  destruct (t - inject_Z (Qfloor t) ?= 1 # 2) eqn:E.
  - apply (proj2 (Qeq_alt _ _)) in E. destruct (Z.even (Qfloor t)); [left|right]; split; try done; lra.
  - apply (proj2 (Qlt_alt _ _)) in E. left. split; [done|lra].
  - apply (proj2 (Qgt_alt _ _)) in E. right. split; [done|lra].
Qed.

Lemma floor_bounds (t : Q) :
  inject_Z (Qfloor t) <= t /\ t < inject_Z (Qfloor t) + 1.
Proof.
  split; [apply Qfloor_le|].
  pose proof (Qlt_floor t) as H. by rewrite inject_Z_plus in H.
Qed.

Lemma nearest_even_near (t : Q) :
  - (1 # 2) <= inject_Z (nearest_even t) - t /\ inject_Z (nearest_even t) - t <= 1 # 2.
Proof.
  destruct (floor_bounds t) as [F1 F2].
  destruct (nearest_even_cases t) as [[-> H]|[-> H]].
  - split; lra.
  - rewrite inject_Z_plus. change (inject_Z 1) with 1. split; lra.
Qed.

Lemma nearest_even_eq (t t' : Q) : t == t' -> nearest_even t = nearest_even t'.
Proof.
  intros E. unfold nearest_even.
  assert (Qfloor t = Qfloor t') as F by (by apply Qfloor_comp).
  rewrite <- F.
  assert ((t - inject_Z (Qfloor t) ?= 1 # 2) = (t' - inject_Z (Qfloor t) ?= 1 # 2)) as ->; [|done].
  apply Qcompare_comp; [lra|done].
Qed.

Lemma nearest_even_Z (z : Z) : nearest_even (inject_Z z) = z.
Proof.
  unfold nearest_even. rewrite Qfloor_Z.
  assert ((inject_Z z - inject_Z z ?= 1 # 2) = Lt) as ->; [|done].
  apply (proj1 (Qlt_alt _ _)). generalize (inject_Z z). intros q. lra.
Qed.

Lemma nearest_even_mono (t t' : Q) : t <= t' -> (nearest_even t <= nearest_even t')%Z.
Proof.
  intros H.
  pose proof (Qfloor_resp_le _ _ H) as Hf.
  destruct (floor_bounds t) as [F1 F2]. destruct (floor_bounds t') as [G1 G2].
  destruct (Z.eq_dec (Qfloor t) (Qfloor t')) as [E|NE].
  - unfold nearest_even. rewrite <- E in *.
    destruct (t - inject_Z (Qfloor t) ?= 1 # 2) eqn:C;
      destruct (t' - inject_Z (Qfloor t) ?= 1 # 2) eqn:C';
      first [apply (proj2 (Qeq_alt _ _)) in C | apply (proj2 (Qlt_alt _ _)) in C
            | apply (proj2 (Qgt_alt _ _)) in C];
      first [apply (proj2 (Qeq_alt _ _)) in C' | apply (proj2 (Qlt_alt _ _)) in C'
            | apply (proj2 (Qgt_alt _ _)) in C'];
      try lia; try (destruct (Z.even (Qfloor t)); lia); exfalso; lra.
  - destruct (nearest_even_cases t) as [[-> _]|[-> _]];
      destruct (nearest_even_cases t') as [[-> _]|[-> _]]; lia.
Qed.

Lemma nearest_even_nonneg (t : Q) : 0 <= t -> (0 <= nearest_even t)%Z.
Proof.
  intros H. rewrite <- (nearest_even_Z 0). by apply nearest_even_mono.
Qed.

(** *** Rounding a positive number *)

Lemma div_mul (x p : Q) : 0 < p -> x / p * p == x.
Proof. intros H. field. lra. Qed.

Lemma ulp_exp_eq (x y : Q) : 0 < x -> x == y -> ulp_exp x = ulp_exp y.
Proof. intros Hx E. unfold ulp_exp. by rewrite (ilog2_eq x y). Qed.

Lemma round_pos_eq (x y : Q) : 0 < x -> x == y -> round_pos x == round_pos y.
Proof.
  intros Hx E. unfold round_pos. cbv zeta.
  rewrite <- (ulp_exp_eq x y Hx E).
  rewrite (nearest_even_eq (y / pow2 (ulp_exp x)) (x / pow2 (ulp_exp x))); [done|].
  unfold Qdiv. apply Qmult_comp; [by symmetry|reflexivity].
Qed.

(** The last place and the binade of [x]. *)
Lemma ulp_binade (x : Q) :
  pow2 (ulp_exp x) * pow2 (prec - 1) == pow2 (Z.max (ilog2 x) emin).
Proof. rewrite <- pow2_plus. unfold ulp_exp. f_equiv. lia. Qed.

Lemma scaled_lt (x : Q) : 0 < x -> x / pow2 (ulp_exp x) < pow2 prec.
Proof.
  intros Hx. destruct (ilog2_spec x Hx) as [_ S2].
  pose proof (pow2_pos (ulp_exp x)) as Hp.
  apply Qlt_shift_div_r; [done|].
  assert (pow2 prec * pow2 (ulp_exp x) == pow2 (Z.max (ilog2 x) emin + 1)) as ->.
  { rewrite <- pow2_plus. unfold ulp_exp. f_equiv. unfold prec. lia. }
  apply Qlt_le_trans with (pow2 (ilog2 x + 1)); [done|]. apply pow2_le. lia.
Qed.

Lemma scaled_ge (x : Q) :
  0 < x -> (emin <= ilog2 x)%Z -> pow2 (prec - 1) <= x / pow2 (ulp_exp x).
Proof.
  intros Hx Hn. destruct (ilog2_spec x Hx) as [S1 _].
  pose proof (pow2_pos (ulp_exp x)) as Hp.
  apply Qle_shift_div_l; [done|].
  rewrite Qmult_comm, ulp_binade. by rewrite Z.max_l by done.
Qed.

Lemma scaled_pos (x : Q) : 0 < x -> 0 < x / pow2 (ulp_exp x).
Proof.
  intros Hx. apply Qlt_shift_div_l; [apply pow2_pos|]. lra.
Qed.

Lemma mantissa_le (x : Q) :
  0 < x -> (nearest_even (x / pow2 (ulp_exp x)) <= 2 ^ prec)%Z.
Proof.
  intros Hx. rewrite <- (nearest_even_Z (2 ^ prec)).
  apply nearest_even_mono. rewrite <- pow2_Z by done.
  apply Qlt_le_weak. by apply scaled_lt.
Qed.

Lemma mantissa_ge (x : Q) :
  0 < x -> (emin <= ilog2 x)%Z ->
  (2 ^ (prec - 1) <= nearest_even (x / pow2 (ulp_exp x)))%Z.
Proof.
  intros Hx Hn. rewrite <- (nearest_even_Z (2 ^ (prec - 1))) at 1.
  apply nearest_even_mono. rewrite <- pow2_Z by done.
  by apply scaled_ge.
Qed.

Lemma mantissa_nonneg (x : Q) :
  0 < x -> (0 <= nearest_even (x / pow2 (ulp_exp x)))%Z.
Proof.
  intros Hx. apply nearest_even_nonneg. apply Qlt_le_weak. by apply scaled_pos.
Qed.

Lemma round_pos_nonneg (x : Q) : 0 < x -> 0 <= round_pos x.
Proof.
  intros Hx. unfold round_pos. cbv zeta.
  apply Qmult_le_0_compat; [|apply Qlt_le_weak, pow2_pos].
  change 0 with (inject_Z 0). rewrite <- Zle_Qle. by apply mantissa_nonneg.
Qed.

(** The result stays within the binade of [x], its upper end included. *)
Lemma round_pos_le_next (x : Q) :
  0 < x -> round_pos x <= pow2 (Z.max (ilog2 x) emin + 1).
Proof.
  intros Hx. unfold round_pos. cbv zeta.
  assert (pow2 (Z.max (ilog2 x) emin + 1) == pow2 prec * pow2 (ulp_exp x)) as ->.
  { rewrite <- pow2_plus. unfold ulp_exp. f_equiv. unfold prec. lia. }
  apply Qmult_le_compat_r; [|apply Qlt_le_weak, pow2_pos].
  rewrite (pow2_Z prec) by done. rewrite <- Zle_Qle. by apply mantissa_le.
Qed.

Lemma round_pos_ge_binade (x : Q) :
  0 < x -> (emin <= ilog2 x)%Z -> pow2 (ilog2 x) <= round_pos x.
Proof.
  intros Hx Hn. unfold round_pos. cbv zeta.
  assert (pow2 (ilog2 x) == pow2 (prec - 1) * pow2 (ulp_exp x)) as ->.
  { rewrite Qmult_comm, ulp_binade. by rewrite Z.max_l by done. }
  apply Qmult_le_compat_r; [|apply Qlt_le_weak, pow2_pos].
  rewrite (pow2_Z (prec - 1)) by done. rewrite <- Zle_Qle. by apply mantissa_ge.
Qed.

Lemma round_pos_mono (x y : Q) : 0 < x -> x <= y -> round_pos x <= round_pos y.
Proof.
  intros Hx Hxy. assert (0 < y) as Hy by lra.
  pose proof (ilog2_mono x y Hx Hxy) as Hl.
  destruct (Z.eq_dec (Z.max (ilog2 x) emin) (Z.max (ilog2 y) emin)) as [E|NE].
  - assert (ulp_exp x = ulp_exp y) as Ee by (unfold ulp_exp; by rewrite E).
    unfold round_pos. cbv zeta. rewrite <- Ee.
    apply Qmult_le_compat_r; [|apply Qlt_le_weak, pow2_pos].
    rewrite <- Zle_Qle. apply nearest_even_mono.
    apply Qmult_le_compat_r; [done|].
    apply Qlt_le_weak, Qinv_lt_0_compat, pow2_pos.
  - assert (Z.max (ilog2 x) emin + 1 <= ilog2 y)%Z as Hstep by lia.
    apply Qle_trans with (pow2 (Z.max (ilog2 x) emin + 1)); [by apply round_pos_le_next|].
    apply Qle_trans with (pow2 (ilog2 y)); [by apply pow2_le|].
    apply round_pos_ge_binade; [done|lia].
Qed.

(** The error is at most half a unit of the last place. *)
Lemma round_pos_error (x : Q) :
  0 < x ->
  - (pow2 (ulp_exp x) * (1 # 2)) <= round_pos x - x /\
  round_pos x - x <= pow2 (ulp_exp x) * (1 # 2).
Proof.
  intros Hx. unfold round_pos. cbv zeta.
  pose proof (pow2_pos (ulp_exp x)) as Hp.
  pose proof (div_mul x (pow2 (ulp_exp x)) Hp) as Hd.
  destruct (nearest_even_near (x / pow2 (ulp_exp x))) as [N1 N2].
  set (t := x / pow2 (ulp_exp x)) in *.
  set (m := inject_Z (nearest_even t)) in *.
  set (p := pow2 (ulp_exp x)) in *.
  split; nra.
Qed.

Lemma half_ulp_bound (x : Q) :
  0 < x -> pow2 (ulp_exp x) * (1 # 2) <= unit_roundoff * x + underflow.
Proof.
  intros Hx. destruct (ilog2_spec x Hx) as [S1 _].
  pose proof (pow2_pos (- prec)) as Hu. pose proof (pow2_pos (emin - prec)) as He.
  unfold unit_roundoff, underflow.
  assert (pow2 (ulp_exp x) * (1 # 2) == pow2 (Z.max (ilog2 x) emin) * pow2 (- prec)) as ->.
  { rewrite <- pow2_plus.
    assert (pow2 (ulp_exp x) == pow2 (Z.max (ilog2 x) emin + - prec) * 2) as ->; [|field].
    rewrite Qmult_comm, <- (pow2_succ (Z.max (ilog2 x) emin + - prec)). unfold ulp_exp. f_equiv.
    unfold prec. lia. }
  destruct (Z.le_ge_cases emin (ilog2 x)) as [H|H].
  - rewrite Z.max_l by done.
    assert (pow2 (ilog2 x) * pow2 (- prec) <= x * pow2 (- prec)) by (apply Qmult_le_compat_r; lra).
    lra.
  - rewrite Z.max_r by lia. rewrite <- pow2_plus.
    assert (0 <= pow2 (- prec) * x) by (apply Qmult_le_0_compat; lra).
    replace (emin + - prec)%Z with (emin - prec)%Z by lia. lra.
Qed.

(** A multiple of the unit of its own last place is a float. *)
Lemma round_pos_fixed (y : Q) (z : Z) :
  y == inject_Z z * pow2 (ulp_exp y) -> round_pos y == y.
Proof.
  intros E. unfold round_pos. cbv zeta.
  pose proof (pow2_pos (ulp_exp y)) as Hp.
  rewrite (nearest_even_eq (y / pow2 (ulp_exp y)) (inject_Z z)).
  - rewrite nearest_even_Z. by symmetry.
  - apply Qmult_inj_r with (pow2 (ulp_exp y)); [lra|].
    rewrite div_mul by done. exact E.
Qed.

Lemma round_pos_idem (x : Q) :
  0 < x -> 0 < round_pos x -> round_pos (round_pos x) == round_pos x.
Proof.
  intros Hx Hy.
  pose proof (mantissa_le x Hx) as Hm.
  pose proof (mantissa_nonneg x Hx) as Hm0.
  pose proof (pow2_pos (ulp_exp x)) as Hp.
  set (y := round_pos x) in *.
  assert (y == inject_Z (nearest_even (x / pow2 (ulp_exp x))) * pow2 (ulp_exp x)) as Ey by done.
  set (m := nearest_even (x / pow2 (ulp_exp x))) in *.
  set (E := Z.max (ilog2 x) emin).
  assert (ulp_exp x = E - (prec - 1))%Z as Ee by done.
  destruct (Z.eq_dec m (2 ^ prec)%Z) as [Hmax|Hlt].
  - (* the result is the power of two that begins the next binade *)
    assert (y == pow2 (E + 1)) as Epow.
    { rewrite Ey, Hmax, <- (pow2_Z prec) by done. rewrite <- pow2_plus, Ee.
      f_equiv. unfold prec. lia. }
    assert (ilog2 y = E + 1)%Z as Hl.
    { apply ilog2_unique; [lra|]. rewrite Epow. apply pow2_lt. lia. }
    apply (round_pos_fixed y (2 ^ (prec - 1))%Z).
    rewrite <- (pow2_Z (prec - 1)%Z) by done. rewrite <- pow2_plus.
    apply Qeq_trans with (pow2 (E + 1)); [exact Epow|].
    f_equiv. unfold ulp_exp. rewrite Hl. unfold E, prec, emin. lia.
  - (* the result stays in the binade of [x] *)
    assert (m < 2 ^ prec)%Z as Hm' by lia.
    assert (y < pow2 (E + 1)) as Hup.
    { rewrite Ey.
      assert (pow2 (E + 1) == pow2 prec * pow2 (ulp_exp x)) as ->.
      { rewrite <- pow2_plus, Ee. f_equiv. unfold prec. lia. }
      apply Qmult_lt_r; [done|]. rewrite (pow2_Z prec) by done. by rewrite <- Zlt_Qlt. }
    destruct (ilog2_spec y Hy) as [S1 _].
    assert (ilog2 y < E + 1)%Z as Hl by (apply pow2_lt_inv; lra).
    assert (ulp_exp y <= ulp_exp x)%Z as Hle.
    { unfold ulp_exp. fold E. unfold E in *. lia. }
    apply (round_pos_fixed y (m * 2 ^ (ulp_exp x - ulp_exp y))%Z).
    rewrite inject_Z_mult, <- pow2_Z by lia.
    rewrite <- Qmult_assoc, <- pow2_plus.
    apply Qeq_trans with (inject_Z m * pow2 (ulp_exp x)); [exact Ey|].
    f_equiv. f_equiv. lia.
Qed.

(** *** Rounding *)

Lemma round_eq (x y : Q) : x == y -> round x = round y.
Proof. intros E. unfold round. by rewrite (Qred_complete x y E). Qed.

Lemma round_cases (x : Q) :
  (x == 0 /\ round x = 0) \/
  (0 < x /\ round x == round_pos x) \/
  (x < 0 /\ round x == - round_pos (- x)).
Proof.
  unfold round. cbv zeta. pose proof (Qred_correct x) as Er.
  destruct (Qeq_bool (Qred x) 0) eqn:E0.
  - left. apply Qeq_bool_iff in E0. split; [lra|done].
  - apply Qeq_bool_neq in E0.
    destruct (Qle_bool 0 (Qred x)) eqn:E1.
    + right. left. apply Qle_bool_iff in E1.
      assert (0 < x) as Hx by lra. split; [done|].
      rewrite Qred_correct. apply round_pos_eq; lra.
    + right. right.
      assert (x < 0) as Hx.
      { destruct (Qlt_le_dec x 0) as [L|L]; [done|].
        assert (Qle_bool 0 (Qred x) = true) by (apply Qle_bool_iff; lra). congruence. }
      split; [done|]. rewrite Qred_correct.
      apply Qopp_comp. apply round_pos_eq; lra.
Qed.

Lemma round_0 : round 0 = 0.
Proof. reflexivity. Qed.

Lemma round_mono (x y : Q) : x <= y -> round x <= round y.
Proof.
  intros H.
  destruct (round_cases x) as [[X0 ->]|[[X0 ->]|[X0 ->]]];
    destruct (round_cases y) as [[Y0 ->]|[[Y0 ->]|[Y0 ->]]].
  - lra.
  - pose proof (round_pos_nonneg y Y0). lra.
  - lra.
  - lra.
  - by apply round_pos_mono.
  - lra.
  - pose proof (round_pos_nonneg (- x)) as N. specialize (N ltac:(lra)). lra.
  - pose proof (round_pos_nonneg (- x)) as N. specialize (N ltac:(lra)).
    pose proof (round_pos_nonneg y Y0). lra.
  - pose proof (round_pos_mono (- y) (- x)) as M.
    specialize (M ltac:(lra) ltac:(lra)). lra.
Qed.

Lemma round_idem (x : Q) : round (round x) == round x.
Proof.
  destruct (round_cases x) as [[X0 E]|[[X0 E]|[X0 E]]].
  - by rewrite E.
  - pose proof (round_pos_nonneg x X0) as Hy.
    destruct (Qlt_le_dec 0 (round_pos x)) as [Hp|Hz].
    + rewrite (round_eq _ _ E).
      destruct (round_cases (round_pos x)) as [[Y0 _]|[[Y0 ->]|[Y0 _]]]; try lra.
      rewrite E. by apply round_pos_idem.
    + assert (round x == 0) as Ez by lra.
      rewrite (round_eq _ _ Ez), round_0. lra.
  - pose proof (round_pos_nonneg (- x)) as Hy. specialize (Hy ltac:(lra)).
    destruct (Qlt_le_dec 0 (round_pos (- x))) as [Hp|Hz].
    + rewrite (round_eq _ _ E).
      destruct (round_cases (- round_pos (- x))) as [[Y0 _]|[[Y0 _]|[Y0 ->]]]; try lra.
      rewrite E. apply Qopp_comp.
      rewrite (round_pos_eq (- - round_pos (- x)) (round_pos (- x))); [|lra|ring].
      apply round_pos_idem; lra.
    + assert (round x == 0) as Ez by lra.
      rewrite (round_eq _ _ Ez), round_0. lra.
Qed.

Lemma round_error (x : Q) :
  Qabs (round x - x) <= unit_roundoff * Qabs x + underflow.
Proof.
  apply Qabs_Qle_condition.
  pose proof (pow2_pos (- prec)) as Hu. pose proof (pow2_pos (emin - prec)) as He.
  fold unit_roundoff in Hu. fold underflow in He.
  destruct (round_cases x) as [[X0 E]|[[X0 E]|[X0 E]]].
  - rewrite E, X0. change (Qabs 0) with 0. split; lra.
  - rewrite (Qabs_pos x) by lra.
    destruct (round_pos_error x X0) as [E1 E2].
    pose proof (half_ulp_bound x X0). split; lra.
  - rewrite (Qabs_neg x) by lra.
    destruct (round_pos_error (- x)) as [E1 E2]; [lra|].
    pose proof (half_ulp_bound (- x)) as Hb. specialize (Hb ltac:(lra)). split; lra.
Qed.

Lemma round_byte (n : Z) : (0 <= n <= 255)%Z -> round (inject_Z n) == inject_Z n.
Proof.
  intros Hn.
  assert (forallb (fun k => Qeq_bool (round (inject_Z (Z.of_nat k))) (inject_Z (Z.of_nat k)))
                  (seq 0 256) = true) as Hall by (by vm_compute).
  rewrite forallb_forall in Hall.
  specialize (Hall (Z.to_nat n)). rewrite Z2Nat.id in Hall by lia.
  apply Qeq_bool_iff, Hall. apply in_seq. lia.
Qed.

(** Binary32 obeys the laws of rounding to nearest. *)
Lemma binary32_ieee : Float.ieee round unit_roundoff underflow.
Proof.
  constructor.
  - intros x y E. by rewrite (round_eq x y E).
  - apply round_mono.
  - apply round_idem.
  - apply round_byte.
  - apply round_error.
  - split; apply Qle_bool_iff; by vm_compute.
  - split; apply Qle_bool_iff; by vm_compute.
Qed.

End Binary32Facts.

(** ** The product quantizer in float arithmetic *)

Module FloatProductFacts.
Import ProductQuantizer ProductSpec DecodeSpec Examples Runs FloatRuns ProductFacts DecodeFacts.

Section Format.

Variable fl32 : Q -> Q.
Variable fl : Q -> Q.
Variable fsum : list Q -> Q.
Variable fsqrt : Q -> Q.

Lemma distances_same (sub cb : ndarray Q) :
  well_shaped sub -> well_shaped cb -> ncols sub = ncols cb ->
  FloatProductQuantizer.distances fl fsum fsqrt sub cb
  = Ok (mk_ndarray (len cb) (map (FloatProductQuantizer.row_distances fl fsum fsqrt cb) (rows sub))).
Proof.
  intros Hs Hc Hw. unfold FloatProductQuantizer.distances. rewrite Hw, broadcast_dim_same. simpl.
  do 2 f_equal. apply map_ext_Forall. eapply Forall_impl; [exact Hs|].
  intros s Hlen. simpl in Hlen. unfold FloatProductQuantizer.row_distances.
  apply map_ext_Forall. eapply Forall_impl; [exact Hc|].
  intros c Hc'. simpl in Hc'. by rewrite !stretch_id by congruence.
Qed.

Lemma float_argmin_axis1_ok (cb : ndarray Q) (subs : list (list Q)) :
  (0 < len cb)%nat ->
  exists nearest,
    argmin_axis1 (mk_ndarray (len cb) (map (FloatProductQuantizer.row_distances fl fsum fsqrt cb) subs)) = Ok nearest /\
    length nearest = length subs /\
    forall i s, subs !! i = Some s ->
      exists k, nearest !! i = Some k /\ argmin (FloatProductQuantizer.row_distances fl fsum fsqrt cb s) = Ok k.
Proof.
  intros HK. unfold argmin_axis1. simpl.
  destruct (Nat.eqb_spec (len cb) 0) as [E|_]; [lia|].
  destruct (traverse_total argmin (map (FloatProductQuantizer.row_distances fl fsum fsqrt cb) subs)) as [nearest Hn].
  { apply Forall_map, Forall_forall. intros s _.
    destruct (argmin_spec (FloatProductQuantizer.row_distances fl fsum fsqrt cb s)) as (k & x & Hk & _).
    - unfold FloatProductQuantizer.row_distances, len in *. destruct (rows cb); simpl in *; [lia|done].
    - eauto. }
  exists nearest. split; [done|]. split.
  - apply traverse_length in Hn. by rewrite length_map in Hn.
  - intros i s Hi.
    destruct (traverse_lookup argmin _ nearest i (FloatProductQuantizer.row_distances fl fsum fsqrt cb s) Hn) as (k & Hk & Ha).
    + by rewrite list_lookup_fmap, Hi.
    + eauto.
Qed.

Lemma float_encode_loop_spec (self : t) (vectors : ndarray Q) (cbs : list (ndarray Q)) :
  forall (m0 : nat) (codes : ndarray Z),
  well_shaped vectors -> len codes = len vectors -> well_shaped codes ->
  (m0 + length cbs <= ncols codes)%nat ->
  (forall k cb, cbs !! k = Some cb ->
     well_shaped cb /\ (0 < len cb)%nat /\
     ncols cb = ncols (slice_cols (start_of self (m0 + k)) (stop_of self (m0 + k)) vectors)) ->
  exists out,
    FloatProductQuantizer.encode_loop fl fsum fsqrt self vectors m0 cbs codes = Ok out /\
    ncols out = ncols codes /\ len out = len codes /\ well_shaped out /\
    forall i row, rows vectors !! i = Some row ->
      exists crow0 crow,
        rows codes !! i = Some crow0 /\ rows out !! i = Some crow /\
        (forall m, (m < m0 \/ m0 + length cbs <= m)%nat -> crow !! m = crow0 !! m) /\
        (forall k cb, cbs !! k = Some cb ->
           exists a,
             argmin (FloatProductQuantizer.row_distances fl fsum fsqrt cb
                       (slice (start_of self (m0 + k)) (stop_of self (m0 + k)) row)) = Ok a /\
             crow !! (m0 + k)%nat = Some (int_to_uint8 (Z.of_nat a))).
Proof.
  induction cbs as [|cb cbs IH]; intros m0 codes Hv Hlen Hc Hm Hcbs.
  - exists codes. simpl. split_and!; try done.
    intros i row Hi.
    destruct (lookup_lt_is_Some_2 (rows codes) i) as [crow0 H0].
    { apply lookup_lt_Some in Hi. unfold len in Hlen. lia. }
    exists crow0, crow0. split_and!; try done.
  - simpl in Hm. cbn [FloatProductQuantizer.encode_loop].
    destruct (Hcbs 0%nat cb eq_refl) as (Hcb & HK & Hw).
    rewrite Nat.add_0_r in Hw. fold (start_of self m0). fold (stop_of self m0).
    rewrite distances_same; [|by apply slice_cols_well_shaped|done|done].
    simpl.
    destruct (float_argmin_axis1_ok cb (map (slice (start_of self m0) (stop_of self m0)) (rows vectors)) HK)
      as (nearest & -> & Hnl & Hnear).
    simpl. unfold set_col.
    destruct (Nat.ltb_spec m0 (ncols codes)) as [Hlt|]; [|lia]. simpl.
    set (codes' := mk_ndarray (ncols codes)
           (zip_with (fun row v => <[m0 := int_to_uint8 v]> row) (rows codes)
                     (map Z.of_nat nearest))).
    rewrite length_map in Hnl.
    assert (len codes' = len vectors) as Hlen'.
    { unfold len, codes' in *. simpl. rewrite length_zip_with, length_map. lia. }
    assert (well_shaped codes') as Hc'.
    { unfold well_shaped, codes'. simpl.
      eapply Forall_zip_with_fst; [exact Hc|].
      apply Forall_true. intros v r Hr. simpl in *. by rewrite length_insert. }
    destruct (IH (S m0) codes' Hv Hlen' Hc') as (out & Hout & Hnc & Hnl' & Hws & Hspec).
    { unfold codes'. simpl. lia. }
    { intros k cb' Hk. replace (S m0 + k)%nat with (m0 + S k)%nat by lia.
      by apply Hcbs. }
    exists out. split_and!; try done.
    + congruence.
    + intros i row Hi.
      destruct (Hspec i row Hi) as (crow1 & crow & H1 & H2 & Hsame & Hnew).
      unfold codes' in H1. simpl in H1.
      apply lookup_zip_with_Some in H1 as (crow0 & v & -> & Hcrow0 & Hv0).
      exists crow0, crow. split_and!; try done.
      * intros m Hm'. rewrite Hsame by lia.
        apply list_lookup_insert_ne. lia.
      * intros [|k] cb' Hk; simpl in Hk.
        -- injection Hk as <-. rewrite Nat.add_0_r.
           destruct (Hnear i (slice (start_of self m0) (stop_of self m0) row)) as (a & Ha & Hmin).
           { by rewrite list_lookup_fmap, Hi. }
           exists a. split; [done|].
           rewrite Hsame by lia.
           rewrite list_lookup_fmap, Ha in Hv0. injection Hv0 as <-.
           apply list_lookup_insert_eq.
           pose proof (Forall_lookup_1 _ _ _ _ Hc Hcrow0) as Hl. simpl in Hl. lia.
        -- destruct (Hnew k cb' Hk) as (a & Ha & Hcode).
           exists a. by replace (m0 + S k)%nat with (S m0 + k)%nat by lia.
Qed.

(** [encode] on a trained model and an input at least as wide as the
    model: it returns, and each code is the stored [argmin]. *)
Lemma float_encode_ok (pq : t) (vectors : ndarray Q) :
  Trained pq -> well_shaped vectors -> vector_dim pq <= Z.of_nat (ncols vectors) ->
  exists codes,
    FloatProductQuantizer.encode fl32 fl fsum fsqrt pq vectors = Ok codes /\
    Z.of_nat (ncols codes) = n_subspaces pq /\ len codes = len vectors /\
    well_shaped codes /\
    forall i row m cb,
      rows vectors !! i = Some row -> codebooks pq !! m = Some cb ->
      exists crow a,
        rows codes !! i = Some crow /\
        argmin (FloatProductQuantizer.row_distances fl fsum fsqrt cb (slice (start_of pq m) (stop_of pq m) (map fl32 row))) = Ok a /\
        crow !! m = Some (int_to_uint8 (Z.of_nat a)).
Proof.
  intros T Hv Hw. pose proof T as [Hf HM HK Hd HD Hn Hb].
  unfold FloatProductQuantizer.encode. rewrite Hf. cbn [negb]. cbv zeta.
  set (v32 := mat_scalar_op fl32 vectors).
  assert (well_shaped v32) as Hv32.
  { unfold well_shaped, v32, mat_scalar_op. cbn [rows ncols].
    apply Forall_map. eapply Forall_impl; [exact Hv|]. intros r Hr.
    cbn beta in *. by rewrite length_map. }
  assert (ncols v32 = ncols vectors) as Hc32 by done.
  assert (len v32 = len vectors) as Hl32.
  { unfold len, v32, mat_scalar_op. cbn [rows]. by rewrite length_map. }
  rewrite zeros_ok by lia. simpl.
  set (codes0 := mk_ndarray (Z.to_nat (n_subspaces pq))
                   (replicate (len v32) (replicate (Z.to_nat (n_subspaces pq)) 0))).
  destruct (float_encode_loop_spec pq v32 (codebooks pq) 0%nat codes0)
    as (out & Hout & Hnc & Hnl & Hws & Hspec); try done.
  - unfold len, codes0. simpl. by rewrite length_replicate.
  - unfold well_shaped, codes0. simpl. apply Forall_replicate.
    by rewrite length_replicate.
  - unfold codes0. simpl. lia.
  - intros k cb Hk. cbn [Nat.add].
    pose proof (Forall_lookup_1 _ _ _ _ Hb Hk) as (H1 & H2 & H3). cbn beta in *.
    split_and!; [done|lia|].
    apply lookup_lt_Some in Hk.
    pose proof (subspace_width pq v32 k T) as Hsw. rewrite Hc32 in Hsw.
    specialize (Hsw Hw Hk). lia.
  - exists out. split_and!; try done.
    + rewrite Hnc. unfold codes0. simpl. lia.
    + rewrite Hnl, <- Hl32. unfold len at 1. unfold codes0. cbn [rows].
      by rewrite length_replicate.
    + intros i row m cb Hi Hm.
      assert (rows v32 !! i = Some (map fl32 row)) as Hi32.
      { unfold v32, mat_scalar_op. cbn [rows]. by rewrite list_lookup_fmap, Hi. }
      destruct (Hspec i (map fl32 row) Hi32) as (crow0 & crow & _ & Hc & _ & Hnew).
      destruct (Hnew m cb Hm) as (a & Ha & Hcode). simpl in *.
      eauto.
Qed.

(** The stored code is the index [argmin] found, as a [uint8]. *)
Lemma float_encode_argmin (pq : t) (vectors : ndarray Q) :
  Trained pq -> well_shaped vectors -> vector_dim pq <= Z.of_nat (ncols vectors) ->
  exists codes,
    FloatProductQuantizer.encode fl32 fl fsum fsqrt pq vectors = Ok codes /\
    Z.of_nat (ncols codes) = n_subspaces pq /\ len codes = len vectors /\
    well_shaped codes /\
    forall i row m cb,
      rows vectors !! i = Some row -> codebooks pq !! m = Some cb ->
      exists crow a centroid,
        rows codes !! i = Some crow /\
        crow !! m = Some (int_to_uint8 (Z.of_nat a)) /\
        rows cb !! a = Some centroid /\
        (forall j cj, rows cb !! j = Some cj ->
           (FloatProductQuantizer.norm_diff fl fsum fsqrt
              (slice (start_of pq m) (stop_of pq m) (map fl32 row)) centroid
            <= FloatProductQuantizer.norm_diff fl fsum fsqrt
                 (slice (start_of pq m) (stop_of pq m) (map fl32 row)) cj)%Q) /\
        (forall j cj, rows cb !! j = Some cj -> (j < a)%nat ->
           (FloatProductQuantizer.norm_diff fl fsum fsqrt
              (slice (start_of pq m) (stop_of pq m) (map fl32 row)) centroid
            < FloatProductQuantizer.norm_diff fl fsum fsqrt
                (slice (start_of pq m) (stop_of pq m) (map fl32 row)) cj)%Q).
Proof.
  intros T Hv Hw.
  destruct (float_encode_ok pq vectors T Hv Hw) as (codes & Henc & Hnc & Hnl & Hws & Hspec).
  exists codes. split_and!; try done.
  intros i row m cb Hi Hm.
  destruct (Hspec i row m cb Hi Hm) as (crow & a & Hcrow & Ha & Hcode).
  set (sub := slice (start_of pq m) (stop_of pq m) (map fl32 row)) in *.
  pose proof (Forall_lookup_1 _ _ _ _ (trained_books pq T) Hm) as (Hcb & Hcw & Hcl).
  cbn beta in *.
  destruct (argmin_spec (FloatProductQuantizer.row_distances fl fsum fsqrt cb sub))
    as (k & x & Hk & Hx & Hle & Hlt).
  { unfold FloatProductQuantizer.row_distances, len in *.
    destruct (rows cb); simpl in *; [|done].
    pose proof (trained_centroids pq T). lia. }
  rewrite Ha in Hk. injection Hk as <-.
  unfold FloatProductQuantizer.row_distances in Hx, Hle, Hlt.
  rewrite list_lookup_fmap in Hx.
  destruct (rows cb !! a) as [centroid|] eqn:Hcen; [|done].
  simpl in Hx. injection Hx as <-.
  exists crow, a, centroid. split_and!; try done.
  - intros j cj Hj. apply (Hle j). by rewrite list_lookup_fmap, Hj.
  - intros j cj Hj Hja. apply (Hlt j); [|done]. by rewrite list_lookup_fmap, Hj.
Qed.

(** X20.  What [encode] stores, whatever the number of centroids: for a
    trained model and an input at least [vector_dim] wide it returns, and
    the code of subspace [m] is the index of the first centroid of least
    computed distance from the subvector (converted to [float32]),
    reduced modulo 256 by the assignment into the [uint8] array.  With more than 256 centroids an index from 256 on is
    stored as another centroid's code. *)
Theorem encode_stores_index_modulo_256 (pq : t) (vectors : ndarray Q) :
  Trained pq -> well_shaped vectors -> vector_dim pq <= Z.of_nat (ncols vectors) ->
  exists codes,
    FloatProductQuantizer.encode fl32 fl fsum fsqrt pq vectors = Ok codes /\
    Z.of_nat (ncols codes) = n_subspaces pq /\ len codes = len vectors /\
    forall i row m cb,
      rows vectors !! i = Some row -> codebooks pq !! m = Some cb ->
      exists crow a centroid,
        rows codes !! i = Some crow /\
        crow !! m = Some (Z.of_nat a mod 256) /\
        rows cb !! a = Some centroid /\
        (256 <= Z.of_nat a -> Z.of_nat a mod 256 <> Z.of_nat a) /\
        let sub := slice (start_of pq m) (stop_of pq m) (map fl32 row) in
        (forall j cj, rows cb !! j = Some cj ->
           (FloatProductQuantizer.norm_diff fl fsum fsqrt sub centroid
            <= FloatProductQuantizer.norm_diff fl fsum fsqrt sub cj)%Q) /\
        (forall j cj, rows cb !! j = Some cj -> (j < a)%nat ->
           (FloatProductQuantizer.norm_diff fl fsum fsqrt sub centroid
            < FloatProductQuantizer.norm_diff fl fsum fsqrt sub cj)%Q).
Proof.
  intros T Hv Hw.
  destruct (float_encode_argmin pq vectors T Hv Hw)
    as (codes & Henc & Hnc & Hnl & _ & Hspec).
  exists codes. split_and!; try done.
  intros i row m cb Hi Hm.
  destruct (Hspec i row m cb Hi Hm) as (crow & a & centroid & Hcrow & Ha & Hcen & Hle & Hlt).
  exists crow, a, centroid. split_and!; try done.
  intros Hbig Heq. pose proof (Z.mod_pos_bound (Z.of_nat a) 256). lia.
Qed.

(** With at most 256 centroids the stored code is the index [argmin]
    found: a centroid of least computed distance, the first of these. *)
Lemma float_encode_nearest (pq : t) (vectors : ndarray Q) :
  Trained pq -> n_centroids pq <= 256 ->
  well_shaped vectors -> vector_dim pq <= Z.of_nat (ncols vectors) ->
  exists codes,
    FloatProductQuantizer.encode fl32 fl fsum fsqrt pq vectors = Ok codes /\
    Z.of_nat (ncols codes) = n_subspaces pq /\ len codes = len vectors /\
    well_shaped codes /\
    Forall (Forall (fun c => 0 <= c < n_centroids pq)) (rows codes) /\
    forall i row m cb,
      rows vectors !! i = Some row -> codebooks pq !! m = Some cb ->
      exists crow a centroid,
        rows codes !! i = Some crow /\ crow !! m = Some (Z.of_nat a) /\
        rows cb !! a = Some centroid /\
        (forall j cj, rows cb !! j = Some cj ->
           (FloatProductQuantizer.norm_diff fl fsum fsqrt
              (slice (start_of pq m) (stop_of pq m) (map fl32 row)) centroid
            <= FloatProductQuantizer.norm_diff fl fsum fsqrt
                 (slice (start_of pq m) (stop_of pq m) (map fl32 row)) cj)%Q) /\
        (forall j cj, rows cb !! j = Some cj -> (j < a)%nat ->
           (FloatProductQuantizer.norm_diff fl fsum fsqrt
              (slice (start_of pq m) (stop_of pq m) (map fl32 row)) centroid
            < FloatProductQuantizer.norm_diff fl fsum fsqrt
                (slice (start_of pq m) (stop_of pq m) (map fl32 row)) cj)%Q).
Proof.
  intros T HK Hv Hw.
  destruct (float_encode_argmin pq vectors T Hv Hw)
    as (codes & Henc & Hnc & Hnl & Hws & Hspec).
  assert (forall i row m cb,
            rows vectors !! i = Some row -> codebooks pq !! m = Some cb ->
            exists crow a centroid,
              rows codes !! i = Some crow /\ crow !! m = Some (Z.of_nat a) /\
              rows cb !! a = Some centroid /\
              (forall j cj, rows cb !! j = Some cj ->
                 (FloatProductQuantizer.norm_diff fl fsum fsqrt
                    (slice (start_of pq m) (stop_of pq m) (map fl32 row)) centroid
                  <= FloatProductQuantizer.norm_diff fl fsum fsqrt
                       (slice (start_of pq m) (stop_of pq m) (map fl32 row)) cj)%Q) /\
              (forall j cj, rows cb !! j = Some cj -> (j < a)%nat ->
                 (FloatProductQuantizer.norm_diff fl fsum fsqrt
                    (slice (start_of pq m) (stop_of pq m) (map fl32 row)) centroid
                  < FloatProductQuantizer.norm_diff fl fsum fsqrt
                      (slice (start_of pq m) (stop_of pq m) (map fl32 row)) cj)%Q))
    as Hnear.
  { intros i row m cb Hi Hm.
    destruct (Hspec i row m cb Hi Hm)
      as (crow & a & centroid & Hcrow & Hcode & Hcen & Hle & Hlt).
    pose proof (Forall_lookup_1 _ _ _ _ (trained_books pq T) Hm) as (Hcb & Hcw & Hcl).
    cbn beta in *.
    assert (Z.of_nat a < n_centroids pq) as Hak.
    { apply lookup_lt_Some in Hcen. unfold len in Hcl. lia. }
    assert (int_to_uint8 (Z.of_nat a) = Z.of_nat a) as Hsmall.
    { unfold int_to_uint8. apply Z.mod_small. lia. }
    rewrite Hsmall in Hcode.
    exists crow, a, centroid. by split_and!. }
  exists codes. split_and!; try done.
  apply Forall_lookup. intros i crow Hcrow. apply Forall_lookup. intros m c Hc.
  destruct (lookup_lt_is_Some_2 (rows vectors) i) as [row Hi].
  { apply lookup_lt_Some in Hcrow. unfold len in Hnl. lia. }
  destruct (lookup_lt_is_Some_2 (codebooks pq) m) as [cb Hm].
  { apply lookup_lt_Some in Hc.
    pose proof (Forall_lookup_1 _ _ _ _ Hws Hcrow) as Hl. cbn beta in Hl.
    pose proof (trained_count pq T). lia. }
  destruct (Hnear i row m cb Hi Hm) as (crow' & a & centroid & Hcrow' & Hca & Hcen & _).
  rewrite Hcrow in Hcrow'. injection Hcrow' as <-. rewrite Hc in Hca. injection Hca as ->.
  pose proof (Forall_lookup_1 _ _ _ _ (trained_books pq T) Hm) as (_ & _ & Hcl).
  cbn beta in Hcl. apply lookup_lt_Some in Hcen. unfold len in Hcl. lia.
Qed.

(** C4 (amended).  For every trained model with at most 256 centroids
    and every input of width [vector_dim], [encode] returns one code per
    vector and subspace; the code of subspace [m] lies in
    [0, n_centroids - 1] and is the index of a centroid of codebook [m]
    whose computed distance from the vector's [m]-th subvector (the
    vector converted to [float32], the distance the rounded norm of the
    rounded difference) is least; every centroid of lower index has a
    strictly greater computed distance.  This holds whatever the
    rounding of the float format, the order of the sum and the rounded
    square root are. *)
Theorem encode_assigns_least_computed_distance (pq : t) (vectors : ndarray Q) :
  Trained pq -> n_centroids pq <= 256 ->
  well_shaped vectors -> Z.of_nat (ncols vectors) = vector_dim pq ->
  exists codes,
    FloatProductQuantizer.encode fl32 fl fsum fsqrt pq vectors = Ok codes /\
    Z.of_nat (ncols codes) = n_subspaces pq /\ len codes = len vectors /\
    forall i row m cb,
      rows vectors !! i = Some row -> codebooks pq !! m = Some cb ->
      exists crow c centroid,
        rows codes !! i = Some crow /\ crow !! m = Some c /\
        0 <= c <= n_centroids pq - 1 /\
        rows cb !! Z.to_nat c = Some centroid /\
        let sub := slice (Z.of_nat m * subvector_dim pq)
                         (Z.of_nat m * subvector_dim pq + subvector_dim pq)
                         (map fl32 row) in
        (forall j cj, rows cb !! j = Some cj ->
           (FloatProductQuantizer.norm_diff fl fsum fsqrt sub centroid
            <= FloatProductQuantizer.norm_diff fl fsum fsqrt sub cj)%Q) /\
        (forall j cj, rows cb !! j = Some cj -> (j < Z.to_nat c)%nat ->
           (FloatProductQuantizer.norm_diff fl fsum fsqrt sub centroid
            < FloatProductQuantizer.norm_diff fl fsum fsqrt sub cj)%Q).
Proof.
  intros T HK Hv Hw.
  destruct (float_encode_nearest pq vectors T HK Hv)
    as (codes & Henc & Hnc & Hnl & _ & _ & Hspec); [lia|].
  exists codes. split_and!; try done.
  intros i row m cb Hi Hm.
  destruct (Hspec i row m cb Hi Hm) as (crow & a & centroid & Hcrow & Ha & Hcen & Hle & Hlt).
  cbv zeta. fold (start_of pq m). fold (stop_of pq m).
  exists crow, (Z.of_nat a), centroid. rewrite Nat2Z.id.
  pose proof (Forall_lookup_1 _ _ _ _ (trained_books pq T) Hm) as (_ & _ & Hcl).
  cbn beta in Hcl. pose proof (lookup_lt_Some _ _ _ Hcen) as Hlt'. unfold len in Hcl.
  split_and!; try done; lia.
Qed.

(** Decoding what [encode] returned: every subspace of the result is a
    centroid of least computed distance from the original subvector. *)
Lemma float_decode_encode_spec (pq : t) (vectors : ndarray Q) :
  Trained pq -> n_centroids pq <= 256 ->
  well_shaped vectors -> vector_dim pq <= Z.of_nat (ncols vectors) ->
  exists codes recon,
    FloatProductQuantizer.encode fl32 fl fsum fsqrt pq vectors = Ok codes /\
    decode pq codes = Ok recon /\
    Z.of_nat (ncols recon) = vector_dim pq /\ len recon = len vectors /\
    well_shaped recon /\
    forall i row m cb,
      rows vectors !! i = Some row -> codebooks pq !! m = Some cb ->
      exists r a,
        rows recon !! i = Some r /\
        rows cb !! a = Some (slice (start_of pq m) (stop_of pq m) r) /\
        forall j cj, rows cb !! j = Some cj ->
          (FloatProductQuantizer.norm_diff fl fsum fsqrt
             (slice (start_of pq m) (stop_of pq m) (map fl32 row))
             (slice (start_of pq m) (stop_of pq m) r)
           <= FloatProductQuantizer.norm_diff fl fsum fsqrt
                (slice (start_of pq m) (stop_of pq m) (map fl32 row)) cj)%Q.
Proof.
  intros T HK Hv Hw.
  destruct (float_encode_nearest pq vectors T HK Hv Hw)
    as (codes & Henc & Hnc & Hnl & Hws & Hrange & Hnear).
  destruct (decode_ok pq codes T Hws) as (recon & Hdec & Hrc & Hrl & Hrws & Hrec); [lia|..].
  { intros i crow m c Hi _ Hc.
    pose proof (Forall_lookup_1 _ _ _ _ Hrange Hi) as Hrow. cbn beta in Hrow.
    pose proof (Forall_lookup_1 _ _ _ _ Hrow Hc) as Hcv. cbn beta in Hcv. lia. }
  exists codes, recon. split_and!; try done; try congruence.
  intros i row m cb Hi Hm.
  destruct (Hnear i row m cb Hi Hm) as (crow & a & centroid & Hcrow & Ha & Hcen & Hle & _).
  destruct (Hrec i crow m cb (Z.of_nat a) Hcrow Hm Ha) as (r & centroid' & Hr & Hcen' & Hsl).
  apply row_at_spec in Hcen' as [_ Hcen']. unfold wrap_index in Hcen'.
  destruct (Z.ltb_spec (Z.of_nat a) 0); [lia|].
  rewrite Nat2Z.id, Hcen in Hcen'. injection Hcen' as <-.
  exists r, a. rewrite Hsl. split_and!; done.
Qed.

(** X4.  Decoding what [encode] returned.  With at most 256 centroids,
    every subspace of the reconstruction is a centroid of its codebook
    whose computed distance from the original subvector (converted to
    [float32]) is least among the centroids of that codebook, whatever
    the rounding of the float format is. *)
Theorem decode_of_encode_is_nearest (pq : t) (vectors : ndarray Q) :
  Trained pq -> n_centroids pq <= 256 ->
  well_shaped vectors -> vector_dim pq <= Z.of_nat (ncols vectors) ->
  exists codes recon,
    FloatProductQuantizer.encode fl32 fl fsum fsqrt pq vectors = Ok codes /\
    decode pq codes = Ok recon /\
    Z.of_nat (ncols recon) = vector_dim pq /\ len recon = len vectors /\
    forall i row m cb,
      rows vectors !! i = Some row -> codebooks pq !! m = Some cb ->
      exists r,
        rows recon !! i = Some r /\
        let sub := slice (start_of pq m) (stop_of pq m) (map fl32 row) in
        let rsub := slice (start_of pq m) (stop_of pq m) r in
        rsub ∈ rows cb /\
        forall cj, cj ∈ rows cb ->
          (FloatProductQuantizer.norm_diff fl fsum fsqrt sub rsub
           <= FloatProductQuantizer.norm_diff fl fsum fsqrt sub cj)%Q.
Proof.
  intros T HK Hv Hw.
  destruct (float_decode_encode_spec pq vectors T HK Hv Hw)
    as (codes & recon & Henc & Hdec & Hnc & Hnl & Hws & Hspec).
  exists codes, recon. split_and!; try done.
  intros i row m cb Hi Hcb.
  destruct (Hspec i row m cb Hi Hcb) as (r & a & Hr & Hcen & Hle).
  exists r. split; [done|]. cbv zeta. split.
  - by eapply list_elem_of_lookup_2.
  - intros cj Hin. apply list_elem_of_lookup_1 in Hin as [j Hj]. by apply (Hle j).
Qed.

Lemma slice_map {A B} (f : A -> B) (a b : Z) (l : list A) :
  slice a b (map f l) = map f (slice a b l).
Proof. unfold slice. by rewrite length_map, <- fmap_drop, <- fmap_take. Qed.

(** X5.  Encoding what [decode] returned.  With at most 256 centroids,
    codebooks whose centroids the computed distances tell apart, and
    codes of shape (N, M) with entries in [0, K), [encode (decode codes)]
    is [codes]. *)
Theorem encode_of_decode_is_identity (pq : t) (codes : ndarray Z) :
  Trained pq -> n_centroids pq <= 256 ->
  Forall (FloatProductQuantizer.told_apart fl32 fl fsum fsqrt) (codebooks pq) ->
  well_shaped codes -> Z.of_nat (ncols codes) = n_subspaces pq ->
  Forall (Forall (fun c => 0 <= c < n_centroids pq)) (rows codes) ->
  exists recon,
    decode pq codes = Ok recon /\
    Z.of_nat (ncols recon) = vector_dim pq /\ len recon = len codes /\
    FloatProductQuantizer.encode fl32 fl fsum fsqrt pq recon = Ok codes.
Proof.
  intros T HK Hdist Hws Hnc Hrange.
  destruct (decode_ok pq codes T Hws) as (recon & Hdec & Hrc & Hrl & Hrws & Hrec); [lia|..].
  { intros i crow m c Hi _ Hc.
    pose proof (Forall_lookup_1 _ _ _ _ Hrange Hi) as Hrow. cbn beta in Hrow.
    pose proof (Forall_lookup_1 _ _ _ _ Hrow Hc) as Hcv. cbn beta in Hcv. lia. }
  exists recon. split_and!; try done.
  destruct (float_encode_nearest pq recon T HK Hrws) as
    (codes' & Henc & Hnc' & Hnl' & Hws' & Hrange' & Hnear); [lia|].
  rewrite Henc. f_equal.
  apply ndarray_ext; try done; try lia; try congruence.
  intros i crow' crow m Hi' Hi Hm.
  destruct (lookup_lt_is_Some_2 (rows recon) i) as [r Hr].
  { apply lookup_lt_Some in Hi. unfold len in Hrl. lia. }
  destruct (lookup_lt_is_Some_2 (codebooks pq) m) as [cb Hcb].
  { pose proof (trained_count pq T). lia. }
  destruct (lookup_lt_is_Some_2 crow m) as [c Hc].
  { pose proof (Forall_lookup_1 _ _ _ _ Hws Hi) as Hl. cbn beta in Hl. lia. }
  destruct (Hnear i r m cb Hr Hcb) as (crow2 & a & centroid & Hcrow2 & Ha & Hcen & Hle & _).
  rewrite Hi' in Hcrow2. injection Hcrow2 as <-.
  destruct (Hrec i crow m cb c Hi Hcb Hc) as (r' & centroid' & Hr' & Hcen' & Hsl).
  rewrite Hr in Hr'. injection Hr' as <-.
  pose proof (Forall_lookup_1 _ _ _ _ Hrange Hi) as Hrow. cbn beta in Hrow.
  pose proof (Forall_lookup_1 _ _ _ _ Hrow Hc) as Hcv. cbn beta in Hcv.
  apply row_at_spec in Hcen' as [_ Hcen']. unfold wrap_index in Hcen'.
  destruct (Z.ltb_spec c 0); [lia|].
  rewrite Ha, Hc. f_equal.
  pose proof (Forall_lookup_1 _ _ _ _ Hdist Hcb) as Hd. cbn beta in Hd.
  enough (a = Z.to_nat c) by lia.
  specialize (Hle _ _ Hcen'). rewrite slice_map, Hsl in Hle.
  destruct (Hd (Z.to_nat c) a centroid' centroid Hcen' Hcen) as [_ Hpos].
  destruct (Hd (Z.to_nat c) (Z.to_nat c) centroid' centroid' Hcen' Hcen') as [Hzero _].
  destruct (decide (a = Z.to_nat c)) as [|Hne]; [done|].
  specialize (Hpos ltac:(congruence)). specialize (Hzero eq_refl). lra.
Qed.

End Format.

Lemma pq_tie_Trained : Trained pq_tie.
Proof.
  constructor; try by vm_compute.
  vm_compute. repeat constructor.
Qed.

(** The statement of X20 in binary32 at 257 centroids, centroid [j] at
    [j]: the vector [[256]] is nearest to centroid 256 and gets the
    code 0. *)
Lemma encode_stores_index_modulo_256_witness :
  (exists codes,
     FloatProductQuantizer.encode Binary32.round Binary32.round Binary32.sum Binary32.sqrt pq257 v256
     = Ok codes /\
     Z.of_nat (ncols codes) = n_subspaces pq257 /\ len codes = len v256 /\
     forall i row m cb,
       rows v256 !! i = Some row -> codebooks pq257 !! m = Some cb ->
       exists crow a centroid,
         rows codes !! i = Some crow /\
         crow !! m = Some (Z.of_nat a mod 256) /\
         rows cb !! a = Some centroid /\
         (256 <= Z.of_nat a -> Z.of_nat a mod 256 <> Z.of_nat a) /\
         let sub := slice (start_of pq257 m) (stop_of pq257 m) (map Binary32.round row) in
         (forall j cj, rows cb !! j = Some cj ->
            (FloatProductQuantizer.norm_diff Binary32.round Binary32.sum Binary32.sqrt
               sub centroid
             <= FloatProductQuantizer.norm_diff Binary32.round Binary32.sum Binary32.sqrt
                  sub cj)%Q) /\
         (forall j cj, rows cb !! j = Some cj -> (j < a)%nat ->
            (FloatProductQuantizer.norm_diff Binary32.round Binary32.sum Binary32.sqrt
               sub centroid
             < FloatProductQuantizer.norm_diff Binary32.round Binary32.sum Binary32.sqrt
                 sub cj)%Q)) /\
  FloatProductQuantizer.encode Binary32.round Binary32.round Binary32.sum Binary32.sqrt pq257 v256
  = Ok (mk_ndarray 1 [[0]]) /\
  argmin (FloatProductQuantizer.row_distances Binary32.round Binary32.sum Binary32.sqrt
            data257 [256%Q]) = Ok 256%nat.
Proof.
  split; [|split; by vm_compute].
  apply (encode_stores_index_modulo_256
           Binary32.round Binary32.round Binary32.sum Binary32.sqrt pq257 v256).
  - exact pq257_Trained.
  - inspect_shape.
  - vm_compute. discriminate.
Defined.

(** The statement of C4 in binary32, at a trained quantizer of two
    centroids. *)
Lemma encode_assigns_least_computed_distance_witness :
  exists codes,
    FloatProductQuantizer.encode Binary32.round Binary32.round Binary32.sum Binary32.sqrt pq42 vectors42
    = Ok codes /\
    Z.of_nat (ncols codes) = n_subspaces pq42 /\ len codes = len vectors42 /\
    forall i row m cb,
      rows vectors42 !! i = Some row -> codebooks pq42 !! m = Some cb ->
      exists crow c centroid,
        rows codes !! i = Some crow /\ crow !! m = Some c /\
        0 <= c <= n_centroids pq42 - 1 /\
        rows cb !! Z.to_nat c = Some centroid /\
        let sub := slice (Z.of_nat m * subvector_dim pq42)
                         (Z.of_nat m * subvector_dim pq42 + subvector_dim pq42)
                         (map Binary32.round row) in
        (forall j cj, rows cb !! j = Some cj ->
           (FloatProductQuantizer.norm_diff Binary32.round Binary32.sum Binary32.sqrt
              sub centroid
            <= FloatProductQuantizer.norm_diff Binary32.round Binary32.sum Binary32.sqrt
                 sub cj)%Q) /\
        (forall j cj, rows cb !! j = Some cj -> (j < Z.to_nat c)%nat ->
           (FloatProductQuantizer.norm_diff Binary32.round Binary32.sum Binary32.sqrt
              sub centroid
            < FloatProductQuantizer.norm_diff Binary32.round Binary32.sum Binary32.sqrt
                sub cj)%Q).
Proof.
  apply (encode_assigns_least_computed_distance
           Binary32.round Binary32.round Binary32.sum Binary32.sqrt pq42 vectors42).
  - exact pq42_Trained.
  - vm_compute. discriminate.
  - inspect_shape.
  - reflexivity.
Defined.

(** C4, refuted as stated.  In binary32, with two centroids [(1, 2^-13)]
    and [(1, 0)], both of them binary32 numbers, the vector [(0, 0)] gets
    code 0: the square of [2^-13] is lost when it is added to 1, the two
    computed distances are both 1, and the first index wins, although
    centroid 1 is strictly nearer in Euclidean distance. *)
Lemma encode_stores_farther_centroid_at_near_tie :
  Trained pq_tie /\ n_centroids pq_tie <= 256 /\ codebooks pq_tie = [data_tie] /\
  Forall (Forall (fun x => Binary32.round x = x)) (rows data_tie) /\
  FloatProductQuantizer.encode Binary32.round Binary32.round Binary32.sum Binary32.sqrt pq_tie origin2
  = Ok (mk_ndarray 1 [[0]]) /\
  FloatProductQuantizer.row_distances Binary32.round Binary32.sum Binary32.sqrt
    data_tie [0; 0]%Q = [1; 1]%Q /\
  (euclidean [0; 0]%Q [1; 0]%Q < euclidean [0; 0]%Q [1; 1 # 8192]%Q)%R.
Proof.
  split; [exact pq_tie_Trained|].
  split; [vm_compute; discriminate|].
  split; [by vm_compute|].
  split; [repeat constructor|].
  split; [by vm_compute|].
  split; [by vm_compute|].
  apply euclidean_lt. by vm_compute.
Qed.

(** The statement of X4 in binary32, at the model of two subspaces. *)
Lemma decode_of_encode_is_nearest_witness :
  exists codes recon,
    FloatProductQuantizer.encode Binary32.round Binary32.round Binary32.sum Binary32.sqrt pq42 vectors42
    = Ok codes /\
    decode pq42 codes = Ok recon /\
    Z.of_nat (ncols recon) = vector_dim pq42 /\ len recon = len vectors42 /\
    forall i row m cb,
      rows vectors42 !! i = Some row -> codebooks pq42 !! m = Some cb ->
      exists r,
        rows recon !! i = Some r /\
        let sub := slice (start_of pq42 m) (stop_of pq42 m) (map Binary32.round row) in
        let rsub := slice (start_of pq42 m) (stop_of pq42 m) r in
        rsub ∈ rows cb /\
        forall cj, cj ∈ rows cb ->
          (FloatProductQuantizer.norm_diff Binary32.round Binary32.sum Binary32.sqrt
             sub rsub
           <= FloatProductQuantizer.norm_diff Binary32.round Binary32.sum Binary32.sqrt
                sub cj)%Q.
Proof.
  apply (decode_of_encode_is_nearest
           Binary32.round Binary32.round Binary32.sum Binary32.sqrt pq42 vectors42).
  - exact pq42_Trained.
  - vm_compute. discriminate.
  - inspect_shape.
  - vm_compute. discriminate.
Defined.

(** The centroids [(0, 0)] and [(1, 1)] are told apart in binary32. *)
Lemma pq42_told_apart :
  Forall (FloatProductQuantizer.told_apart Binary32.round Binary32.round Binary32.sum Binary32.sqrt)
         (codebooks pq42).
Proof.
  assert (FloatProductQuantizer.told_apart Binary32.round Binary32.round Binary32.sum Binary32.sqrt
            (mk_ndarray 2 [[0; 0]; [1; 1]]%Q)) as H.
  { intros j k cj ck Hj Hk. cbn [rows] in Hj, Hk.
    destruct j as [|[|j]]; [| |done]; destruct k as [|[|k]]; try done;
      injection Hj as <-; injection Hk as <-;
      (split; intros Hjk; [try done|try done]); by vm_compute. }
  change (codebooks pq42) with [mk_ndarray 2 [[0; 0]; [1; 1]]%Q; mk_ndarray 2 [[0; 0]; [1; 1]]%Q].
  apply Forall_cons; split; [exact H|]. apply Forall_cons; split; [exact H|]. apply Forall_nil_2.
Qed.

(** The statement of X5 in binary32, at the model of two subspaces. *)
Lemma encode_of_decode_is_identity_witness :
  exists recon,
    decode pq42 codes42 = Ok recon /\
    Z.of_nat (ncols recon) = vector_dim pq42 /\ len recon = len codes42 /\
    FloatProductQuantizer.encode Binary32.round Binary32.round Binary32.sum Binary32.sqrt pq42 recon
    = Ok codes42.
Proof.
  apply (encode_of_decode_is_identity
           Binary32.round Binary32.round Binary32.sum Binary32.sqrt pq42 codes42).
  - exact pq42_Trained.
  - vm_compute. discriminate.
  - exact pq42_told_apart.
  - inspect_shape.
  - reflexivity.
  - repeat constructor; lia.
Defined.

End FloatProductFacts.

(** ** The scalar quantizer in float arithmetic *)

Module FloatScalarFacts.
Import ScalarQuantizer ScalarSpec Examples Runs FloatRuns ScalarFacts.

Local Open Scope Q_scope.

Lemma scale_le (x y k : Q) : 0 <= k -> x <= y -> k * x <= k * y.
Proof. intros Hk H. rewrite !(Qmult_comm k). by apply Qmult_le_compat_r. Qed.

(** A product of a factor in [-b, b] with a factor in [0, c]. *)
Lemma mult_band (x b y c : Q) :
  - b <= x -> x <= b -> 0 <= y -> y <= c -> - (b * c) <= x * y /\ x * y <= b * c.
Proof. intros. split; nra. Qed.

Lemma roundtrip_algebra (u h t R e L lo a r e1 d rho n s c m p w : Q) :
  0 <= u -> u <= 1 # 1000 -> 0 <= h -> h <= 1 # 1000000000 ->
  0 <= t -> t <= R -> 0 <= e -> - L <= lo -> lo <= L ->
  - (u * t + h) <= a - t -> a - t <= u * t + h ->
  - (u * R + h) <= r - R -> r - R <= u * R + h ->
  - (u * e + h) <= e1 - e -> e1 - e <= u * e + h ->
  - (u * (r + e1) + h) <= d - (r + e1) -> d - (r + e1) <= u * (r + e1) + h ->
  0 <= a -> a <= r -> r <= d -> 0 < d -> 0 < e1 ->
  rho * d == a -> 0 <= rho -> rho <= 1 ->
  - (u * rho + h) <= n - rho -> n - rho <= u * rho + h -> 0 <= n -> n <= 1 ->
  - (u * (n * 255) + h) <= s - n * 255 -> s - n * 255 <= u * (n * 255) + h ->
  c <= s -> s < c + 1 -> 0 <= c -> c <= 255 ->
  - (u * (c / 255) + h) <= m - c / 255 -> m - c / 255 <= u * (c / 255) + h ->
  0 <= m -> m <= 1 ->
  - (u * (m * r) + h) <= p - m * r -> p - m * r <= u * (m * r) + h ->
  0 <= p -> p <= r ->
  - (u * Qabs (p + lo) + h) <= w - (p + lo) -> w - (p + lo) <= u * Qabs (p + lo) + h ->
  - (10 * u * (R + e + L) + 10 * h * (1 + R)) <= t + lo - w /\
  t + lo - w < R / 255 + e + (10 * u * (R + e + L) + 10 * h * (1 + R)).
Proof.
  intros Hu0 Hu1 Hh0 Hh1 Ht0 HtR He0 HL0 HL1 Ha0 Ha1 Hr0 Hr1 He10 He11 Hd0 Hd1
    Ha Har Hrd Hd He1 Hrho Hrho0 Hrho1 Hn0 Hn1 Hn Hn' Hs0 Hs1 Hc0 Hc1 Hc Hc'
    Hm0 Hm1 Hm Hm' Hp0 Hp1 Hp Hp' Hw0 Hw1.
  assert (0 <= R) as HR by lra.
  assert (0 <= r) as Hr by lra.
  assert (0 <= L) as HL by lra.
  (* the products that occur, as atoms *)
  assert (0 <= u * R) as HuR by (by apply Qmult_le_0_compat).
  assert (0 <= h * R) as HhR by (by apply Qmult_le_0_compat).
  assert (0 <= u * e) as Hue by (by apply Qmult_le_0_compat).
  assert (0 <= u * L) as HuL by (by apply Qmult_le_0_compat).
  assert (0 <= u * h) as Huh by (by apply Qmult_le_0_compat).
  assert (u * t <= u * R) as Hut by (by apply scale_le).
  assert (0 <= u * t) as Hut0 by (by apply Qmult_le_0_compat).
  assert (u * h <= (1 # 1000) * h) as Huh1 by (clear - Hu1 Hh0; nra).
  assert (u * (u * R) <= (1 # 1000) * (u * R)) as HuuR by (clear - Hu1 HuR; nra).
  assert (u * (u * e) <= (1 # 1000) * (u * e)) as Huue by (clear - Hu1 Hue; nra).
  assert (h * (u * R) <= (1 # 1000) * (h * R)) as HhuR.
  { assert (h * (u * R) == u * (h * R)) as -> by ring. clear - Hu1 HhR. nra. }
  assert (h * h <= (1 # 1000000000) * h) as Hhh by (clear - Hh0 Hh1; nra).
  assert (0 <= u * r) as Hur0 by (by apply Qmult_le_0_compat).
  assert (0 <= h * r) as Hhr0 by (by apply Qmult_le_0_compat).
  assert (u * r <= (1001 # 1000) * (u * R) + (1 # 1000) * h) as Hur.
  { assert (u * r <= u * (R + u * R + h)) as H by (apply scale_le; [done|lra]).
    assert (u * (R + u * R + h) == u * R + u * (u * R) + u * h) as E by ring.
    lra. }
  assert (h * r <= (1001 # 1000) * (h * R) + (1 # 1000000000) * h) as Hhr.
  { assert (h * r <= h * (R + u * R + h)) as H by (apply scale_le; [done|lra]).
    assert (h * (R + u * R + h) == h * R + h * (u * R) + h * h) as E by ring.
    lra. }
  assert (0 <= u * e1) as Hue10 by (apply Qmult_le_0_compat; lra).
  assert (u * e1 <= (1001 # 1000) * (u * e) + (1 # 1000) * h) as Hue1.
  { assert (u * e1 <= u * (e + u * e + h)) as H by (apply scale_le; [done|lra]).
    assert (u * (e + u * e + h) == u * e + u * (u * e) + u * h) as E by ring.
    lra. }
  assert (u * (r + e1) == u * r + u * e1) as Hdist by ring.
  (* the divisor exceeds the range by about [e] *)
  assert (d - r <= e + (2001 # 1000) * (u * e) + (1001 # 1000) * (u * R)
                   + (2002 # 1000) * h) as HD by lra.
  (* the steps from [t] to [w - lo], one after the other *)
  assert (0 <= rho * (d - r) /\ rho * (d - r) <= d - r) as [HX0 HX1].
  { clear - Hrho0 Hrho1 Hrd. split; nra. }
  assert (rho * (d - r) == a - rho * r) as HX.
  { rewrite <- Hrho. ring. }
  assert (0 <= u * rho /\ u * rho <= u) as [Hurho0 Hurho1].
  { clear - Hu0 Hrho0 Hrho1. split; nra. }
  destruct (mult_band (n - rho) (u + h) r r) as [N0 N1]; try lra.
  assert ((n - rho) * r == n * r - rho * r) as EN by ring.
  assert ((u + h) * r == u * r + h * r) as EB by ring.
  assert (0 <= u * (n * 255) /\ u * (n * 255) <= 255 * u) as [Hun0 Hun1].
  { clear - Hu0 Hn Hn'. split; nra. }
  destruct (mult_band (s - n * 255) (255 * u + h) r r) as [S0 S1]; try lra.
  assert ((s - n * 255) * r == s * r - 255 * (n * r)) as ES by ring.
  assert ((255 * u + h) * r == 255 * (u * r) + h * r) as EBS by ring.
  assert (0 <= (s - c) * r /\ (s - c) * r <= r) as [T0 T1].
  { clear - Hc0 Hc1 Hr. split; nra. }
  assert ((s - c) * r == s * r - c * r) as ET by ring.
  assert (0 <= u * (c / 255) /\ u * (c / 255) <= u) as [Huc0 Huc1].
  { assert (c / 255 == c * (1 # 255)) as -> by (by field).
    clear - Hu0 Hc Hc'. split; nra. }
  destruct (mult_band (m - c / 255) (u + h) r r) as [M0 M1]; try lra.
  assert ((m - c / 255) * r == m * r - (c * r) / 255) as EM by (by field).
  assert (0 <= m * r /\ m * r <= r) as [Hmr0 Hmr1].
  { clear - Hm Hm' Hr. split; nra. }
  assert (0 <= u * (m * r) /\ u * (m * r) <= u * r) as [Humr0 Humr1].
  { split; [by apply Qmult_le_0_compat|by apply scale_le]. }
  assert (Qabs (p + lo) <= r + L) as Habs.
  { apply Qabs_Qle_condition. lra. }
  assert (0 <= u * Qabs (p + lo) /\ u * Qabs (p + lo) <= u * r + u * L) as [Hua0 Hua1].
  { split.
    - apply Qmult_le_0_compat; [done|apply Qabs_nonneg].
    - assert (u * r + u * L == u * (r + L)) as -> by ring. by apply scale_le. }
  assert (rho * (d - r) + ((s - c) * r) * (1 # 255) < (d - r) + r * (1 # 255)) as Hstrict.
  { destruct (Qlt_le_dec 0 r) as [Hpos|Hzero].
    - assert ((s - c) * r < r) by (clear - Hc1 Hpos; nra). lra.
    - assert (r == 0) as Er by lra.
      assert (a == 0) as Ea by lra.
      assert (rho == 0) as Erho.
      { rewrite Ea in Hrho. apply Qmult_integral in Hrho as [E|E]; [done|lra]. }
      assert (rho * (d - r) == 0) as -> by (rewrite Erho; ring).
      assert ((s - c) * r == 0) as -> by (rewrite Er; ring).
      rewrite Er. lra. }
  assert (r / 255 == r * (1 # 255)) as E2 by (by field).
  assert (R / 255 == R * (1 # 255)) as E3 by (by field).
  assert ((c * r) / 255 == (c * r) * (1 # 255)) as E4 by (by field).
  assert (10 * u * (R + e + L) == 10 * (u * R) + 10 * (u * e) + 10 * (u * L)) as E5 by ring.
  assert (10 * h * (1 + R) == 10 * h + 10 * (h * R)) as E6 by ring.
  rewrite E3, E5, E6. rewrite E4 in EM.
  split; lra.
Qed.

Local Close Scope Q_scope.

Section Laws.

Variable fl : Q -> Q.
Variables u eta : Q.
Hypothesis Hfl : Float.ieee fl u eta.

Lemma fl_eq (x y : Q) : (x == y)%Q -> (fl x == fl y)%Q.
Proof. apply (Float.fl_proper fl u eta Hfl). Qed.

Lemma fl_le (x y : Q) : (x <= y)%Q -> (fl x <= fl y)%Q.
Proof. apply (Float.fl_mono fl u eta Hfl). Qed.

Lemma fl_fl (x : Q) : (fl (fl x) == fl x)%Q.
Proof. apply (Float.fl_idem fl u eta Hfl). Qed.

Lemma fl_zero : (fl 0 == 0)%Q.
Proof. apply (Float.fl_byte fl u eta Hfl 0). lia. Qed.

Lemma fl_one : (fl 1 == 1)%Q.
Proof. apply (Float.fl_byte fl u eta Hfl 1). lia. Qed.

Lemma fl_255 : (fl 255 == 255)%Q.
Proof. apply (Float.fl_byte fl u eta Hfl 255). lia. Qed.

Lemma fl_nonneg (x : Q) : (0 <= x)%Q -> (0 <= fl x)%Q.
Proof. intros H. rewrite <- fl_zero. by apply fl_le. Qed.

Lemma fl_le_1 (x : Q) : (x <= 1)%Q -> (fl x <= 1)%Q.
Proof. intros H. rewrite <- fl_one. by apply fl_le. Qed.

(** The error of one rounding, as two inequalities. *)
Lemma fl_near (x : Q) :
  (- (u * Qabs x + eta) <= fl x - x)%Q /\ (fl x - x <= u * Qabs x + eta)%Q.
Proof. apply Qabs_Qle_condition. apply (Float.fl_error fl u eta Hfl). Qed.

Lemma fl_near_nonneg (x : Q) :
  (0 <= x)%Q ->
  (- (u * x + eta) <= fl x - x)%Q /\ (fl x - x <= u * x + eta)%Q.
Proof.
  intros H. pose proof (fl_near x) as Hn. by rewrite (Qabs_pos x H) in Hn.
Qed.

Lemma unit_bounds : (0 <= u)%Q /\ (u <= 1 # 1000)%Q.
Proof. apply (Float.fl_unit fl u eta Hfl). Qed.

Lemma under_bounds : (0 <= eta)%Q /\ (eta <= 1 # 1000000000)%Q.
Proof. apply (Float.fl_under fl u eta Hfl). Qed.

(** The literal [1e-8] stays positive when it is rounded. *)
Lemma fl_eps_pos : (0 < fl eps)%Q.
Proof.
  destruct (fl_near_nonneg eps) as [H _]; [by vm_compute|].
  destruct unit_bounds, under_bounds. unfold eps in *. lra.
Qed.

(** The values on the way through [quantize], for an element of the
    fitted range. *)
Lemma range_nonneg (lo hi : Q) : (lo <= hi)%Q -> (0 <= fl (hi - lo))%Q.
Proof. intros H. apply fl_nonneg. lra. Qed.

Lemma divisor_above_range (lo hi : Q) :
  (lo <= hi)%Q -> (fl (hi - lo) <= fl (fl (hi - lo) + fl eps))%Q.
Proof.
  intros H. rewrite <- (fl_fl (hi - lo)) at 1. apply fl_le.
  pose proof fl_eps_pos. lra.
Qed.

Lemma divisor_pos (lo hi : Q) : (lo <= hi)%Q -> (0 < fl (fl (hi - lo) + fl eps))%Q.
Proof.
  intros H. apply Qlt_le_trans with (fl eps); [apply fl_eps_pos|].
  rewrite <- (fl_fl eps) at 1. apply fl_le.
  pose proof (range_nonneg lo hi H). lra.
Qed.

Lemma numerator_bounds (lo hi v : Q) :
  (lo <= v)%Q -> (v <= hi)%Q ->
  (0 <= fl (v - lo))%Q /\ (fl (v - lo) <= fl (hi - lo))%Q.
Proof.
  intros Hl Hh. split; [apply fl_nonneg; lra|apply fl_le; lra].
Qed.

Lemma quotient_bounds (lo hi v : Q) :
  (lo <= v)%Q -> (v <= hi)%Q ->
  (0 <= fl (v - lo) / fl (fl (hi - lo) + fl eps))%Q /\
  (fl (v - lo) / fl (fl (hi - lo) + fl eps) <= 1)%Q.
Proof.
  intros Hl Hh.
  destruct (numerator_bounds lo hi v Hl Hh) as [Ha0 Har].
  assert (lo <= hi)%Q as Hlh by lra.
  pose proof (divisor_above_range lo hi Hlh) as Hrd.
  pose proof (divisor_pos lo hi Hlh) as Hd.
  split.
  - apply Qle_shift_div_l; [done|]. lra.
  - apply Qle_shift_div_r; [done|]. lra.
Qed.

Lemma normalized_bounds (lo hi v : Q) :
  (lo <= v)%Q -> (v <= hi)%Q ->
  (0 <= fl (fl (v - lo) / fl (fl (hi - lo) + fl eps)))%Q /\
  (fl (fl (v - lo) / fl (fl (hi - lo) + fl eps)) <= 1)%Q.
Proof.
  intros Hl Hh. destruct (quotient_bounds lo hi v Hl Hh) as [H0 H1].
  split; [by apply fl_nonneg|by apply fl_le_1].
Qed.

Lemma scaled_in_range (lo hi v : Q) :
  (lo <= v)%Q -> (v <= hi)%Q ->
  (0 <= FloatScalarQuantizer.scaled fl lo hi v)%Q /\
  (FloatScalarQuantizer.scaled fl lo hi v <= 255)%Q.
Proof.
  intros Hl Hh. destruct (normalized_bounds lo hi v Hl Hh) as [H0 H1].
  unfold FloatScalarQuantizer.scaled. split.
  - apply fl_nonneg. lra.
  - pose proof fl_255 as E.
    pose proof (fl_le (fl (fl (v - lo) / fl (fl (hi - lo) + fl eps)) * 255) 255) as H.
    specialize (H ltac:(lra)). lra.
Qed.

Variable fl32 : Q -> Q.
Variable cast_out : Q -> Z.

Lemma float_quantize_row_unfold (lo hi r : list Q) :
  map (fun x => FloatScalarQuantizer.astype_uint8 cast_out (fl (x * 255)))
      (map (fun p => fl (p.1 / p.2))
           (zip (zip_with (fun a b => fl (a - b)) r lo)
                (map (fun x => fl (x + fl eps)) (zip_with (fun a b => fl (a - b)) hi lo))))
  = FloatScalarQuantizer.quantize_row fl cast_out lo hi r.
Proof.
  unfold FloatScalarQuantizer.quantize_row. revert lo hi.
  induction r as [|v r IH]; intros [|a lo] [|b hi]; simpl; try done.
  by rewrite IH.
Qed.

Lemma float_dequantize_row_unfold (lo hi : list Q) (r : list Z) :
  zip_with (fun a b => fl (a + b))
    (zip_with (fun a b => fl (a * b))
       (map (fun c => fl32 (fl32 (inject_Z c) / 255)) r)
       (zip_with (fun a b => fl (a - b)) hi lo)) lo
  = FloatScalarQuantizer.dequantize_row fl fl32 lo hi r.
Proof.
  unfold FloatScalarQuantizer.dequantize_row. revert lo hi.
  induction r as [|v r IH]; intros [|a lo] [|b hi]; simpl; try done.
  by rewrite IH.
Qed.

Lemma float_denominators_nonzero (lo hi : list Q) :
  Forall2 Qle lo hi ->
  Forall (fun d => Qeq_bool d 0 = false)
         (map (fun x => fl (x + fl eps)) (zip_with (fun a b => fl (a - b)) hi lo)).
Proof.
  induction 1 as [|a b lo hi Hab _ IH]; simpl; constructor; [|done].
  apply not_true_is_false. intros E. apply Qeq_bool_iff in E.
  pose proof (divisor_pos a b Hab). lra.
Qed.

(** [quantize] of a fitted quantizer on an input of the fitted width. *)
Lemma float_quantize_fitted (sq : t) (lo hi : list Q) (vectors : ndarray Q) :
  sq = mk (Some lo) (Some hi) true ->
  Forall2 Qle lo hi -> well_shaped vectors -> ncols vectors = length lo ->
  FloatScalarQuantizer.quantize fl cast_out sq vectors
  = Ok (mk_ndarray (ncols vectors)
          (map (FloatScalarQuantizer.quantize_row fl cast_out lo hi) (rows vectors))).
Proof.
  intros -> Hle Hws Hw.
  unfold FloatScalarQuantizer.quantize, FloatScalarQuantizer.range_of. simpl.
  pose proof (Forall2_length _ _ _ Hle) as Hlen.
  rewrite mat_vec_op_same by done. simpl.
  rewrite vec_op_same by done. simpl.
  unfold FloatScalarQuantizer.mat_vec_divide. simpl.
  set (den := map (fun x => fl (x + fl eps)) (zip_with (fun a b => fl (a - b)) hi lo)).
  assert (length den = length lo) as Hden.
  { unfold den. rewrite length_map, length_zip_with. lia. }
  rewrite Hden, Hw, broadcast_dim_same. simpl.
  erewrite (traverse_ok _ (fun r => map (fun p => fl (p.1 / p.2)) (zip r den))).
  - simpl. unfold mat_scalar_op. simpl. do 2 f_equal.
    rewrite !map_map. apply map_ext. intros r. apply float_quantize_row_unfold.
  - apply Forall_map. eapply Forall_impl; [exact Hws|]. intros r Hr. simpl in Hr.
    rewrite !stretch_id by (rewrite ?length_zip_with; lia).
    apply traverse_ok. apply Forall_forall. intros [n d] Hin. simpl.
    apply elem_of_zip_r in Hin. simpl in Hin.
    pose proof (float_denominators_nonzero lo hi Hle) as Hnz.
    rewrite Forall_forall in Hnz. unfold true_divide. by rewrite (Hnz d Hin).
Qed.

(** [dequantize] of a fitted quantizer on codes of the fitted width. *)
Lemma float_dequantize_fitted (sq : t) (lo hi : list Q) (codes : ndarray Z) :
  sq = mk (Some lo) (Some hi) true ->
  length lo = length hi -> well_shaped codes -> ncols codes = length lo ->
  FloatScalarQuantizer.dequantize fl fl32 sq codes
  = Ok (mk_ndarray (ncols codes)
          (map (FloatScalarQuantizer.dequantize_row fl fl32 lo hi) (rows codes))).
Proof.
  intros -> Hlen Hws Hw.
  unfold FloatScalarQuantizer.dequantize, FloatScalarQuantizer.range_of. simpl.
  rewrite vec_op_same by done. simpl.
  rewrite mat_vec_op_same; simpl.
  - rewrite mat_vec_op_same; simpl.
    + do 2 f_equal. rewrite !map_map. apply map_ext. intros r.
      apply float_dequantize_row_unfold.
    + apply Forall_map. apply Forall_map.
      eapply Forall_impl; [exact Hws|]. intros r Hr. simpl in *.
      rewrite length_zip_with, length_map, length_zip_with. lia.
    + done.
  - apply Forall_map. eapply Forall_impl; [exact Hws|]. intros r Hr. simpl in *.
    by rewrite length_map.
  - rewrite length_zip_with. lia.
Qed.

Lemma float_quantize_row_lookup (los his row : list Q) j v lo hi :
  row !! j = Some v -> los !! j = Some lo -> his !! j = Some hi ->
  FloatScalarQuantizer.quantize_row fl cast_out los his row !! j
  = Some (FloatScalarQuantizer.quantize_elem fl cast_out lo hi v).
Proof.
  intros Hv Hlo Hhi. unfold FloatScalarQuantizer.quantize_row.
  assert (zip los his !! j = Some (lo, hi)) as Hz.
  { by rewrite lookup_zip_with, Hlo; simpl; rewrite Hhi. }
  by rewrite lookup_zip_with, Hv; simpl; rewrite Hz.
Qed.

Lemma float_dequantize_row_lookup (los his : list Q) (row : list Z) j c lo hi :
  row !! j = Some c -> los !! j = Some lo -> his !! j = Some hi ->
  FloatScalarQuantizer.dequantize_row fl fl32 los his row !! j
  = Some (FloatScalarQuantizer.dequantize_elem fl fl32 lo hi c).
Proof.
  intros Hv Hlo Hhi. unfold FloatScalarQuantizer.dequantize_row.
  assert (zip los his !! j = Some (lo, hi)) as Hz.
  { by rewrite lookup_zip_with, Hlo; simpl; rewrite Hhi. }
  by rewrite lookup_zip_with, Hv; simpl; rewrite Hz.
Qed.

Lemma float_quantize_row_length (los his row : list Q) n :
  length row = n -> length los = n -> length his = n ->
  length (FloatScalarQuantizer.quantize_row fl cast_out los his row) = n.
Proof.
  intros. unfold FloatScalarQuantizer.quantize_row. rewrite !length_zip_with. lia.
Qed.

(** Inside [0, 255] the conversion to [uint8] is the integer part. *)
Lemma float_astype_uint8_small (x : Q) :
  (0 <= x)%Q -> (x <= 255)%Q ->
  FloatScalarQuantizer.astype_uint8 cast_out x = Qfloor x /\ 0 <= Qfloor x <= 255.
Proof.
  intros H0 H1. unfold FloatScalarQuantizer.astype_uint8.
  rewrite Qtrunc_nonneg by done.
  assert (0 <= Qfloor x <= 255) as Hb.
  { split.
    - change 0 with (Qfloor 0). by apply Qfloor_resp_le.
    - change 255 with (Qfloor 255). by apply Qfloor_resp_le. }
  destruct (Z.leb_spec 0 (Qfloor x)); [|lia].
  destruct (Z.leb_spec (Qfloor x) 255); [|lia].
  done.
Qed.

Lemma float_quantize_elem_in_range (lo hi v : Q) :
  (lo <= v)%Q -> (v <= hi)%Q ->
  FloatScalarQuantizer.quantize_elem fl cast_out lo hi v
  = Qfloor (FloatScalarQuantizer.scaled fl lo hi v) /\
  0 <= Qfloor (FloatScalarQuantizer.scaled fl lo hi v) <= 255.
Proof.
  intros Hl Hh. destruct (scaled_in_range lo hi v Hl Hh) as [H0 H1].
  unfold FloatScalarQuantizer.quantize_elem. by apply float_astype_uint8_small.
Qed.


End Laws.

Section Roundtrip.

Variables fl fl32 : Q -> Q.
Variable cast_out : Q -> Z.
Variables u eta : Q.
Hypothesis Hfl : Float.ieee fl u eta.
Hypothesis Hfl32 : Float.ieee fl32 u eta.

(** The quotient of a byte by 255, in [float32]. *)
Lemma byte_quotient (c : Z) :
  0 <= c <= 255 ->
  (fl32 (fl32 (inject_Z c) / 255) == fl32 (inject_Z c / 255))%Q /\
  (0 <= inject_Z c / 255)%Q /\ (inject_Z c / 255 <= 1)%Q /\
  (0 <= fl32 (inject_Z c / 255))%Q /\ (fl32 (inject_Z c / 255) <= 1)%Q.
Proof.
  intros Hc.
  assert (0 <= inject_Z c / 255)%Q as H0.
  { apply Qle_shift_div_l; [done|]. rewrite Qmult_0_l.
    change 0%Q with (inject_Z 0). rewrite <- Zle_Qle. lia. }
  assert (inject_Z c / 255 <= 1)%Q as H1.
  { apply Qle_shift_div_r; [done|]. rewrite Qmult_1_l.
    change 255%Q with (inject_Z 255). rewrite <- Zle_Qle. lia. }
  split_and!; try done.
  - apply (fl_eq fl32 u eta Hfl32).
    by rewrite (Float.fl_byte fl32 u eta Hfl32 c Hc).
  - by apply (fl_nonneg fl32 u eta Hfl32).
  - by apply (fl_le_1 fl32 u eta Hfl32).
Qed.

(** The value a byte decodes to, between what the bytes 0 and 255
    decode to. *)
Lemma float_dequantize_elem_mono (lo hi : Q) (c c' : Z) :
  (lo <= hi)%Q -> c <= c' ->
  (FloatScalarQuantizer.dequantize_elem fl fl32 lo hi c
   <= FloatScalarQuantizer.dequantize_elem fl fl32 lo hi c')%Q.
Proof.
  intros Hle Hc. unfold FloatScalarQuantizer.dequantize_elem.
  pose proof (range_nonneg fl u eta Hfl lo hi Hle) as Hr.
  apply (fl_le fl u eta Hfl).
  apply Qplus_le_compat; [|apply Qle_refl].
  apply (fl_le fl u eta Hfl).
  apply Qmult_le_compat_r; [|done].
  apply (fl_le fl32 u eta Hfl32).
  apply Qmult_le_compat_r; [|done].
  apply (fl_le fl32 u eta Hfl32). by rewrite <- Zle_Qle.
Qed.

Lemma float_dequantize_elem_0 (lo hi : Q) :
  (FloatScalarQuantizer.dequantize_elem fl fl32 lo hi 0 == fl lo)%Q.
Proof.
  unfold FloatScalarQuantizer.dequantize_elem.
  apply (fl_eq fl u eta Hfl).
  destruct (byte_quotient 0) as (E & _); [lia|].
  assert (fl32 (inject_Z 0 / 255) == 0)%Q as E0.
  { apply Qeq_trans with (fl32 0); [by apply (fl_eq fl32 u eta Hfl32)|].
    apply (fl_zero fl32 u eta Hfl32). }
  assert (fl (fl32 (fl32 (inject_Z 0) / 255) * fl (hi - lo)) == 0)%Q as ->; [|ring].
  apply Qeq_trans with (fl 0); [|apply (fl_zero fl u eta Hfl)].
  apply (fl_eq fl u eta Hfl). rewrite E, E0. ring.
Qed.

Lemma float_dequantize_elem_255 (lo hi : Q) :
  (FloatScalarQuantizer.dequantize_elem fl fl32 lo hi 255 == fl (fl (hi - lo) + lo))%Q.
Proof.
  unfold FloatScalarQuantizer.dequantize_elem.
  apply (fl_eq fl u eta Hfl).
  destruct (byte_quotient 255) as (E & _); [lia|].
  assert (fl32 (inject_Z 255 / 255) == 1)%Q as E1.
  { apply Qeq_trans with (fl32 1); [by apply (fl_eq fl32 u eta Hfl32)|].
    apply (fl_one fl32 u eta Hfl32). }
  assert (fl (fl32 (fl32 (inject_Z 255) / 255) * fl (hi - lo)) == fl (hi - lo))%Q as ->;
    [|ring].
  apply Qeq_trans with (fl (fl (hi - lo))); [|apply (fl_fl fl u eta Hfl)].
  apply (fl_eq fl u eta Hfl). rewrite E, E1. ring.
Qed.

(** The error of a round trip of one element of the fitted range. *)
Lemma float_roundtrip_error (lo hi v : Q) :
  (lo <= v)%Q -> (v <= hi)%Q ->
  let c := Qfloor (FloatScalarQuantizer.scaled fl lo hi v) in
  let w := FloatScalarQuantizer.dequantize_elem fl fl32 lo hi c in
  (- FloatScalarQuantizer.slack u eta lo hi <= v - w)%Q /\
  (v - w < (hi - lo) / 255 + eps + FloatScalarQuantizer.slack u eta lo hi)%Q.
Proof.
  intros Hl Hh c w.
  assert (lo <= hi)%Q as Hlh by lra.
  destruct (unit_bounds fl u eta Hfl) as [Hu0 Hu1].
  destruct (under_bounds fl u eta Hfl) as [Hh0 Hh1].
  destruct (numerator_bounds fl u eta Hfl lo hi v Hl Hh) as [Ha Har].
  pose proof (divisor_above_range fl u eta Hfl lo hi Hlh) as Hrd.
  pose proof (divisor_pos fl u eta Hfl lo hi Hlh) as Hd.
  pose proof (fl_eps_pos fl u eta Hfl) as He1.
  destruct (quotient_bounds fl u eta Hfl lo hi v Hl Hh) as [Hrho0 Hrho1].
  destruct (normalized_bounds fl u eta Hfl lo hi v Hl Hh) as [Hn0 Hn1].
  destruct (scaled_in_range fl u eta Hfl lo hi v Hl Hh) as [Hs0 Hs1].
  destruct (float_quantize_elem_in_range fl u eta Hfl cast_out lo hi v Hl Hh) as [_ Hc].
  fold c in Hc.
  pose proof (Qfloor_le (FloatScalarQuantizer.scaled fl lo hi v)) as Hc0.
  pose proof (Qlt_floor (FloatScalarQuantizer.scaled fl lo hi v)) as Hc1.
  rewrite inject_Z_plus in Hc1. fold c in Hc0, Hc1.
  destruct (byte_quotient c Hc) as (Em & Hq0 & Hq1 & Hm0 & Hm1).
  pose proof (range_nonneg fl u eta Hfl lo hi Hlh) as Hr.
  unfold FloatScalarQuantizer.scaled in Hs0, Hs1, Hc0, Hc1.
  set (a := fl (v - lo)) in *.
  set (r := fl (hi - lo)) in *.
  set (d := fl (r + fl eps)) in *.
  set (n := fl (a / d)) in *.
  set (s := fl (n * 255)) in *.
  set (m := fl32 (fl32 (inject_Z c) / 255)) in *.
  assert (0 <= m * r)%Q as Hmr0 by (apply Qmult_le_0_compat; lra).
  assert (m * r <= r)%Q as Hmr1.
  { rewrite <- (Qmult_1_l r) at 2. apply Qmult_le_compat_r; lra. }
  assert (0 <= fl (m * r))%Q as Hp0 by (by apply (fl_nonneg fl u eta Hfl)).
  assert (fl (m * r) <= r)%Q as Hp1.
  { pose proof (fl_le fl u eta Hfl _ _ Hmr1) as H.
    pose proof (fl_fl fl u eta Hfl (hi - lo)) as E. fold r in H, E. lra. }
  assert (w = fl (fl (m * r) + lo)) as Ew by done.
  destruct (fl_near_nonneg fl u eta Hfl (v - lo)) as [A0 A1]; [lra|].
  destruct (fl_near_nonneg fl u eta Hfl (hi - lo)) as [R0 R1]; [lra|].
  destruct (fl_near_nonneg fl u eta Hfl eps) as [E0 E1]; [by vm_compute|].
  destruct (fl_near_nonneg fl u eta Hfl (r + fl eps)) as [D0 D1]; [lra|].
  destruct (fl_near_nonneg fl u eta Hfl (a / d)) as [N0 N1]; [done|].
  destruct (fl_near_nonneg fl u eta Hfl (n * 255)) as [S0 S1]; [lra|].
  destruct (fl_near_nonneg fl32 u eta Hfl32 (inject_Z c / 255)) as [M0 M1]; [done|].
  destruct (fl_near_nonneg fl u eta Hfl (m * r)) as [P0 P1]; [done|].
  destruct (fl_near fl u eta Hfl (fl (m * r) + lo)) as [W0 W1].
  fold a r d n s in A0, A1, R0, R1, D0, D1, N0, N1, S0, S1.
  rewrite <- Ew in W0, W1.
  assert (inject_Z 0 <= inject_Z c)%Q as Hcq0 by (rewrite <- Zle_Qle; lia).
  assert (inject_Z c <= inject_Z 255)%Q as Hcq1 by (rewrite <- Zle_Qle; lia).
  destruct (roundtrip_algebra u eta (v - lo) (hi - lo) eps (Qabs lo) lo
              a r (fl eps) d (a / d) n s (inject_Z c) m (fl (m * r)) w) as [B0 B1];
    try done; try lra.
  - pose proof (Qle_Qabs (- lo)) as H. rewrite Qabs_opp in H. lra.
  - apply Qle_Qabs.
  - field. lra.
  - unfold FloatScalarQuantizer.slack. split; lra.
Qed.




End Roundtrip.







End FloatScalarFacts.
